(** * ODBC DSN Manager: the configuration-store engine and the connection
      tester of [odbc-driver-administrator.py], embedded in Rocq.

    Python strings are modelled as lists of [ascii] characters.  Codes
    below 128 are the ASCII characters; the development covers text whose
    whitespace and letters are ASCII, and treats every other code as an
    ordinary character (neither whitespace nor a cased letter).

    Python dictionaries keep their insertion order, and the code depends
    on it (iteration order of sections, first match of a scan), so a
    dictionary is an association list whose keys are pairwise distinct:
    [dict_set] updates in place when the key is present and appends
    otherwise, exactly as [d[k] = v] does.

    A call returns a value or is left by an exception ([result]); the
    lines a function prints and its calls of the connector are kept in
    the order in which they happen.  The file system, the environment
    and the presence of the module [pyodbc] are given with the [world]
    a function runs in; a look at a file may raise, as
    [Path(p).exists()] does for every error of [stat] but "not
    found". *)

From Stdlib Require Import List Ascii String Bool Arith Lia.
From Stdlib Require Import Permutation Sorted FinFun.
From Stdlib Require Import DecimalString DecimalNat.
Import ListNotations.

Set Implicit Arguments.

Local Open Scope string_scope.
Local Open Scope list_scope.

(* ================================================================= *)
(** ** Python strings *)

Definition str := list ascii.

Coercion list_ascii_of_string : string >-> list.

Definition str_eqb (a b : str) : bool :=
  if list_eq_dec ascii_dec a b then true else false.

Definition char_eqb (a b : ascii) : bool := Ascii.eqb a b.
Arguments char_eqb : simpl never.

(** [c.isspace()] for an ASCII character: tab, newline, vertical tab,
    form feed, carriage return, the four separators 0x1c..0x1f, space. *)
Definition isspace (c : ascii) : bool :=
  let n := nat_of_ascii c in
  ((9 <=? n)%nat && (n <=? 13)%nat) || ((28 <=? n)%nat && (n <=? 32)%nat).

Fixpoint lstrip (s : str) : str :=
  match s with
  | [] => []
  | c :: s' => if isspace c then lstrip s' else s
  end.

Definition rstrip (s : str) : str := rev (lstrip (rev s)).

(** [s.strip()] *)
Definition strip (s : str) : str := rstrip (lstrip s).

(** [s.startswith(c)] and [s.endswith(c)] for a one-character [c]. *)
Definition startswith (c : ascii) (s : str) : bool :=
  match s with
  | [] => false
  | c' :: _ => char_eqb c' c
  end.

Definition endswith (c : ascii) (s : str) : bool := startswith c (rev s).

(** [s[1:-1]] *)
Definition slice_1_m1 (s : str) : str := removelast (tl s).

(** [c in s] for a one-character [c]. *)
Definition contains (c : ascii) (s : str) : bool := existsb (char_eqb c) s.

(** [s.split('=', 1)] when ['=' in s]: the text before the first ['=']
    and the text after it. *)
Fixpoint split_eq (s : str) : str * str :=
  match s with
  | [] => ([], [])
  | c :: s' =>
      if char_eqb c "="%char then ([], s')
      else let (k, v) := split_eq s' in (c :: k, v)
  end.

(** [str(n)] for a natural number. *)
Definition str_of_nat (n : nat) : str :=
  list_ascii_of_string (NilEmpty.string_of_uint (Nat.to_uint n)).

(** [c.lower()] and [c.upper()] on ASCII letters. *)
Definition lower_char (c : ascii) : ascii :=
  let n := nat_of_ascii c in
  if (65 <=? n)%nat && (n <=? 90)%nat then ascii_of_nat (n + 32) else c.

Definition upper_char (c : ascii) : ascii :=
  let n := nat_of_ascii c in
  if (97 <=? n)%nat && (n <=? 122)%nat then ascii_of_nat (n - 32) else c.

Definition lower (s : str) : str := map lower_char s.
Definition upper (s : str) : str := map upper_char s.

(** ['*' * n] *)
Definition stars (n : nat) : str := repeat "*"%char n.

Definition nl : ascii := "010"%char.
Definition cr : ascii := "013"%char.

(** Iterating over a file opened in text mode: universal newlines turn
    ["\r\n"] and a lone ["\r"] into ["\n"], and every line keeps its
    terminating ["\n"] (the last one may have none). *)
Fixpoint readlines (s : str) : list str :=
  match s with
  | [] => []
  | c :: s' =>
      if char_eqb c nl then [nl] :: readlines s'
      else if char_eqb c cr then
        match s' with
        | c2 :: s'' =>
            if char_eqb c2 nl then [nl] :: readlines s''
            else [nl] :: readlines s'
        | [] => [[nl]]
        end
      else match readlines s' with
           | [] => [[c]]
           | l :: ls => (c :: l) :: ls
           end
  end.

(* ================================================================= *)
(** ** Insertion-ordered dictionaries *)

Section Dict.
Variable V : Type.

Definition dict := list (str * V).

Definition keys (d : dict) : list str := map fst d.

Fixpoint dict_get (k : str) (d : dict) : option V :=
  match d with
  | [] => None
  | (k', v) :: d' => if str_eqb k' k then Some v else dict_get k d'
  end.

(** [k in d] *)
Definition dict_mem (k : str) (d : dict) : bool :=
  match dict_get k d with Some _ => true | None => false end.

(** [d[k] = v] *)
Fixpoint dict_set (k : str) (v : V) (d : dict) : dict :=
  match d with
  | [] => [(k, v)]
  | (k', v') :: d' =>
      if str_eqb k' k then (k, v) :: d' else (k', v') :: dict_set k v d'
  end.
End Dict.

Arguments dict_get {V} k d.
Arguments dict_mem {V} k d.
Arguments dict_set {V} k v d.
Arguments keys {V} d.

(** One [[Name]] block: key to value. *)
Definition section := dict str.
(** The dictionary [read_ini_file] returns: section name to section. *)
Definition store := dict section.


(* ================================================================= *)
(** ** Exceptions, files and the result of a call *)

(** The exceptions the modelled code can meet.  [KeyError] is what
    [d[k]] raises for an absent key; [OSError] stands for whatever the
    file system raises (permission denied, a directory, a name too
    long, an undecodable byte), with the text [str(e)] gives;
    [UnboundLocalError] is what the use of a local variable raises
    before anything was bound to it, with the text Python 3.11 and later
    give it. *)
Inductive exn :=
| KeyError (k : str)
| OSError (msg : str)
| UnboundLocalError (name : str).

Definition exn_str (e : exn) : str :=
  match e with
  | KeyError k => "'" ++ k ++ "'"
  | OSError msg => msg
  | UnboundLocalError name =>
      "cannot access local variable '" ++ name
        ++ "' where it is not associated with a value"
  end.

(** What a call does: it returns a value or an exception leaves it. *)
Inductive result (A : Type) :=
| Returns (a : A)
| Fails (e : exn).
Arguments Returns {A} a.
Arguments Fails {A} e.

(** What a path string stands for, as [Path(p).exists()] and [open(p)]
    see it: no file; something that cannot even be looked at ([stat]
    raises an error other than "not found": a directory on the way that
    may not be searched, a name that is too long); something that is
    there and that [open] refuses; or a text file.  Reading a text file
    delivers [content] and then raises [fault], if there is one. *)
Inductive file :=
| Absent
| Unstatable (e : exn)
| Unopenable (e : exn)
| Text (content : str) (fault : option exn).

Definition filesystem := str -> file.

(** [Path(p).exists()]: [False] when [stat] finds nothing (ENOENT,
    ENOTDIR, EBADF, ELOOP); any other [OSError] of [stat] is raised
    again. *)
Definition path_exists (fs : filesystem) (p : str) : result bool :=
  match fs p with
  | Absent => Returns false
  | Unstatable e => Fails e
  | Unopenable _ | Text _ _ => Returns true
  end.

(** [open(p, 'r')] and the reading of the whole file: the text read and
    the exception that ends the reading, if any; or the exception
    [open] raises. *)
Definition open_file (fs : filesystem) (p : str)
  : result (str * option exn) :=
  match fs p with
  | Absent =>
      Fails (OSError ("[Errno 2] No such file or directory: '" ++ p ++ "'"))
  | Unstatable e | Unopenable e => Fails e
  | Text content fault => Returns (content, fault)
  end.

(** Truth value of a string that may be [None]. *)
Definition truthy (o : option str) : bool :=
  match o with
  | Some (_ :: _) => true
  | _ => false
  end.

(* ================================================================= *)
(** ** [read_ini_file] *)

(** The state of the loop of [read_ini_file]: the dictionary built so
    far, the section that key lines go to, and the lines printed. *)
Record pstate := mk_pstate {
  dsn_dict : store;
  current_section : option str;
  printed : list str
}.

Definition init_pstate : pstate := mk_pstate [] None [].

(** [section_name in ['ODBC', 'ODBC Data Sources']] *)
Definition reserved (section_name : str) : bool :=
  str_eqb section_name "ODBC" || str_eqb section_name "ODBC Data Sources".

(** [f"{original_name}__{counter}"] *)
Definition numbered (original_name : str) (counter : nat) : str :=
  original_name ++ "__" ++ str_of_nat counter.

(** The loop [while section_name in dsn_dict: ...], one test of the
    condition per unit of fuel; [None] when the fuel runs out. *)
Fixpoint rename_loop (d : store) (original_name section_name : str)
    (counter fuel : nat) : option str :=
  match fuel with
  | 0 => None
  | S fuel' =>
      if dict_mem section_name d
      then rename_loop d original_name (numbered original_name counter)
             (S counter) fuel'
      else Some section_name
  end.

(** The name the loop ends with.  One more test than the dictionary has
    keys always finds a free name ([rename_loop_terminates] below), so
    the second branch is never taken. *)
Definition fresh_name (d : store) (original_name : str) : str :=
  match rename_loop d original_name original_name 1 (S (List.length d)) with
  | Some section_name => section_name
  | None => original_name
  end.

Definition dup_warning (original_name section_name : str) : str :=
  "Warning: Duplicate section '" ++ original_name ++ "' renamed to '"
    ++ section_name ++ "'".

Definition is_empty (s : str) : bool :=
  match s with [] => true | _ => false end.

(** The body of the [for] loop, for one line of the file. *)
Definition step (st : pstate) (raw : str) : result pstate :=
  let line := strip raw in
  if is_empty line || startswith "#" line || startswith ";" line then
    Returns st
  else if startswith "[" line && endswith "]" line then
    let section_name := strip (slice_1_m1 line) in
    if reserved section_name then
      Returns (mk_pstate (dsn_dict st) None (printed st))
    else
      let original_name := section_name in
      let section_name := fresh_name (dsn_dict st) original_name in
      let out :=
        if str_eqb section_name original_name then printed st
        else printed st ++ [dup_warning original_name section_name] in
      Returns (mk_pstate (dict_set section_name [] (dsn_dict st))
                 (Some section_name) out)
  else if contains "=" line then
    match current_section st with
    | Some cur =>
        let (key, value) := split_eq line in
        match dict_get cur (dsn_dict st) with
        | Some sec =>
            Returns (mk_pstate
                       (dict_set cur (dict_set (strip key) (strip value) sec)
                          (dsn_dict st))
                       (Some cur) (printed st))
        | None => Fails (KeyError cur)
        end
    | None => Returns st
    end
  else Returns st.

(** The [for] loop: the state when the lines are used up or when an
    exception leaves the loop, and that exception. *)
Fixpoint parse_lines (ls : list str) (st : pstate) : pstate * option exn :=
  match ls with
  | [] => (st, None)
  | l :: ls' =>
      match step st l with
      | Returns st' => parse_lines ls' st'
      | Fails e => (st, Some e)
      end
  end.

Definition read_error_warning (filepath : str) (e : exn) : str :=
  "Warning: Error reading " ++ filepath ++ ": " ++ exn_str e.

(** [read_ini_file(filepath)]: the result of the call and the lines it
    prints.  The test [Path(filepath).exists()] stands before the
    [try], so an exception it raises leaves the function.  [open] and
    the whole loop sit in [try: ... except Exception], whose handler
    prints a warning and lets the function return the dictionary as it
    is. *)
Definition read_ini_file (fs : filesystem) (filepath : option str)
  : result store * list str :=
  match filepath with
  | None => (Returns [], [])
  | Some p =>
      if is_empty p then (Returns [], [])
      else
        match path_exists fs p with
        | Fails e => (Fails e, [])
        | Returns false => (Returns [], [])
        | Returns true =>
            match open_file fs p with
            | Fails e => (Returns [], [read_error_warning p e])
            | Returns (content, fault) =>
                let (st, raised) :=
                  parse_lines (readlines content) init_pstate in
                match raised, fault with
                | Some e, _ | None, Some e =>
                    (Returns (dsn_dict st),
                     printed st ++ [read_error_warning p e])
                | None, None => (Returns (dsn_dict st), printed st)
                end
            end
        end
  end.

(** [Parse(rawText)] of the specification: the store and the warnings
    that [read_ini_file] gives for a file with this content
    ([read_ini_file_text] below).  No line makes the loop raise
    ([parse_lines_consistent]), so the handler adds nothing. *)
Definition Parse (rawText : str) : store * list str :=
  let st := fst (parse_lines (readlines rawText) init_pstate) in
  (dsn_dict st, printed st).

(* ================================================================= *)
(** ** How [step] reads a line *)

(** The four ways the loop body treats a line: blank lines and comments
    are skipped, a line in brackets is a header, a line with ['='] is a
    key line, anything else is passed over. *)
Inductive line_kind :=
| Skipped
| Header (section_name : str)
| KeyValue (key value : str)
| Other.

Definition classify (raw : str) : line_kind :=
  let line := strip raw in
  if is_empty line || startswith "#" line || startswith ";" line then Skipped
  else if startswith "[" line && endswith "]" line then
    Header (strip (slice_1_m1 line))
  else if contains "=" line then
    let (key, value) := split_eq line in KeyValue (strip key) (strip value)
  else Other.

(** The header step on a name that is not reserved. *)
Definition open_section (st : pstate) (original_name : str) : pstate :=
  let section_name := fresh_name (dsn_dict st) original_name in
  mk_pstate (dict_set section_name [] (dsn_dict st)) (Some section_name)
    (if str_eqb section_name original_name then printed st
     else printed st ++ [dup_warning original_name section_name]).

(** The invariant of the loop: section names are pairwise distinct and
    the current section is one of them. *)
Definition consistent (st : pstate) : Prop :=
  NoDup (keys (dsn_dict st)) /\
  forall cur, current_section st = Some cur -> In cur (keys (dsn_dict st)).

(* ================================================================= *)
(** ** Vocabulary for the statements about [read_ini_file] *)

Definition is_header (raw : str) : bool :=
  match classify raw with
  | Header _ => true
  | _ => false
  end.

(** The headers that open a section: all but the two reserved ones. *)
Definition opens_section (raw : str) : bool :=
  match classify raw with
  | Header section_name => negb (reserved section_name)
  | _ => false
  end.

Definition opening_headers (ls : list str) : list str :=
  filter opens_section ls.

(** The key lines of a section body, assigned in order to a section. *)
Definition add_key_line (sec : section) (raw : str) : section :=
  match classify raw with
  | KeyValue key value => dict_set key value sec
  | _ => sec
  end.

Definition section_of (body : list str) : section :=
  fold_left add_key_line body [].

(** A sequence of lines that is empty or begins with a header. *)
Definition starts_with_header (ls : list str) : Prop :=
  match ls with
  | [] => True
  | l :: _ => is_header l = true
  end.

(** The state of the loop after the lines [ls] of a file. *)
Definition after_lines (ls : list str) : pstate :=
  fst (parse_lines ls init_pstate).

Definition str_of (s : string) : str := list_ascii_of_string s.

(** A file is a list of lines, each ended by a newline. *)
Definition text_of (ls : list string) : str :=
  flat_map (fun l => str_of l ++ [nl]) ls.

(* ================================================================= *)
(** ** Writing a store *)

Definition tab : ascii := "009"%char.

(** [str(value).replace('\n', '\n\t')] *)
Definition replace_nl (value : str) : str :=
  flat_map (fun c => if char_eqb c nl then [nl; tab] else [c]) value.

Definition write_key_line (kv : str * str) : str :=
  fst kv ++ " = " ++ replace_nl (snd kv) ++ [nl].

Definition write_section (entry : str * section) : str :=
  "[" ++ fst entry ++ "]" ++ [nl]
    ++ flat_map write_key_line (snd entry) ++ [nl].

(** Modelled from the spec: [Serialize(store)] of section 4.1.  The
    source has [write_ini_file], which hands the writing to
    [config.write(f, space_around_delimiters=True)] of the standard
    library and never passes it a store of [read_ini_file]; the text
    written here is the one the specification describes and the library
    produces: the sections in insertion order, a header line, each key
    and value on a [key = value] line, a blank line after the section. *)
Definition Serialize (s : store) : str := flat_map write_section s.

(** Shapes of strings that the loop of [read_ini_file] produces. *)
Definition starts_tight (s : str) : Prop :=
  match s with
  | [] => True
  | c :: _ => isspace c = false
  end.

(** Neither end is whitespace: [s.strip() == s]. *)
Definition tight (s : str) : Prop := starts_tight s /\ starts_tight (rev s).

(** No line break inside. *)
Definition one_line (s : str) : Prop := Forall (fun c => c <> nl /\ c <> cr) s.

Definition name_ok (name : str) : Prop :=
  tight name /\ one_line name /\ reserved name = false.

Definition key_line_ok (kv : str * str) : Prop :=
  let (key, value) := kv in
  tight key /\ tight value /\ one_line key /\ one_line value /\
  contains "=" key = false /\
  startswith "#" key = false /\ startswith ";" key = false /\
  startswith "[" key && endswith "]" value = false.

Definition section_ok (sec : section) : Prop :=
  NoDup (keys sec) /\ Forall key_line_ok sec.

Definition store_ok (s : store) : Prop :=
  NoDup (keys s) /\
  Forall (fun entry => name_ok (fst entry) /\ section_ok (snd entry)) s.

(* ================================================================= *)
(** ** Listing the DSNs by driver: [list_dsns_grouped] *)

(** Comparison of two strings as Python compares them: character by
    character, by code. *)
Fixpoint str_leb (a b : str) : bool :=
  match a, b with
  | [], _ => true
  | _ :: _, [] => false
  | x :: a', y :: b' =>
      if (nat_of_ascii x <? nat_of_ascii y)%nat then true
      else if (nat_of_ascii y <? nat_of_ascii x)%nat then false
      else str_leb a' b'
  end.

(** [sorted(l)] and [l.sort()] on strings: a stable insertion sort. *)
Fixpoint insert_sorted (x : str) (l : list str) : list str :=
  match l with
  | [] => [x]
  | y :: l' => if str_leb x y then x :: l else y :: insert_sorted x l'
  end.

Definition sorted (l : list str) : list str := fold_right insert_sorted [] l.

(** The loop that looks for the driver of a DSN: the stripped value of
    the first key that reads [driver] in lower case, ['unknown'] when
    there is none. *)
Fixpoint driver_of (dsn_config : section) : str :=
  match dsn_config with
  | [] => "unknown"
  | (key, value) :: rest =>
      if str_eqb (lower key) "driver" then strip value else driver_of rest
  end.

(** [d[k]] on a [defaultdict(list)]: the empty list for an absent key. *)
Definition default_get (k : str) (d : dict (list str)) : list str :=
  match dict_get k d with
  | Some l => l
  | None => []
  end.

(** [driver_dsns[driver].append(dsn_name)] *)
Definition group_append (driver_dsns : dict (list str))
    (entry : str * section) : dict (list str) :=
  let driver := driver_of (snd entry) in
  dict_set driver (default_get driver driver_dsns ++ [fst entry]) driver_dsns.

Definition group_by_driver (dsn_dict : store) : dict (list str) :=
  fold_left group_append dsn_dict [].

(** [for driver in sorted(driver_dsns.keys()): driver_dsns[driver].sort()] *)
Definition sort_groups (driver_dsns : dict (list str)) : dict (list str) :=
  fold_left
    (fun g driver => dict_set driver (sorted (default_get driver g)) g)
    (sorted (keys driver_dsns)) driver_dsns.

(** The list the function returns.  With [show_details] the names are
    appended one by one while they are printed; without, group by group
    with [extend]. *)
Definition numbered_dsns (driver_dsns : dict (list str))
    (show_details : bool) : list str :=
  if show_details then
    fold_left
      (fun acc driver =>
         fold_left (fun acc dsn => acc ++ [dsn])
           (default_get driver driver_dsns) acc)
      (sorted (keys driver_dsns)) []
  else
    fold_left (fun acc driver => acc ++ default_get driver driver_dsns)
      (sorted (keys driver_dsns)) [].

(** The grouping, sorting and flattening of [list_dsns_grouped], on the
    dictionary read from [odbc.ini]. *)
Definition ListDsns (dsn_dict : store) (show_details : bool) : list str :=
  numbered_dsns (sort_groups (group_by_driver dsn_dict)) show_details.

(** The object the methods belong to. *)
Record ODBCManager := mk_manager {
  has_unixodbc : bool;
  has_iodbc : bool;
  odbcini : option str;
  odbcinst : option str
}.

(** [p and Path(p).exists()] as a truth value, for a path that may be
    [None]: the file system is not looked at for [None] and for the
    empty string. *)
Definition opt_path_exists (fs : filesystem) (p : option str) : result bool :=
  match p with
  | Some (c :: s) => path_exists fs (c :: s)
  | _ => Returns false
  end.

(** [list_dsns_grouped(show_details)]: the list it returns (what it
    prints, and the pause after every twentieth name, are left out).
    The test [Path(self.odbcini).exists()] is in no [try]. *)
Definition list_dsns_grouped (self : ODBCManager) (fs : filesystem)
    (show_details : bool) : result (list str) :=
  match opt_path_exists fs (odbcini self) with
  | Fails e => Fails e
  | Returns false => Returns []
  | Returns true =>
      match fst (read_ini_file fs (odbcini self)) with
      | Fails e => Fails e
      | Returns dsn_dict =>
          match dsn_dict with
          | [] => Returns []
          | _ => Returns (ListDsns dsn_dict show_details)
          end
      end
  end.

(** The order of the listing: by driver, then by name. *)
Definition dsn_driver (dsn_dict : store) (dsn_name : str) : str :=
  match dict_get dsn_name dsn_dict with
  | Some dsn_config => driver_of dsn_config
  | None => "unknown"
  end.

Definition str_lt (a b : str) : Prop := str_leb a b = true /\ a <> b.

Definition by_driver_then_name (dsn_dict : store) (a b : str) : Prop :=
  str_lt (dsn_driver dsn_dict a) (dsn_driver dsn_dict b) \/
  (dsn_driver dsn_dict a = dsn_driver dsn_dict b /\ str_leb a b = true).

(* ================================================================= *)
(** ** Showing a DSN: [show_dsn_details] *)

(** ["─"*63] *)
Definition rule : str := List.concat (repeat (str_of "─") 63).

(** [str(x)] for a string that may be [None]. *)
Definition py_str (o : option str) : str :=
  match o with
  | Some s => s
  | None => "None"
  end.

(** [key.upper() in ['PWD', 'PASSWORD']] *)
Definition is_password_key (key : str) : bool :=
  str_eqb (upper key) "PWD" || str_eqb (upper key) "PASSWORD".

(** The line printed for one key of the section. *)
Definition detail_line (kv : str * str) : str :=
  if is_password_key (fst kv) then fst kv ++ " = ********"
  else fst kv ++ " = " ++ snd kv.

(** [show_dsn_details(dsn_name)]: the section it returns ([None] when
    there is none) and the lines it prints. *)
Definition show_dsn_details (self : ODBCManager) (fs : filesystem)
    (dsn_name : str) : result (option section) * list str :=
  let out := [[nl] ++ "DSN: " ++ dsn_name; rule] in
  match opt_path_exists fs (odbcini self) with
  | Fails e => (Fails e, out)
  | Returns false =>
      (Returns None,
       out ++ ["Error: " ++ py_str (odbcini self) ++ " doesn't exist"])
  | Returns true =>
      let (r, warnings) := read_ini_file fs (odbcini self) in
      match r with
      | Fails e => (Fails e, out ++ warnings)
      | Returns dsn_dict =>
          match dict_get dsn_name dsn_dict with
          | None =>
              (Returns None, out ++ warnings ++ [str_of "DSN not found"])
          | Some dsn_config =>
              (Returns (Some dsn_config),
               out ++ warnings ++ map detail_line dsn_config ++ [rule; []])
          end
      end
  end.

(* ================================================================= *)
(** ** Testing a DSN: [test_dsn_unixodbc], [test_dsn_iodbc], [test_dsn] *)

Inductive backend := UnixODBC | IODBC.

(** What [pyodbc.connect(conn_str)] and the test query come to: the
    expected row, another row, a [pyodbc.Error], another exception. *)
Inductive conn_outcome :=
| ConnOK
| ConnUnexpected
| ConnError (e : str)
| ConnException (e : str).

(** What the process works in: the files, [os.environ], the home
    directory as [str(Path.home())] gives it, and whether [import pyodbc]
    succeeds. *)
Record world := mk_world {
  files : filesystem;
  environ : dict str;
  home : str;
  pyodbc : bool
}.

(** What a test leaves behind, in order: the lines printed and the
    calls of the connector, each with the connection string it got. *)
Inductive event :=
| Print (line : str)
| Connect (b : backend) (conn_str : str).

Definition prints (lines : list str) : list event := map Print lines.

(** The connection string and the one shown in its place. *)
Definition conn_str_of (dsn_name : str) (username password : option str)
  : str :=
  if truthy username && truthy password then
    "DSN=" ++ dsn_name ++ ";UID=" ++ py_str username
      ++ ";PWD=" ++ py_str password
  else "DSN=" ++ dsn_name.

Definition display_conn_str_of (dsn_name : str)
    (username password : option str) : str :=
  if truthy username && truthy password then
    "DSN=" ++ dsn_name ++ ";UID=" ++ py_str username
      ++ ";PWD=" ++ stars (List.length (py_str password))
  else "DSN=" ++ dsn_name.

Definition label (b : backend) : str :=
  match b with
  | UnixODBC => "unixODBC"
  | IODBC => "iODBC"
  end.

(** [os.environ[k] = v] when [v] is a non-empty string. *)
Definition setenv_if (k : str) (v : option str) (env : dict str) : dict str :=
  match v with
  | Some (c :: s) => dict_set k (c :: s) env
  | _ => env
  end.

(** [str(Path.home() / rel)] for a relative path [rel]: pathlib puts
    one slash between the two, none after the root, and leaves the
    current directory ["."] out. *)
Definition home_file (home rel : str) : str :=
  if str_eqb home "." then rel
  else if endswith "/" home then home ++ rel
  else home ++ "/" ++ rel.

Definition common_locations (home : str) : list str :=
  [str_of "/Library/ODBC/odbcinst.ini";
   str_of "/usr/local/etc/odbcinst.ini";
   home_file home ".odbcinst.ini"].

(** The loop over the common locations: the first that exists.  An
    exception of [Path(location).exists()] leaves the loop. *)
Fixpoint first_existing (fs : filesystem) (locations : list str)
  : result (option str) :=
  match locations with
  | [] => Returns None
  | location :: rest =>
      match path_exists fs location with
      | Fails e => Fails e
      | Returns true => Returns (Some location)
      | Returns false => first_existing fs rest
      end
  end.

(** The value of [odbcinst_path] after the search: [self.odbcinst],
    else [ODBCINST] of the environment, else the first common location
    that exists. *)
Definition find_odbcinst (self : ODBCManager) (fs : filesystem)
    (env : dict str) (home : str) : result (option str) :=
  if truthy (odbcinst self) then Returns (odbcinst self)
  else if truthy (dict_get "ODBCINST" env) then
    Returns (dict_get "ODBCINST" env)
  else
    match first_existing fs (common_locations home) with
    | Fails e => Fails e
    | Returns (Some location) => Returns (Some location)
    | Returns None => Returns (dict_get "ODBCINST" env)
    end.

(** [dsn_config[dsn_name].get('Driver', '')] *)
Definition driver_setting_of (dsn_config : section) : str :=
  match dict_get "Driver" dsn_config with
  | Some value => value
  | None => []
  end.

(** ['/' in driver_setting or '\\' in driver_setting]: the driver
    setting looks like a path. *)
Definition looks_like_path (driver_setting : str) : bool :=
  contains "/" driver_setting || contains "\" driver_setting.

(** The test of both functions for a driver path where a driver name
    belongs, on the section of the DSN. *)
Definition DetectPathMisconfiguration (dsn_config : section) : bool :=
  looks_like_path (driver_setting_of dsn_config).

(** The scan of [odbcinst.ini] for the driver whose library is the
    path: the first section whose [Driver] is equal to it. *)
Fixpoint find_driver_name (odbcinst_config : store) (driver_setting : str)
  : option str :=
  match odbcinst_config with
  | [] => None
  | (driver_name, driver_config) :: rest =>
      match dict_get "Driver" driver_config with
      | Some value =>
          if str_eqb value driver_setting then Some driver_name
          else find_driver_name rest driver_setting
      | None => find_driver_name rest driver_setting
      end
  end.

(** The check for a driver path in the DSN, with what it prints and the
    connection string it leaves for the connector.  [Fails] is an
    exception that reaches the outer handler of the function: the one
    [read_ini_file] lets through, or the one of
    [Path(odbcinst_path).exists()]. *)
Definition check_driver_path (self : ODBCManager) (fs : filesystem)
    (odbcinst_path : option str) (dsn_name : str)
    (username password : option str)
  : result str * list event :=
  let conn_str := conn_str_of dsn_name username password in
  let display_conn_str := display_conn_str_of dsn_name username password in
  let (r, warnings) := read_ini_file fs (odbcini self) in
  match r with
  | Fails e => (Fails e, prints warnings)
  | Returns dsn_config =>
      match dict_get dsn_name dsn_config with
      | None => (Returns conn_str, prints warnings)
      | Some dsn_section =>
          let driver_setting := driver_setting_of dsn_section in
          if looks_like_path driver_setting then
            let out1 :=
              prints warnings ++
              [Print ("Warning: DSN '" ++ dsn_name
                        ++ "' uses driver path instead of name: "
                        ++ driver_setting)] in
            match opt_path_exists fs odbcinst_path with
            | Fails e => (Fails e, out1)
            | Returns false => (Returns conn_str, out1)
            | Returns true =>
                let (r2, warnings2) := read_ini_file fs odbcinst_path in
                match r2 with
                | Fails e => (Fails e, out1 ++ prints warnings2)
                | Returns odbcinst_config =>
                    let correct_driver_name :=
                      find_driver_name odbcinst_config driver_setting in
                    if truthy correct_driver_name then
                      let conn_str :=
                        conn_str_of dsn_name username password in
                      let display_conn_str :=
                        display_conn_str_of dsn_name username password in
                      (Returns conn_str,
                       out1 ++ prints warnings2 ++
                       [Print ("Info: Found matching driver: "
                                 ++ py_str correct_driver_name);
                        Print ("Debug: Using corrected connection string: "
                                 ++ display_conn_str)])
                    else
                      (Returns conn_str,
                       out1 ++ prints warnings2 ++
                       [Print (str_of "Error: Could not find matching driver in odbcinst.ini")])
                end
            end
          else (Returns conn_str, prints warnings)
      end
  end.

Definition troubleshooting_tips : list str :=
  [[nl] ++ str_of "Troubleshooting tips for OpenLink drivers:";
   str_of "  1. Check WideAsUTF16=Yes in DSN configuration";
   str_of "  2. Verify driver is registered in odbcinst.ini";
   str_of "  3. Check ODBCINI and ODBCINST environment variables";
   str_of "  4. Ensure database server is running and accessible"].

(** What is printed after the connection attempt, and the verdict. *)
Definition report (b : backend) (display_conn_str : str)
    (o : conn_outcome) : list str * bool :=
  match o, b with
  | ConnOK, _ => (["✓ " ++ label b ++ " connection successful"], true)
  | ConnUnexpected, UnixODBC =>
      ([str_of "✗ unixODBC connection failed - unexpected result"], false)
  | ConnUnexpected, IODBC =>
      ([str_of "✗ iODBC connection failed - unexpected result";
        "Connection string used: " ++ display_conn_str], false)
  | ConnError e, UnixODBC =>
      (("✗ unixODBC connection failed: " ++ e) :: troubleshooting_tips, false)
  | ConnError e, IODBC =>
      (str_of "✗ iODBC connection failed"
         :: ("Connection string used: " ++ display_conn_str)
         :: troubleshooting_tips, false)
  | ConnException e, _ =>
      (["✗ " ++ label b ++ " connection failed: " ++ e], false)
  end.

(** The path of [odbcinst.ini] a test works with, looked for once
    [ODBCINI] is set; and the world once the test has set [ODBCINI],
    [ODBCINST] and [ODBCINSTINI].  When the search for the path raises,
    [ODBCINI] is set and the other two are not.  No file is written. *)
Definition odbcinst_path_of (self : ODBCManager) (w : world)
  : result (option str) :=
  find_odbcinst self (files w)
    (setenv_if "ODBCINI" (odbcini self) (environ w)) (home w).

Definition set_environment (self : ODBCManager) (w : world) : world :=
  let env1 := setenv_if "ODBCINI" (odbcini self) (environ w) in
  match odbcinst_path_of self w with
  | Returns odbcinst_path =>
      mk_world (files w)
        (setenv_if "ODBCINSTINI" odbcinst_path
           (setenv_if "ODBCINST" odbcinst_path env1))
        (home w) (pyodbc w)
  | Fails _ => mk_world (files w) env1 (home w) (pyodbc w)
  end.

Section Tester.

(** The connector is outside the program: [connect b w conn_str] is
    what the connection attempted during the test with [b] comes to. *)
Variable connect : backend -> world -> str -> conn_outcome.

(** [test_dsn_unixodbc] and [test_dsn_iodbc], which differ in the name
    of the manager they print, in what they print on failure, and in
    the handlers of their outer [try].

    [import pyodbc] makes [pyodbc] a local variable of the function.
    When the import fails in [test_dsn_unixodbc], the handlers are
    looked at in turn, and the first, [except pyodbc.Error], names the
    variable that was never bound: an [UnboundLocalError] leaves the
    function, the environment untouched.  In [test_dsn_iodbc] the first
    handler is [except ImportError], which prints that the library was
    not found and makes the test fail.

    Any other exception before the connection attempt (a test for a
    file that raises) ends in the last handler, which prints it with
    the connection string shown and makes the test fail. *)
Definition test_dsn_with (b : backend) (self : ODBCManager) (w : world)
    (dsn_name : str) (username password : option str)
  : result bool * world * list event :=
  let conn_str := conn_str_of dsn_name username password in
  let display_conn_str := display_conn_str_of dsn_name username password in
  let started :=
    [Print ("Testing with " ++ label b ++ " (standard ODBC)...")] in
  if negb (pyodbc w) then
    match b with
    | UnixODBC => (Fails (UnboundLocalError (str_of "pyodbc")), w, started)
    | IODBC =>
        (Returns false, w,
         started ++
         [Print (str_of "✗ pyodbc library not found - install with: pip install pyodbc")])
    end
  else
    let out0 :=
      started ++
      [Print ("Debug: " ++ label b ++ " connection string: "
                ++ display_conn_str)] in
    let w' := set_environment self w in
    let failed (e : exn) (out : list event) :=
      (Returns false, w',
       out ++
       prints ["✗ " ++ label b ++ " connection failed: " ++ exn_str e;
               "Connection string used: " ++ display_conn_str]) in
    match odbcinst_path_of self w with
    | Fails e => failed e out0
    | Returns odbcinst_path =>
        let out1 :=
          if truthy odbcinst_path then
            [Print ("Debug: Set ODBCINST to " ++ py_str odbcinst_path)]
          else
            [Print (str_of "Warning: ODBCINST not set - driver lookup may fail")] in
        let (r, out2) :=
          check_driver_path self (files w) odbcinst_path dsn_name
            username password in
        match r with
        | Fails e => failed e (out0 ++ out1 ++ out2)
        | Returns conn_str =>
            let (lines, ok) :=
              report b display_conn_str (connect b w' conn_str) in
            (Returns ok, w',
             out0 ++ out1 ++ out2 ++
             [Print ("Debug: Attempting connection with: pyodbc.connect('"
                       ++ conn_str ++ "')");
              Connect b conn_str] ++ prints lines)
        end
    end.

Definition test_dsn_unixodbc := test_dsn_with UnixODBC.
Definition test_dsn_iodbc := test_dsn_with IODBC.

(** What is typed at the prompts of [test_dsn]: the choice between the
    credentials of the DSN and custom ones, the user name, the
    password. *)
Record answers := mk_answers {
  cred_choice_typed : str;
  username_typed : str;
  password_typed : str
}.

Definition credentials (a : answers) : option str * option str :=
  let cred_choice :=
    match strip (cred_choice_typed a) with
    | [] => str_of "1"
    | c => c
    end in
  if str_eqb cred_choice "2" then
    match strip (username_typed a) with
    | [] => (None, None)
    | username => (Some username, Some (password_typed a))
    end
  else (None, None).

(** [manager == name or (manager is None and available)] *)
Definition selected (b : backend) (manager : option backend)
    (available : bool) : bool :=
  match manager with
  | Some m => match m, b with
              | UnixODBC, UnixODBC | IODBC, IODBC => true
              | _, _ => false
              end
  | None => available
  end.

(** [test_dsn(dsn_name, manager)] up to its verdict: [None] when the
    DSN is not found or empty and nothing is tested, otherwise the value
    of [success]; the world after the tests; what happened, in order.
    [manager] is [None] for both managers.  An exception that leaves a
    test leaves [test_dsn] as well.  The menu that follows the verdict
    is not part of the model. *)
Definition test_dsn (self : ODBCManager) (w : world) (dsn_name : str)
    (manager : option backend) (a : answers)
  : result (option bool) * world * list event :=
  let (r, shown) := show_dsn_details self (files w) dsn_name in
  match r with
  | Fails e => (Fails e, w, prints shown)
  | Returns None | Returns (Some []) =>
      (Returns None, w,
       prints shown ++ [Print (str_of "DSN not found or invalid")])
  | Returns (Some _) =>
      let out0 :=
        prints shown ++
        prints [str_of "Connection credentials:";
                str_of "  1) Use credentials from DSN configuration";
                str_of "  2) Enter custom credentials for this test"] in
      let (username, password) := credentials a in
      let out1 := prints [[nl] ++ "Testing DSN: " ++ dsn_name; rule] in
      let success := false in
      let '(r1, w1, out2) :=
        if selected UnixODBC manager (has_unixodbc self) then
          let '(t, w1, ev) :=
            test_dsn_unixodbc self w dsn_name username password in
          match t with
          | Returns ok => (Returns (ok || success), w1, ev ++ [Print []])
          | Fails e => (Fails e, w1, ev)
          end
        else (Returns success, w, []) in
      match r1 with
      | Fails e => (Fails e, w1, out0 ++ out1 ++ out2)
      | Returns success =>
          let '(r2, w2, out3) :=
            if selected IODBC manager (has_iodbc self) then
              let '(t, w2, ev) :=
                test_dsn_iodbc self w1 dsn_name username password in
              match t with
              | Returns ok => (Returns (ok || success), w2, ev)
              | Fails e => (Fails e, w2, ev)
              end
            else (Returns success, w1, []) in
          match r2 with
          | Fails e => (Fails e, w2, out0 ++ out1 ++ out2 ++ out3)
          | Returns success =>
              (Returns (Some success), w2,
               out0 ++ out1 ++ out2 ++ out3 ++ [Print rule])
          end
      end
  end.

End Tester.

(** The connector calls among the events. *)
Fixpoint connections (evs : list event) : list (backend * str) :=
  match evs with
  | [] => []
  | Print _ :: evs' => connections evs'
  | Connect b conn_str :: evs' => (b, conn_str) :: connections evs'
  end.

Definition connected (o : conn_outcome) : bool :=
  match o with
  | ConnOK => true
  | _ => false
  end.

(* ================================================================= *)
(** ** The menu: [menu_select] *)

From Stdlib Require Import ZArith.

(** The key codes [getch] gives that the menu looks at. *)
Definition KEY_DOWN : Z := 258.
Definition KEY_UP : Z := 259.
Definition KEY_ENTER : Z := 343.

(** One turn of the loop of [_menu] after [getch]: the menu goes on
    with a new [current], or returns. *)
Inductive menu_turn :=
| GoOn (current : Z)
| Return (value : Z).

Definition menu_key (n current key : Z) : menu_turn :=
  if (key =? KEY_UP)%Z then
    if (current >? 0)%Z then GoOn (current - 1) else GoOn (n - 1)
  else if (key =? KEY_DOWN)%Z then
    if (current <? n - 1)%Z then GoOn (current + 1) else GoOn 0
  else if (key =? 10)%Z || (key =? KEY_ENTER)%Z || (key =? 10)%Z then
    Return current
  else if (key =? 113)%Z || (key =? 81)%Z || (key =? 27)%Z then
    Return (-1)
  else GoOn current.

(** The loop [while True], fed with the keys pressed: the value
    returned, or [None] while the menu still waits for a key. *)
Fixpoint menu_loop (n : Z) (keys : list Z) (current : Z) : option Z :=
  match keys with
  | [] => None
  | key :: keys' =>
      match menu_key n current key with
      | Return value => Some value
      | GoOn current' => menu_loop n keys' current'
      end
  end.

(** [menu_select(title, options)]: [n] is [len(options)]. *)
Definition menu_select (options : list str) (keys : list Z) : option Z :=
  menu_loop (Z.of_nat (List.length options)) keys 0.

(* ================================================================= *)
(** ** Choosing the manager and the DSN *)

(** What [select_manager] returns: ['unixodbc'], ['iodbc'], [None] for
    both, or [-1] when the menu was left. *)
Inductive manager_choice :=
| Manager (manager : option backend)
| NoManager.

(** [{0: 'unixodbc', 1: 'iodbc', 2: None}.get(choice, -1)] *)
Definition manager_of_choice (choice : Z) : manager_choice :=
  if (choice =? 0)%Z then Manager (Some UnixODBC)
  else if (choice =? 1)%Z then Manager (Some IODBC)
  else if (choice =? 2)%Z then Manager None
  else NoManager.

(** [select_manager()]; [None] while its menu waits for a key. *)
Definition select_manager (self : ODBCManager) (keys : list Z)
  : option manager_choice :=
  if has_unixodbc self && has_iodbc self then
    match menu_select [str_of "unixODBC"; str_of "iODBC"; str_of "Both"]
            keys with
    | Some choice => Some (manager_of_choice choice)
    | None => None
    end
  else if has_unixodbc self then Some (Manager (Some UnixODBC))
  else Some (Manager (Some IODBC)).

Definition available (self : ODBCManager) (b : backend) : bool :=
  match b with
  | UnixODBC => has_unixodbc self
  | IODBC => has_iodbc self
  end.

(** [l[i]] *)
Definition py_index (l : list str) (i : Z) : option str :=
  let n := Z.of_nat (List.length l) in
  if (0 <=? i)%Z then nth_error l (Z.to_nat i)
  else if (- n <=? i)%Z then nth_error l (Z.to_nat (n + i))
  else None.

(** What choosing a name in [run] comes to: a name, nothing (the menu
    was left, or no name was typed), an [IndexError], or a menu that
    still waits. *)
Inductive pick :=
| Picked (name : str)
| NothingPicked
| PickIndexError
| PickWaiting.

Definition typed_name (typed : str) : pick :=
  match strip typed with
  | [] => NothingPicked
  | name => Picked name
  end.

(** The choice of a DSN or of a driver in [run]: from the menu of the
    names with one more entry for a name typed in, or typed in at once
    when there are no names. *)
Definition pick_name (names : list str) (custom_entry : str)
    (keys : list Z) (typed : str) : pick :=
  match names with
  | [] => typed_name typed
  | _ =>
      match menu_select (names ++ [custom_entry]) keys with
      | None => PickWaiting
      | Some choice =>
          if (choice =? -1)%Z then NothingPicked
          else if (choice <? Z.of_nat (List.length names))%Z then
            match py_index names choice with
            | Some name => Picked name
            | None => PickIndexError
            end
          else typed_name typed
      end
  end.

(* ================================================================= *)
(** ** The main menu: [show_menu] and [run] *)

Definition menu_options : list str :=
  [str_of "Show DSN details";
   str_of "Test a DSN";
   str_of "Test a custom DSN";
   str_of "Add a new DSN";
   str_of "─────────────";
   str_of "List installed drivers";
   str_of "Show driver details";
   str_of "Register a new driver";
   str_of "─────────────";
   str_of "Reconfigure files";
   str_of "Refresh";
   str_of "Exit"].

(** What the loop of [run] does with the choice made in the main menu.
    [Again] is the next turn of the loop with nothing done. *)
Inductive action :=
| Quit
| DoShowDsn
| DoTestDsn
| DoTestCustomDsn
| DoAddDsn
| DoListDrivers
| DoShowDriver
| DoAddDriver
| DoReconfigure
| Again.

Definition run_action (choice : Z) : action :=
  if (choice =? -1)%Z || (choice =? 10)%Z then Quit
  else if (choice =? 0)%Z then DoShowDsn
  else if (choice =? 1)%Z then DoTestDsn
  else if (choice =? 2)%Z then DoTestCustomDsn
  else if (choice =? 3)%Z then DoAddDsn
  else if (choice =? 5)%Z then DoListDrivers
  else if (choice =? 6)%Z then DoShowDriver
  else if (choice =? 7)%Z then DoAddDriver
  else if (choice =? 9)%Z then DoReconfigure
  else if (choice =? 10)%Z then Again
  else Again.

(* ================================================================= *)
(** ** The candidate files of [locate_config_files] *)

(** [[x for x in l if not (x in seen or seen.add(x))]] *)
Fixpoint dedup_seen (seen l : list str) : list str :=
  match l with
  | [] => []
  | x :: l' =>
      if existsb (str_eqb x) seen then dedup_seen seen l'
      else x :: dedup_seen (x :: seen) l'
  end.

(** [a or b] on strings that may be [None]. *)
Definition py_or (a b : option str) : option str :=
  if truthy a then a else b.

Definition env_path (o : option str) : list str :=
  match o with
  | Some (c :: s) => [c :: s]
  | _ => []
  end.

Definition odbcini_paths (env : dict str) (home : str) : list str :=
  dedup_seen []
    (env_path (dict_get "ODBCINI" env) ++
     [home_file home ".odbc.ini";
      home_file home "Library/ODBC/odbc.ini";
      str_of "/etc/odbc.ini";
      str_of "/usr/local/etc/odbc.ini"]).

Definition odbcinst_paths (env : dict str) (home : str) : list str :=
  dedup_seen []
    (env_path (py_or (dict_get "ODBCINST" env) (dict_get "ODBCINSTINI" env))
     ++ [home_file home ".odbcinst.ini";
         home_file home "Library/ODBC/odbcinst.ini";
         str_of "/Library/ODBC/odbcinst.ini";
         str_of "/etc/odbcinst.ini";
         str_of "/usr/local/etc/odbcinst.ini"]).

(** [found_odbcini] and [found_odbcinst]: the candidates that exist, in
    the order of the candidates.  The loop has no [try]: an exception
    of [Path(path).exists()] ends it. *)
Fixpoint found_paths (fs : filesystem) (paths : list str)
  : result (list str) :=
  match paths with
  | [] => Returns []
  | path :: rest =>
      match path_exists fs path with
      | Fails e => Fails e
      | Returns found =>
          match found_paths fs rest with
          | Fails e => Fails e
          | Returns l => Returns (if found then path :: l else l)
          end
      end
  end.

(* ================================================================= *)
(** ** The drivers: [list_drivers] *)

(** ["="*63] *)
Definition double_rule : str := repeat "="%char 63.

(** [driver_config.get('Driver', '<not specified>')] *)
Definition driver_path_of (driver_config : section) : str :=
  match dict_get "Driver" driver_config with
  | Some value => value
  | None => str_of "<not specified>"
  end.

(** The loop over the drivers: the lines it prints, and the exception
    of [Path(driver_path).exists()] that ends it, if one does. *)
Fixpoint driver_lines (fs : filesystem) (driver_dict : store)
  : list str * option exn :=
  match driver_dict with
  | [] => ([], None)
  | (driver_name, driver_config) :: rest =>
      let driver_path := driver_path_of driver_config in
      match path_exists fs driver_path with
      | Fails e => ([], Some e)
      | Returns found =>
          let (lines, raised) := driver_lines fs rest in
          (((if found then str_of "  ✓ " else str_of "  ✗ ")
              ++ driver_name)
             :: ("      " ++ driver_path) :: lines,
           raised)
      end
  end.

(** [list_drivers()]: the names it returns and the lines it prints.
    Neither the test for [odbcinst.ini] nor the one for the library of
    a driver is in a [try]. *)
Definition list_drivers (self : ODBCManager) (fs : filesystem)
  : result (list str) * list str :=
  let out :=
    [[nl] ++ double_rule; str_of "Installed ODBC Drivers";
     "File: " ++ py_str (odbcinst self); double_rule] in
  match opt_path_exists fs (odbcinst self) with
  | Fails e => (Fails e, out)
  | Returns false =>
      (Returns [],
       out ++ [str_of "  (odbcinst.ini not found)"; double_rule; []])
  | Returns true =>
      let (r, warnings) := read_ini_file fs (odbcinst self) in
      match r with
      | Fails e => (Fails e, out ++ warnings)
      | Returns driver_dict =>
          let drivers := keys driver_dict in
          let (lines, raised) := driver_lines fs driver_dict in
          match raised with
          | Some e => (Fails e, out ++ warnings ++ lines)
          | None =>
              (Returns drivers,
               out ++ warnings ++ lines
                 ++ (match drivers with
                     | [] => [str_of "  (No drivers registered)"]
                     | _ => []
                     end)
                 ++ [[nl] ++ double_rule; []])
          end
      end
  end.

(* ================================================================= *)
(** ** The direct test: [simple_dsn_test] and [test_custom_dsn] *)

(** What a direct test leaves behind: the lines printed and the call
    of the connector. *)
Inductive direct_event :=
| Printed (line : str)
| Connected (conn_str : str).

Section DirectTest.

(** [query w conn_str]: what [pyodbc.connect(conn_str)] followed by
    [SELECT 1] comes to in the world [w]. *)
Variable query : world -> str -> conn_outcome.

(** [simple_dsn_test(dsn_name, manager)].  Both [pyodbc] and [os] are
    local variables of the function.  When [import pyodbc] fails, the
    handler [except pyodbc.Error] names a variable that was never bound
    and an [UnboundLocalError] leaves the function.  [import os] stands
    under [if self.odbcini:], so with no [odbc.ini] and an
    [odbcinst.ini] the line [os.environ['ODBCINST'] = ...] raises an
    [UnboundLocalError] as well; that one is caught by
    [except Exception], printed, and the test fails with no connection
    attempted. *)
Definition simple_dsn_test (self : ODBCManager) (w : world) (dsn_name : str)
    (manager : option backend)
  : result bool * world * list direct_event :=
  if negb (pyodbc w) then
    (Fails (UnboundLocalError (str_of "pyodbc")), w, [])
  else if negb (truthy (odbcini self)) && truthy (odbcinst self) then
    (Returns false, w,
     [Printed ("Connection failed: "
                 ++ exn_str (UnboundLocalError (str_of "os")))])
  else
    let env1 := setenv_if "ODBCINI" (odbcini self) (environ w) in
    let env2 :=
      setenv_if "ODBCINSTINI" (odbcinst self)
        (setenv_if "ODBCINST" (odbcinst self) env1) in
    let w' := mk_world (files w) env2 (home w) (pyodbc w) in
    let conn_str := "DSN=" ++ dsn_name in
    let out := [Printed ("Attempting connection to DSN: " ++ dsn_name);
                Connected conn_str] in
    match query w' conn_str with
    | ConnOK | ConnUnexpected =>
        (Returns true, w',
         out ++ [Printed (str_of "Connection successful!")])
    | ConnError e | ConnException e =>
        (Returns false, w', out ++ [Printed ("Connection failed: " ++ e)])
    end.


End DirectTest.


(* ================================================================= *)
(** ** Vocabulary for the further statements *)

(** A line the loop of [read_ini_file] acts on: a header or a key
    line. *)
Definition significant (raw : str) : bool :=
  match classify raw with
  | Header _ | KeyValue _ _ => true
  | Skipped | Other => false
  end.

(** The value the last key line for [key] gives it, if there is one. *)
Definition last_value (key : str) (body : list str) : option str :=
  fold_left
    (fun acc raw =>
       match classify raw with
       | KeyValue k v => if str_eqb k key then Some v else acc
       | _ => acc
       end)
    body None.

(** The same text with every line ended the Windows way. *)
Definition to_crlf (text : str) : str :=
  flat_map (fun c => if char_eqb c nl then [cr; nl] else [c]) text.

(* ================================================================= *)
(** ** Vocabulary and sample data for the statements *)


(** A file in a directory that may not be searched: looking at it
    raises. *)
Definition guarded_fs : filesystem :=
  fun _ =>
    Unstatable
      (OSError (str_of "[Errno 13] Permission denied: '/root/odbc.ini'")).

(** An [odbc.ini] whose DSN holds the path of the driver library, and
    the [odbcinst.ini] that registers the library as [FooDriver]. *)
Definition sales_ini (password : string) : str :=
  text_of ["[Sales]"; "Driver = /usr/lib/foo.so"; "UID = dba";
           String.append "PWD = " password].

Definition foo_inst : str :=
  text_of ["[FooDriver]"; "Driver = /usr/lib/foo.so"].

Definition sales_fs (password : string) : filesystem :=
  fun p =>
    if str_eqb p "odbc.ini" then Text (sales_ini password) None
    else if str_eqb p "odbcinst.ini" then Text foo_inst None
    else Absent.

Definition sales_manager : ODBCManager :=
  mk_manager true true (Some (str_of "odbc.ini")) (Some (str_of "odbcinst.ini")).

Definition sales_world : world :=
  mk_world (sales_fs "secret") [] (str_of "/home/dba") true.

(** The same DSN with the key written [DRIVER]. *)
Definition upper_fs : filesystem :=
  fun p =>
    if str_eqb p "odbc.ini"
    then Text (text_of ["[Sales]"; "DRIVER = /usr/lib/foo.so"]) None
    else if str_eqb p "odbcinst.ini" then Text foo_inst None
    else Absent.

(** A connector that fails for unixODBC and succeeds for iODBC. *)
Definition second_succeeds (b : backend) (w : world) (conn_str : str)
  : conn_outcome :=
  match b with
  | UnixODBC => ConnError (str_of "[IM002] Data source name not found")
  | IODBC => ConnOK
  end.

Definition default_answers : answers := mk_answers [] [] [].

(** The DSNs of the example of the specification. *)
Definition zeta_alpha_beta : store :=
  [(str_of "Zeta", [(str_of "Driver", str_of "B")]);
   (str_of "Alpha", [(str_of "Driver", str_of "A")]);
   (str_of "Beta", [(str_of "Driver", str_of "A")])].

(* ================================================================= *)
(** ** Vocabulary of the proofs *)

(** The decimal digits of a number: at least one, none a space or a
    line break. *)
Definition digit (c : ascii) : Prop :=
  isspace c = false /\ c <> nl /\ c <> cr.

(** The lines of a written section, as a reader of the file gets them. *)
Definition key_line (kv : str * str) : str :=
  fst kv ++ " = " ++ snd kv ++ [nl].

Definition section_lines (entry : str * section) : list str :=
  ("[" ++ fst entry ++ "]" ++ [nl]) :: map key_line (snd entry) ++ [[nl]].

(** Both sides are the same characters, grouped differently. *)
Ltac same_chars :=
  repeat first [rewrite <- app_assoc | rewrite List.app_nil_r
                | progress simpl];
  reflexivity.

(** The text a key line is stripped to: the key, the delimiter and the
    value, with the blanks around the delimiter that are not at an end
    of the line. *)
Definition key_pad (key : str) : str :=
  match key with [] => [] | _ => key ++ " " end.
Definition value_pad (value : str) : str :=
  match value with [] => [] | _ => " " ++ value end.

Definition str_le (a b : str) : Prop := str_leb a b = true.

(** The names of the DSNs whose driver is [d], in the order of the
    file. *)
Definition names_with (d : str) (dsn_dict : store) : list str :=
  map fst (filter (fun e => str_eqb (driver_of (snd e)) d) dsn_dict).


(** Every character there is. *)
Definition all_chars : list ascii := map ascii_of_nat (seq 0 256).

(** A key spells a word when case is ignored: it has the length of the
    word, and each of its characters is the letter of the word at that
    place, small or capital.  The word is given in both cases. *)
Definition letters (small capital : string) : list (ascii * ascii) :=
  combine (str_of small) (str_of capital).

Definition spells (small capital : string) (key : str) : Prop :=
  Forall2 (fun c letter => c = fst letter \/ c = snd letter)
    key (letters small capital).

(** [f] takes the two characters of each letter, and no other
    character, to the one that [target] picks of the two. *)
Definition folds_to (f : ascii -> ascii) (target : ascii * ascii -> ascii)
    (word : list (ascii * ascii)) : bool :=
  forallb
    (fun letter =>
       forallb
         (fun c =>
            Bool.eqb (char_eqb (f c) (target letter))
              (char_eqb c (fst letter) || char_eqb c (snd letter)))
         all_chars)
    word.



(** The keys that hold a password: [PWD] and [PASSWORD] in any
    casing. *)
Definition password_key (key : str) : Prop :=
  spells "pwd" "PWD" key \/ spells "password" "PASSWORD" key.

(** The line that shows the connection string as the connector gets
    it. *)
Definition attempt_line (conn_str : str) : str :=
  "Debug: Attempting connection with: pyodbc.connect('" ++ conn_str ++ "')".

(** No look at a file raises. *)
Definition no_stat_fault (fs : filesystem) : Prop :=
  forall p e, fs p <> Unstatable e.

(** The events of a test are those of a test with [b] that hands
    [conn_str] to the connector, if anything. *)
Definition connects_only (b : backend) (conn_str : str) (evs : list event)
  : Prop :=
  Forall (fun ev =>
            match ev with
            | Connect b' s => b' = b /\ s = conn_str
            | Print _ => True
            end) evs.

(** [Path(p).exists()] gave [True]. *)
Definition is_there (fs : filesystem) (p : str) : bool :=
  match path_exists fs p with
  | Returns found => found
  | Fails _ => false
  end.

(** The places [locate_config_files] looks at for [odbc.ini] and for
    [odbcinst.ini], before the paths named twice are dropped. *)
Definition odbcini_places (env : dict str) (home : str) : list str :=
  env_path (dict_get "ODBCINI" env) ++
  [home_file home ".odbc.ini";
   home_file home "Library/ODBC/odbc.ini";
   str_of "/etc/odbc.ini";
   str_of "/usr/local/etc/odbc.ini"].

Definition odbcinst_places (env : dict str) (home : str) : list str :=
  env_path (py_or (dict_get "ODBCINST" env) (dict_get "ODBCINSTINI" env)) ++
  [home_file home ".odbcinst.ini";
   home_file home "Library/ODBC/odbcinst.ini";
   str_of "/Library/ODBC/odbcinst.ini";
   str_of "/etc/odbcinst.ini";
   str_of "/usr/local/etc/odbcinst.ini"].
(* ================================================================= *)
(** ** Strings and dictionaries: basic facts *)

Lemma str_eqb_eq (a b : str) : str_eqb a b = true <-> a = b.
Proof.
  unfold str_eqb. destruct (list_eq_dec ascii_dec a b); split; congruence.
Qed.

Lemma str_eqb_neq (a b : str) : str_eqb a b = false <-> a <> b.
Proof.
  unfold str_eqb. destruct (list_eq_dec ascii_dec a b); split; congruence.
Qed.

Lemma str_eqb_refl (a : str) : str_eqb a a = true.
Proof. now apply str_eqb_eq. Qed.

Lemma char_eqb_eq (a b : ascii) : char_eqb a b = true <-> a = b.
Proof. apply Ascii.eqb_eq. Qed.

Lemma char_eqb_neq (a b : ascii) : char_eqb a b = false <-> a <> b.
Proof. apply Ascii.eqb_neq. Qed.

Section DictFacts.
Variable V : Type.
Implicit Types (d : dict V) (k : str) (v : V).

Lemma dict_get_in_keys k d :
  (exists v, dict_get k d = Some v) <-> In k (keys d).
Proof.
  induction d as [|[k' v'] d IH]; simpl.
  - split; [intros [v H]; discriminate | tauto].
  - destruct (str_eqb k' k) eqn:E.
    + apply str_eqb_eq in E. split; eauto.
    + apply str_eqb_neq in E. rewrite IH. tauto.
Qed.

Lemma dict_mem_true k d : dict_mem k d = true <-> In k (keys d).
Proof.
  rewrite <- dict_get_in_keys. unfold dict_mem.
  destruct (dict_get k d); split; eauto; try discriminate.
  intros [v H]; discriminate.
Qed.

Lemma dict_mem_false k d : dict_mem k d = false <-> ~ In k (keys d).
Proof.
  rewrite <- dict_mem_true. destruct (dict_mem k d); split; congruence.
Qed.

Lemma dict_get_none k d : dict_get k d = None <-> ~ In k (keys d).
Proof.
  rewrite <- dict_mem_false. unfold dict_mem.
  destruct (dict_get k d); split; congruence.
Qed.

(** Assigning to an absent key appends the entry. *)
Lemma dict_set_fresh k v d :
  ~ In k (keys d) -> dict_set k v d = d ++ [(k, v)].
Proof.
  induction d as [|[k' v'] d IH]; simpl; intros H; [reflexivity|].
  destruct (str_eqb k' k) eqn:E.
  - apply str_eqb_eq in E. tauto.
  - rewrite IH by tauto. reflexivity.
Qed.

(** Assigning to a present key leaves the keys and their order. *)
Lemma dict_set_keys_present k v d :
  In k (keys d) -> keys (dict_set k v d) = keys d.
Proof.
  induction d as [|[k' v'] d IH]; simpl; intros H; [tauto|].
  destruct (str_eqb k' k) eqn:E; simpl.
  - apply str_eqb_eq in E. now subst.
  - apply str_eqb_neq in E. rewrite IH; [reflexivity|]. tauto.
Qed.

Lemma dict_set_keys k v d :
  keys (dict_set k v d) = if dict_mem k d then keys d else keys d ++ [k].
Proof.
  destruct (dict_mem k d) eqn:E.
  - apply dict_set_keys_present, dict_mem_true, E.
  - rewrite dict_set_fresh by (apply dict_mem_false, E).
    unfold keys. now rewrite map_app.
Qed.

Lemma dict_set_in_keys k k' v d :
  In k' (keys (dict_set k v d)) <-> k' = k \/ In k' (keys d).
Proof.
  rewrite dict_set_keys. destruct (dict_mem k d) eqn:E.
  - apply dict_mem_true in E. split; [tauto|]. intros [->|]; tauto.
  - rewrite in_app_iff. simpl. intuition congruence.
Qed.

Lemma dict_set_nodup k v d :
  NoDup (keys d) -> NoDup (keys (dict_set k v d)).
Proof.
  intros H. rewrite dict_set_keys. destruct (dict_mem k d) eqn:E; [exact H|].
  apply dict_mem_false in E.
  apply NoDup_app; [exact H | repeat constructor; simpl; tauto |].
  intros x Hx [<-|[]]. tauto.
Qed.

Lemma dict_get_set_same k v d : dict_get k (dict_set k v d) = Some v.
Proof.
  induction d as [|[k' v'] d IH]; simpl.
  - now rewrite str_eqb_refl.
  - destruct (str_eqb k' k) eqn:E; simpl.
    + now rewrite str_eqb_refl.
    + now rewrite E.
Qed.

Lemma dict_get_set_other k k' v d :
  k' <> k -> dict_get k' (dict_set k v d) = dict_get k' d.
Proof.
  intros Hne. induction d as [|[k0 v0] d IH]; simpl.
  - destruct (str_eqb k k') eqn:E; [|reflexivity].
    apply str_eqb_eq in E. congruence.
  - destruct (str_eqb k0 k) eqn:E; simpl.
    + apply str_eqb_eq in E. subst k0.
      destruct (str_eqb k k') eqn:E'; [|reflexivity].
      apply str_eqb_eq in E'. congruence.
    + now rewrite IH.
Qed.

(** Assigning to the key of the last entry replaces that entry. *)
Lemma dict_set_last k v v' d :
  ~ In k (keys d) -> dict_set k v (d ++ [(k, v')]) = d ++ [(k, v)].
Proof.
  induction d as [|[k0 v0] d IH]; simpl; intros H.
  - now rewrite str_eqb_refl.
  - destruct (str_eqb k0 k) eqn:E.
    + apply str_eqb_eq in E. tauto.
    + rewrite IH by tauto. reflexivity.
Qed.

Lemma dict_get_last k v d :
  ~ In k (keys d) -> dict_get k (d ++ [(k, v)]) = Some v.
Proof.
  induction d as [|[k0 v0] d IH]; simpl; intros H.
  - now rewrite str_eqb_refl.
  - destruct (str_eqb k0 k) eqn:E.
    + apply str_eqb_eq in E. tauto.
    + apply IH. tauto.
Qed.
End DictFacts.

(* ================================================================= *)
(** ** The renaming loop ends, on an unused name *)

Lemma list_ascii_of_string_inj (a b : string) :
  list_ascii_of_string a = list_ascii_of_string b -> a = b.
Proof.
  intros H. rewrite <- (string_of_list_ascii_of_string a),
    <- (string_of_list_ascii_of_string b). now rewrite H.
Qed.

Lemma str_of_nat_inj (j k : nat) : str_of_nat j = str_of_nat k -> j = k.
Proof.
  unfold str_of_nat. intros H. apply list_ascii_of_string_inj in H.
  assert (E : Some (Nat.to_uint j) = Some (Nat.to_uint k)).
  { rewrite <- !NilEmpty.usu. now rewrite H. }
  injection E as E. rewrite <- (DecimalNat.Unsigned.of_to j),
    <- (DecimalNat.Unsigned.of_to k). now rewrite E.
Qed.

Lemma numbered_inj (orig : str) (j k : nat) :
  numbered orig j = numbered orig k -> j = k.
Proof.
  unfold numbered. intros H. apply app_inv_head in H.
  apply app_inv_head in H. now apply str_of_nat_inj.
Qed.

Lemma numbered_neq (orig : str) (k : nat) : numbered orig k <> orig.
Proof.
  unfold numbered. intros H. apply (f_equal (@List.length ascii)) in H.
  rewrite !length_app in H. simpl in H. lia.
Qed.

Lemma rename_loop_some (fuel : nat) :
  forall (d : store) orig name c s,
    rename_loop d orig name c fuel = Some s ->
    (dict_mem name d = false /\ s = name) \/
    (dict_mem name d = true /\
     exists k, c <= k /\ s = numbered orig k /\ dict_mem s d = false /\
       forall j, c <= j < k -> dict_mem (numbered orig j) d = true).
Proof.
  induction fuel as [|fuel IH]; simpl; intros d orig name c s H; [discriminate|].
  destruct (dict_mem name d) eqn:E.
  - right. split; [reflexivity|].
    apply IH in H. destruct H as [[Hm ->] | [Hm (k & Hk & -> & Hs & Hj)]].
    + exists c. repeat split; auto. intros j Hr. lia.
    + exists k. repeat split; auto; [lia|].
      intros j Hr. destruct (Nat.eq_dec j c) as [->|]; [exact Hm|].
      apply Hj. lia.
  - left. injection H as <-. auto.
Qed.

Lemma rename_loop_none (fuel : nat) :
  forall (d : store) orig name c,
    rename_loop d orig name c (S fuel) = None ->
    dict_mem name d = true /\
    forall j, c <= j < c + fuel -> dict_mem (numbered orig j) d = true.
Proof.
  induction fuel as [|fuel IH]; intros d orig name c H; simpl in H.
  - destruct (dict_mem name d); [|discriminate]. split; [reflexivity|]. lia.
  - destruct (dict_mem name d) eqn:E; [|discriminate].
    split; [reflexivity|]. apply IH in H. destruct H as [Hc Hj].
    intros j Hr. destruct (Nat.eq_dec j c) as [->|]; [exact Hc|].
    apply Hj. lia.
Qed.

(** The candidates [orig], [orig__1], ..., [orig__n] are pairwise
    distinct, so a dictionary of [n] entries cannot hold them all. *)
Lemma candidates_nodup (orig : str) (c n : nat) :
  NoDup (orig :: map (numbered orig) (seq c n)).
Proof.
  constructor.
  - rewrite in_map_iff. intros (k & Hk & _). now apply numbered_neq in Hk.
  - apply Injective_map_NoDup; [|apply seq_NoDup].
    intros j k. apply numbered_inj.
Qed.

Lemma rename_loop_terminates (d : store) (orig : str) :
  exists s, rename_loop d orig orig 1 (S (List.length d)) = Some s.
Proof.
  destruct (rename_loop d orig orig 1 (S (List.length d))) as [s|] eqn:E;
    [eauto|exfalso].
  apply rename_loop_none in E. destruct E as [Ho Hj].
  pose proof (@NoDup_incl_length _ (orig :: map (numbered orig)
                (seq 1 (List.length d))) (keys d)
                (candidates_nodup orig 1 (List.length d))) as P.
  simpl in P. unfold keys in P. rewrite !length_map, length_seq in P.
  assert (Q : S (List.length d) <= List.length d); [|lia].
  apply P. intros x [<-|Hx].
  - now apply dict_mem_true.
  - apply in_map_iff in Hx. destruct Hx as (k & <- & Hk).
    apply in_seq in Hk. apply dict_mem_true, Hj. lia.
Qed.

(** What [fresh_name] is: the name itself when it is unused, otherwise
    the first unused one among [orig__1], [orig__2], ... *)
Lemma fresh_name_spec (d : store) (orig : str) :
  (~ In orig (keys d) /\ fresh_name d orig = orig) \/
  (In orig (keys d) /\
   exists k, 1 <= k /\ fresh_name d orig = numbered orig k /\
     ~ In (numbered orig k) (keys d) /\
     forall j, 1 <= j < k -> In (numbered orig j) (keys d)).
Proof.
  unfold fresh_name. destruct (rename_loop_terminates d orig) as [s E].
  rewrite E. apply rename_loop_some in E.
  destruct E as [[Hm ->] | [Hm (k & Hk & -> & Hs & Hj)]].
  - left. split; [now apply dict_mem_false | reflexivity].
  - right. split; [now apply dict_mem_true|].
    exists k. repeat split; auto.
    + now apply dict_mem_false.
    + intros j Hr. now apply dict_mem_true, Hj.
Qed.

Lemma fresh_name_unused (d : store) (orig : str) :
  ~ In (fresh_name d orig) (keys d).
Proof.
  destruct (fresh_name_spec d orig) as [[H ->] | [_ (k & _ & -> & H & _)]];
    exact H.
Qed.

Lemma step_classify (st : pstate) (raw : str) :
  step st raw =
  match classify raw with
  | Skipped | Other => Returns st
  | Header name =>
      if reserved name then Returns (mk_pstate (dsn_dict st) None (printed st))
      else Returns (open_section st name)
  | KeyValue key value =>
      match current_section st with
      | Some cur =>
          match dict_get cur (dsn_dict st) with
          | Some sec =>
              Returns (mk_pstate
                         (dict_set cur (dict_set key value sec) (dsn_dict st))
                         (Some cur) (printed st))
          | None => Fails (KeyError cur)
          end
      | None => Returns st
      end
  end.
Proof.
  unfold step, classify, open_section.
  destruct (is_empty (strip raw) || startswith "#" (strip raw)
            || startswith ";" (strip raw)); [reflexivity|].
  destruct (startswith "[" (strip raw) && endswith "]" (strip raw));
    [reflexivity|].
  destruct (contains "=" (strip raw)); [|reflexivity].
  destruct (split_eq (strip raw)) as [key value].
  destruct (current_section st); reflexivity.
Qed.

Lemma consistent_init : consistent init_pstate.
Proof. split; [constructor | discriminate]. Qed.

Lemma open_section_store (st : pstate) (name : str) :
  dsn_dict (open_section st name) =
  dsn_dict st ++ [(fresh_name (dsn_dict st) name, [])].
Proof.
  unfold open_section. simpl. apply dict_set_fresh, fresh_name_unused.
Qed.

Lemma step_consistent (st : pstate) (raw : str) :
  consistent st -> exists st', step st raw = Returns st' /\ consistent st'.
Proof.
  intros [Hnd Hcur]. rewrite step_classify.
  destruct (classify raw) as [|name|key value|].
  - exists st. now split.
  - destruct (reserved name).
    + eexists. split; [reflexivity|]. split; [exact Hnd | discriminate].
    + eexists. split; [reflexivity|]. split.
      * rewrite open_section_store. unfold keys. rewrite map_app. simpl.
        apply NoDup_app; [exact Hnd | repeat constructor; simpl; tauto |].
        intros x Hx [<-|[]]. now apply fresh_name_unused in Hx.
      * simpl. intros cur [= <-]. apply dict_set_in_keys. now left.
  - destruct (current_section st) as [cur|] eqn:E.
    + destruct (proj2 (dict_get_in_keys cur (dsn_dict st)) (Hcur cur eq_refl))
        as [sec Hsec].
      rewrite Hsec. eexists. split; [reflexivity|]. split; simpl.
      * now apply dict_set_nodup.
      * intros c [= <-]. apply dict_set_in_keys. now left.
    + exists st. split; [reflexivity|]. split; [exact Hnd|].
      intros c Hc. apply Hcur. congruence.
  - exists st. now split.
Qed.

Lemma parse_lines_consistent (ls : list str) :
  forall st, consistent st ->
    snd (parse_lines ls st) = None /\ consistent (fst (parse_lines ls st)).
Proof.
  induction ls as [|l ls IH]; simpl; intros st Hst; [now split|].
  destruct (step_consistent l Hst) as (st' & -> & Hst'). now apply IH.
Qed.

Lemma parse_lines_app (a b : list str) :
  forall st, consistent st ->
    parse_lines (a ++ b) st = parse_lines b (fst (parse_lines a st)).
Proof.
  induction a as [|l a IH]; simpl; intros st Hst; [reflexivity|].
  destruct (step_consistent l Hst) as (st' & -> & Hst'). now apply IH.
Qed.

Lemma parse_lines_cons (l : str) (ls : list str) (st st' : pstate) :
  step st l = Returns st' -> parse_lines (l :: ls) st = parse_lines ls st'.
Proof. intros H. simpl. now rewrite H. Qed.

(** The loop only ever adds section names. *)
Lemma step_keys_grow (st st' : pstate) (raw name : str) :
  step st raw = Returns st' ->
  In name (keys (dsn_dict st)) -> In name (keys (dsn_dict st')).
Proof.
  rewrite step_classify. intros H Hin.
  destruct (classify raw) as [|n|key value|].
  - now injection H as <-.
  - destruct (reserved n); injection H as <-; [exact Hin|].
    apply dict_set_in_keys. now right.
  - destruct (current_section st) as [cur|]; [|now injection H as <-].
    destruct (dict_get cur (dsn_dict st)); [|discriminate].
    injection H as <-. apply dict_set_in_keys. now right.
  - now injection H as <-.
Qed.

Lemma parse_lines_keys_grow (ls : list str) (name : str) :
  forall st, consistent st ->
    In name (keys (dsn_dict st)) ->
    In name (keys (dsn_dict (fst (parse_lines ls st)))).
Proof.
  induction ls as [|l ls IH]; simpl; intros st Hst Hin; [exact Hin|].
  destruct (step_consistent l Hst) as (st' & E & Hst'). rewrite E.
  apply IH; [exact Hst'|]. eapply step_keys_grow; eauto.
Qed.

(** Once a header with a name that is not reserved has been read, the
    store has a section of that name. *)
Lemma header_seen (ls : list str) (hdr name : str) :
  forall st, consistent st ->
    In hdr ls -> classify hdr = Header name -> reserved name = false ->
    In name (keys (dsn_dict (fst (parse_lines ls st)))).
Proof.
  induction ls as [|l ls IH]; simpl; intros st Hst Hin Hc Hr; [tauto|].
  destruct (step_consistent l Hst) as (st' & E & Hst'). rewrite E.
  destruct Hin as [->|Hin]; [|now apply IH].
  apply parse_lines_keys_grow; [exact Hst'|].
  rewrite step_classify, Hc, Hr in E. injection E as <-.
  simpl. apply dict_set_in_keys.
  destruct (fresh_name_spec (dsn_dict st) name) as [[_ ->] | [H _]]; tauto.
Qed.

(* ================================================================= *)
(** ** Duplicate sections, orphan lines, distinct names *)

Lemma fold_add_key_line_cons (l : str) (body : list str) (sec : section) :
  fold_left add_key_line (l :: body) sec =
  fold_left add_key_line body (add_key_line sec l).
Proof. reflexivity. Qed.

(** Key lines read while the last section of the store is current go to
    that section and to no other. *)
Lemma parse_body (body : list str) :
  forall (d : store) (name : str) (sec : section) (out : list str),
    ~ In name (keys d) ->
    (forall l, In l body -> is_header l = false) ->
    parse_lines body (mk_pstate (d ++ [(name, sec)]) (Some name) out) =
    (mk_pstate (d ++ [(name, fold_left add_key_line body sec)])
       (Some name) out, None).
Proof.
  induction body as [|l body IH]; intros d name sec out Hd Hb; [reflexivity|].
  rewrite fold_add_key_line_cons.
  rewrite <- (IH d name (add_key_line sec l) out Hd)
    by (intros; apply Hb; now right).
  apply parse_lines_cons. rewrite step_classify. unfold add_key_line.
  specialize (Hb l (or_introl eq_refl)). unfold is_header in Hb.
  destruct (classify l) as [|n|key value|]; try reflexivity; [discriminate|].
  simpl. rewrite dict_get_last by exact Hd.
  now rewrite dict_set_last.
Qed.

Lemma dict_set_app_r (V : Type) (k : str) (v : V) (d m : dict V) :
  ~ In k (keys d) -> dict_set k v (d ++ m) = d ++ dict_set k v m.
Proof.
  induction d as [|[k0 v0] d IH]; simpl; intros H; [reflexivity|].
  destruct (str_eqb k0 k) eqn:E.
  - apply str_eqb_eq in E. tauto.
  - rewrite IH by tauto. reflexivity.
Qed.

Lemma dict_get_app_r (V : Type) (k : str) (d m : dict V) :
  ~ In k (keys d) -> dict_get k (d ++ m) = dict_get k m.
Proof.
  induction d as [|[k0 v0] d IH]; simpl; intros H; [reflexivity|].
  destruct (str_eqb k0 k) eqn:E.
  - apply str_eqb_eq in E. tauto.
  - apply IH. tauto.
Qed.

Lemma nodup_app_disjoint (l1 l2 : list str) (x : str) :
  NoDup (l1 ++ l2) -> In x l1 -> In x l2 -> False.
Proof.
  induction l1 as [|a l1 IH]; simpl; intros Hnd H1 H2; [exact H1|].
  inversion Hnd as [|? ? Hnot Hnd']; subst. destruct H1 as [->|H1].
  - apply Hnot, in_or_app. now right.
  - now apply IH.
Qed.

(** While the current section is among the sections added after [d],
    the loop leaves [d] as it is. *)
Lemma parse_lines_keeps (ls : list str) :
  forall (d m : store) (cur : option str) (out : list str),
    consistent (mk_pstate (d ++ m) cur out) ->
    (forall c, cur = Some c -> In c (keys m)) ->
    exists m', dsn_dict (fst (parse_lines ls (mk_pstate (d ++ m) cur out)))
               = d ++ m'.
Proof.
  induction ls as [|l ls IH]; intros d m cur out Hc Hcur; simpl;
    [now exists m|].
  destruct (step_consistent l Hc) as (st' & E & Hc'). rewrite E.
  rewrite step_classify in E.
  destruct (classify l) as [|n|key value|].
  - injection E as <-. now apply IH.
  - destruct (reserved n); injection E as <-.
    + apply IH; [exact Hc' | discriminate].
    + pose proof (open_section_store (mk_pstate (d ++ m) cur out) n) as Hs.
      destruct (open_section (mk_pstate (d ++ m) cur out) n)
        as [d' cur' out'] eqn:Eo.
      unfold open_section in Eo. injection Eo as _ Ecur _.
      simpl in Hs. subst d'. rewrite <- app_assoc in *.
      apply IH; [exact Hc'|]. intros c Hcc. rewrite <- Ecur in Hcc.
      injection Hcc as <-. unfold keys. rewrite map_app. apply in_or_app.
      right. now left.
  - simpl in E. destruct cur as [c|]; [|injection E as <-; now apply IH].
    destruct (dict_get c (d ++ m)) as [sec|]; [|discriminate].
    injection E as <-.
    assert (Hnot : ~ In c (keys d)).
    { destruct Hc as [Hnd _]. simpl in Hnd. unfold keys in Hnd.
      rewrite map_app in Hnd. intros Hin.
      apply (@nodup_app_disjoint _ _ c Hnd Hin). now apply Hcur. }
    rewrite dict_set_app_r in * by exact Hnot.
    apply IH; [exact Hc'|]. intros c' [= <-].
    apply dict_set_in_keys. now left.
  - injection E as <-. now apply IH.
Qed.

(** From a header on, the sections read before it stay as they are. *)
Lemma parse_rest_keeps (rest : list str) (st : pstate) :
  consistent st -> starts_with_header rest ->
  exists more,
    dsn_dict (fst (parse_lines rest st)) = dsn_dict st ++ more.
Proof.
  intros Hc Hh. destruct rest as [|l rest]; simpl;
    [exists []; now rewrite List.app_nil_r|].
  destruct (step_consistent l Hc) as (st' & E & Hc'). rewrite E.
  rewrite step_classify in E. simpl in Hh. unfold is_header in Hh.
  destruct (classify l) as [|n|key value|]; try discriminate.
  destruct st as [d cur out]. destruct (reserved n); injection E as <-.
  - simpl. pose proof (@parse_lines_keeps rest d [] None out) as H.
    rewrite List.app_nil_r in H. apply H; [exact Hc' | discriminate].
  - pose proof (open_section_store (mk_pstate d cur out) n) as Hs.
    destruct (open_section (mk_pstate d cur out) n) as [d' cur' out'] eqn:Eo.
    unfold open_section in Eo. injection Eo as _ Ecur _.
    simpl in Hs. subst d'. simpl.
    apply parse_lines_keeps; [exact Hc'|]. intros c Hcc.
    rewrite <- Ecur in Hcc. injection Hcc as <-. now left.
Qed.

(** C1. When a header repeats the name of a section, the sections
    already in the store stay as they are, to the end of the file; the
    new section is stored after them under the first unused name among
    [name__1], [name__2], ..., with every key line of its body; and
    exactly one warning, naming the section and its new name, is
    printed for it.  (The two reserved headers open no section.) *)
Theorem duplicate_section_renamed :
  forall (pre body rest : list str) (first hdr name : str),
    In first pre -> classify first = Header name ->
    classify hdr = Header name -> reserved name = false ->
    (forall l, In l body -> is_header l = false) ->
    starts_with_header rest ->
    exists k more,
      1 <= k /\
      ~ In (numbered name k) (keys (dsn_dict (after_lines pre))) /\
      (forall j, 1 <= j < k ->
         In (numbered name j) (keys (dsn_dict (after_lines pre)))) /\
      dsn_dict (after_lines (pre ++ hdr :: body ++ rest)) =
        dsn_dict (after_lines pre)
          ++ (numbered name k, section_of body) :: more /\
      printed (after_lines (pre ++ hdr :: body)) =
        printed (after_lines pre) ++ [dup_warning name (numbered name k)].
Proof.
  intros pre body rest first hdr name Hin Hfirst Hhdr Hres Hbody Hrest.
  unfold after_lines.
  pose proof (@header_seen pre first name _ consistent_init Hin Hfirst Hres)
    as Hseen.
  assert (Hsplit : pre ++ hdr :: body ++ rest = (pre ++ hdr :: body) ++ rest)
    by (now rewrite <- app_assoc).
  rewrite Hsplit, (parse_lines_app (pre ++ hdr :: body) rest consistent_init).
  destruct (@parse_rest_keeps rest
              (fst (parse_lines (pre ++ hdr :: body) init_pstate)))
    as [more Hmore]; [apply parse_lines_consistent, consistent_init
                     | exact Hrest |].
  rewrite Hmore.
  rewrite (parse_lines_app pre (hdr :: body) consistent_init).
  set (st := fst (parse_lines pre init_pstate)) in *.
  destruct (fresh_name_spec (dsn_dict st) name)
    as [[Hno _] | [_ (k & Hk & Hfresh & Hunused & Hused)]]; [tauto|].
  exists k, more.
  rewrite (@parse_lines_cons hdr body st (open_section st name))
    by (now rewrite step_classify, Hhdr, Hres).
  pose proof (open_section_store st name) as Hs.
  unfold open_section in *. simpl in Hs. rewrite Hs, Hfresh.
  rewrite parse_body by auto. simpl.
  repeat split; auto.
  - now rewrite <- app_assoc.
  - destruct (str_eqb (numbered name k) name) eqn:E; [|reflexivity].
    apply str_eqb_eq in E. now apply numbered_neq in E.
Qed.

(** The header [[A]] twice, each time with a key line, then [[B]]. *)
Lemma duplicate_section_renamed_witness :
  exists k more,
    1 <= k /\
    ~ In (numbered (str_of "A") k)
        (keys (dsn_dict (after_lines [str_of "[A]"; str_of "k = 1"]))) /\
    (forall j, 1 <= j < k ->
       In (numbered (str_of "A") j)
         (keys (dsn_dict (after_lines [str_of "[A]"; str_of "k = 1"])))) /\
    dsn_dict (after_lines ([str_of "[A]"; str_of "k = 1"]
                             ++ str_of "[A]" :: [str_of "k = 2"]
                             ++ [str_of "[B]"])) =
      dsn_dict (after_lines [str_of "[A]"; str_of "k = 1"])
        ++ (numbered (str_of "A") k, section_of [str_of "k = 2"]) :: more /\
    printed (after_lines ([str_of "[A]"; str_of "k = 1"]
                            ++ str_of "[A]" :: [str_of "k = 2"])) =
      printed (after_lines [str_of "[A]"; str_of "k = 1"])
        ++ [dup_warning (str_of "A") (numbered (str_of "A") k)].
Proof.
  apply (@duplicate_section_renamed
           [str_of "[A]"; str_of "k = 1"] [str_of "k = 2"] [str_of "[B]"]
           (str_of "[A]") (str_of "[A]") (str_of "A")).
  - simpl. now left.
  - reflexivity.
  - reflexivity.
  - reflexivity.
  - intros l [<-|[]]. reflexivity.
  - reflexivity.
Defined.

(** The example of the specification: [[A]] twice gives [A] and [A__1],
    in that order, and one warning. *)
Example parse_A_twice :
  Parse (text_of ["[A]"; "k = 1"; "[A]"; "k = 2"]) =
  ([(str_of "A", [(str_of "k", str_of "1")]);
    (str_of "A__1", [(str_of "k", str_of "2")])],
   [str_of "Warning: Duplicate section 'A' renamed to 'A__1'"]).
Proof. reflexivity. Qed.

(** C1, as stated, fails on the two reserved names: a repeated
    [[ODBC]] header is not renamed, the key lines under it are dropped
    and nothing is printed. *)
Lemma reserved_header_twice_not_renamed :
  classify (str_of "[ODBC]") = Header (str_of "ODBC") /\
  Parse (text_of ["[ODBC]"; "k = 1"; "[ODBC]"; "k = 2"]) = ([], []).
Proof. split; reflexivity. Qed.

(** C5. A key line read while no section is open changes nothing: the
    loop goes on with the same store, the same (absent) current section
    and the same printed lines -- no warning is printed for it -- and
    the file gives what it gives without that line. *)
Theorem orphan_key_line_discarded :
  forall (pre post : list str) (line key value : str),
    classify line = KeyValue key value ->
    current_section (after_lines pre) = None ->
    step (after_lines pre) line = Returns (after_lines pre) /\
    parse_lines (pre ++ line :: post) init_pstate =
      parse_lines (pre ++ post) init_pstate /\
    snd (parse_lines (pre ++ line :: post) init_pstate) = None.
Proof.
  intros pre post line key value Hc Hcur. unfold after_lines in *.
  assert (Hstep : step (fst (parse_lines pre init_pstate)) line =
                  Returns (fst (parse_lines pre init_pstate))).
  { now rewrite step_classify, Hc, Hcur. }
  split; [exact Hstep|]. split.
  - rewrite !(parse_lines_app pre _ consistent_init).
    now apply parse_lines_cons.
  - apply parse_lines_consistent, consistent_init.
Qed.

Lemma orphan_key_line_discarded_witness :
  step (after_lines [str_of "# odbc.ini"]) (str_of "Driver = x") =
    Returns (after_lines [str_of "# odbc.ini"]) /\
  parse_lines ([str_of "# odbc.ini"] ++ str_of "Driver = x" :: [str_of "[A]"])
      init_pstate =
    parse_lines ([str_of "# odbc.ini"] ++ [str_of "[A]"]) init_pstate /\
  snd (parse_lines ([str_of "# odbc.ini"] ++ str_of "Driver = x"
                      :: [str_of "[A]"]) init_pstate) = None.
Proof.
  apply (@orphan_key_line_discarded [str_of "# odbc.ini"] [str_of "[A]"]
           (str_of "Driver = x") (str_of "Driver") (str_of "x"));
    reflexivity.
Defined.

(** C5, as stated, fails: an orphan key line gets no warning. *)
Lemma orphan_key_line_no_warning :
  classify (str_of "Driver = x") = KeyValue (str_of "Driver") (str_of "x") /\
  current_section init_pstate = None /\
  Parse (text_of ["Driver = x"]) = ([], []).
Proof. repeat split; reflexivity. Qed.

(** [read_ini_file] on a text file that reads without fault is [Parse]
    on its content. *)
Lemma read_ini_file_text (fs : filesystem) (p content : str) :
  p <> [] -> fs p = Text content None ->
  read_ini_file fs (Some p) =
    (Returns (fst (Parse content)), snd (Parse content)).
Proof.
  intros Hp Hf. unfold read_ini_file, path_exists, open_file, Parse.
  rewrite Hf. destruct p; [congruence|]. simpl.
  pose proof (parse_lines_consistent (readlines content) consistent_init)
    as [Hnone _].
  destruct (parse_lines (readlines content) init_pstate) as [st raised].
  simpl in *. now subst raised.
Qed.

(** The only exception that leaves [read_ini_file] is the one of the
    test for the file; otherwise it returns a store with distinct
    section names. *)
Lemma read_ini_file_cases (fs : filesystem) (filepath : option str) :
  (exists p e, filepath = Some p /\ p <> [] /\ fs p = Unstatable e /\
     read_ini_file fs filepath = (Fails e, [])) \/
  (exists s out,
     read_ini_file fs filepath = (Returns s, out) /\ NoDup (keys s) /\
     forall p e, filepath = Some p -> p <> [] -> fs p <> Unstatable e).
Proof.
  unfold read_ini_file, path_exists, open_file.
  destruct filepath as [p|];
    [|right; exists [], []; repeat split; [constructor | discriminate]].
  destruct p as [|c p]; simpl;
    [right; exists [], []; repeat split; [constructor | congruence]|].
  destruct (fs (c :: p)) as [|e|e|content fault] eqn:F.
  - right. exists [], []. repeat split; [constructor|].
    intros p' e' [= <-] _. congruence.
  - left. exists (c :: p), e. repeat split; [discriminate | exact F].
  - right. eexists [], _. repeat split; [constructor|].
    intros p' e' [= <-] _. congruence.
  - right.
    pose proof (parse_lines_consistent (readlines content) consistent_init)
      as [Hnone [Hnd _]].
    destruct (parse_lines (readlines content) init_pstate) as [st raised].
    simpl in *. subst raised.
    destruct fault; eexists _, _;
      (repeat split; [exact Hnd | intros p' e' [= <-] _; congruence]).
Qed.

Lemma read_ini_file_nodup (fs : filesystem) (filepath : option str)
    (s : store) (out : list str) :
  read_ini_file fs filepath = (Returns s, out) -> NoDup (keys s).
Proof.
  intros H.
  destruct (read_ini_file_cases fs filepath)
    as [(p & e & _ & _ & _ & E) | (s' & out' & E & Hnd & _)];
    rewrite E in H; [discriminate|].
  now injection H as <- _.
Qed.

(** Where no look at a file raises, [read_ini_file] returns. *)
Lemma read_ini_file_returns (fs : filesystem) (filepath : option str) :
  (forall p e, fs p <> Unstatable e) ->
  exists s out,
    read_ini_file fs filepath = (Returns s, out) /\ NoDup (keys s).
Proof.
  intros Hfs.
  destruct (read_ini_file_cases fs filepath)
    as [(p & e & _ & _ & F & _) | (s & out & E & Hnd & _)].
  - now apply Hfs in F.
  - eauto.
Qed.



(** A file in a directory that may not be searched: the test for the
    file raises, and so does [read_ini_file]. *)
Example unsearchable_directory_fails :
  read_ini_file guarded_fs (Some (str_of "/root/odbc.ini")) =
    (Fails (OSError (str_of "[Errno 13] Permission denied: '/root/odbc.ini'")),
     []).
Proof. reflexivity. Qed.

Lemma dict_set_length_present (V : Type) (k : str) (v : V) (d : dict V) :
  In k (keys d) -> List.length (dict_set k v d) = List.length d.
Proof.
  induction d as [|[k0 v0] d IH]; simpl; intros H; [tauto|].
  destruct (str_eqb k0 k) eqn:E; simpl; [reflexivity|].
  apply str_eqb_neq in E. rewrite IH; [reflexivity|]. tauto.
Qed.

(** Every header that opens a section adds one to the store, and no
    other line adds or removes any. *)
Lemma parse_lines_length (ls : list str) :
  forall st, consistent st ->
    List.length (dsn_dict (fst (parse_lines ls st))) =
    List.length (dsn_dict st) + List.length (opening_headers ls).
Proof.
  induction ls as [|l ls IH]; intros st Hst; simpl; [lia|].
  destruct (step_consistent l Hst) as (st' & E & Hst'). rewrite E.
  rewrite (IH st' Hst'). rewrite step_classify in E.
  unfold opens_section.
  destruct (classify l) as [|n|key value|].
  - injection E as <-. lia.
  - destruct (reserved n); injection E as <-; [simpl; lia|].
    rewrite open_section_store, length_app. simpl. lia.
  - destruct (current_section st) as [cur|] eqn:Ec;
      [|injection E as <-; lia].
    destruct (dict_get cur (dsn_dict st)) as [sec|]; [|discriminate].
    injection E as <-. simpl.
    rewrite dict_set_length_present; [reflexivity|].
    destruct Hst as [_ Hcur]. now apply Hcur.
  - injection E as <-. reflexivity.
Qed.

(** The loop only ever appends section names: the names stored stay,
    in their order. *)
Lemma parse_lines_keys_prefix (ls : list str) :
  forall st, consistent st ->
    exists more,
      keys (dsn_dict (fst (parse_lines ls st))) = keys (dsn_dict st) ++ more.
Proof.
  induction ls as [|l ls IH]; intros st Hst; simpl;
    [exists []; now rewrite List.app_nil_r|].
  destruct (step_consistent l Hst) as (st' & E & Hst'). rewrite E.
  destruct (IH st' Hst') as [more Hmore]. rewrite Hmore.
  rewrite step_classify in E.
  destruct (classify l) as [|n|key value|].
  - injection E as <-. eauto.
  - destruct (reserved n); injection E as <-; [simpl; eauto|].
    rewrite open_section_store. unfold keys. rewrite map_app, <- app_assoc.
    eauto.
  - destruct (current_section st) as [cur|] eqn:Ec;
      [|injection E as <-; eauto].
    destruct (dict_get cur (dsn_dict st)) as [sec|]; [|discriminate].
    injection E as <-. simpl.
    rewrite dict_set_keys_present; [eauto|].
    destruct Hst as [_ Hcur]. now apply Hcur.
  - injection E as <-. eauto.
Qed.

(** C9. The store [Parse] returns has pairwise distinct section names,
    and as many sections as the text has headers that open one: no
    header ever takes the place of a section that is there.  Wherever
    such a header stands, it adds a name that was not in the store --
    its own name, or the first unused one among [name__1], [name__2],
    ... -- after the names stored so far, and these stay as they are to
    the end of the text.  The store [read_ini_file] returns has
    distinct names whatever the file.  The renaming loop ends within
    one test more than the store has sections, on a name that is not in
    the store. *)
Theorem section_names_distinct :
  (forall rawText,
     NoDup (keys (fst (Parse rawText))) /\
     List.length (fst (Parse rawText)) =
       List.length (opening_headers (readlines rawText))) /\
  (forall (pre post : list str) (hdr name : str),
     classify hdr = Header name -> reserved name = false ->
     exists new more,
       ~ In new (keys (dsn_dict (after_lines pre))) /\
       ((~ In name (keys (dsn_dict (after_lines pre))) /\ new = name) \/
        (In name (keys (dsn_dict (after_lines pre))) /\
         exists k, 1 <= k /\ new = numbered name k /\
           forall j, 1 <= j < k ->
             In (numbered name j) (keys (dsn_dict (after_lines pre))))) /\
       dsn_dict (after_lines (pre ++ [hdr])) =
         dsn_dict (after_lines pre) ++ [(new, [])] /\
       keys (dsn_dict (after_lines (pre ++ hdr :: post))) =
         keys (dsn_dict (after_lines pre)) ++ new :: more) /\
  (forall (fs : filesystem) (filepath : option str) (s : store)
          (out : list str),
     read_ini_file fs filepath = (Returns s, out) -> NoDup (keys s)) /\
  (forall (d : store) (name : str),
     exists s, rename_loop d name name 1 (S (List.length d)) = Some s /\
               ~ In s (keys d)).
Proof.
  split; [|split; [|split]].
  - intros rawText. unfold Parse. simpl. split.
    + now pose proof (parse_lines_consistent (readlines rawText)
                        consistent_init) as [_ [Hnd _]].
    + now rewrite (parse_lines_length (readlines rawText) consistent_init).
  - intros pre post hdr name Hc Hr. unfold after_lines.
    set (st := fst (parse_lines pre init_pstate)).
    assert (Hst : consistent st)
      by (apply parse_lines_consistent, consistent_init).
    assert (Hone : fst (parse_lines (pre ++ [hdr]) init_pstate) =
                   open_section st name).
    { rewrite (parse_lines_app pre [hdr] consistent_init). fold st.
      simpl. now rewrite step_classify, Hc, Hr. }
    assert (Hall : pre ++ hdr :: post = (pre ++ [hdr]) ++ post)
      by (now rewrite <- app_assoc).
    destruct (@parse_lines_keys_prefix post (open_section st name))
      as [more Hmore].
    { rewrite <- Hone. apply parse_lines_consistent, consistent_init. }
    exists (fresh_name (dsn_dict st) name), more.
    split; [apply fresh_name_unused|]. split; [|split].
    + destruct (fresh_name_spec (dsn_dict st) name)
        as [[Hno ->] | [Hin (k & Hk & -> & _ & Hj)]]; [now left | right].
      split; [exact Hin|]. now exists k.
    + now rewrite Hone, open_section_store.
    + rewrite Hall, (parse_lines_app (pre ++ [hdr]) post consistent_init).
      rewrite Hone, Hmore, open_section_store. unfold keys.
      now rewrite map_app, <- app_assoc.
  - exact read_ini_file_nodup.
  - intros d name. destruct (rename_loop_terminates d name) as [s E].
    exists s. split; [exact E|].
    pose proof (fresh_name_unused d name) as H. unfold fresh_name in H.
    now rewrite E in H.
Qed.

(** A file with [[A]], [[A__1]] and [[A]] again: the second [[A]]
    becomes [A__2]. *)
Example parse_A_A1_A :
  keys (fst (Parse (text_of ["[A]"; "[A__1]"; "[A]"]))) =
  [str_of "A"; str_of "A__1"; str_of "A__2"].
Proof. reflexivity. Qed.

(* ================================================================= *)
(** ** [strip], [split] and [readlines] *)

Lemma lstrip_tight (s : str) : starts_tight s -> lstrip s = s.
Proof. destruct s as [|c s]; simpl; [reflexivity|]. now intros ->. Qed.

Lemma lstrip_starts_tight (s : str) : starts_tight (lstrip s).
Proof.
  induction s as [|c s IH]; simpl; [exact I|].
  destruct (isspace c) eqn:E; [exact IH | exact E].
Qed.

Lemma lstrip_spaces (w x : str) :
  Forall (fun c => isspace c = true) w -> lstrip (w ++ x) = lstrip x.
Proof.
  induction 1 as [|c w Hc _ IH]; simpl; [reflexivity|]. now rewrite Hc.
Qed.

Lemma lstrip_decomp (s : str) :
  exists w, Forall (fun c => isspace c = true) w /\ s = w ++ lstrip s.
Proof.
  induction s as [|c s (w & Hw & E)]; simpl; [now exists []|].
  destruct (isspace c) eqn:Ec.
  - exists (c :: w). split; [now constructor | simpl; now f_equal].
  - now exists [].
Qed.

Lemma starts_tight_app (m x : str) :
  m <> [] -> starts_tight m -> starts_tight (m ++ x).
Proof. destruct m; [congruence | auto]. Qed.

Lemma starts_tight_prefix (m x : str) :
  starts_tight (m ++ x) -> starts_tight m.
Proof. destruct m; simpl; auto. Qed.

(** Stripping whitespace around a string whose ends are not whitespace
    gives that string back. *)
Lemma strip_tight (w1 m w2 : str) :
  Forall (fun c => isspace c = true) w1 ->
  Forall (fun c => isspace c = true) w2 ->
  tight m -> strip (w1 ++ m ++ w2) = m.
Proof.
  intros H1 H2 [Hs He]. unfold strip, rstrip. rewrite lstrip_spaces by exact H1.
  destruct m as [|c m].
  - simpl. rewrite <- (List.app_nil_r w2), lstrip_spaces by exact H2. simpl.
    reflexivity.
  - rewrite (@lstrip_tight ((c :: m) ++ w2))
      by (apply starts_tight_app; [discriminate | exact Hs]).
    rewrite rev_app_distr, lstrip_spaces by (now apply Forall_rev).
    rewrite lstrip_tight by exact He. apply rev_involutive.
Qed.

Lemma strip_tight_self (m : str) : tight m -> strip m = m.
Proof.
  intros H. rewrite <- (List.app_nil_r m) at 1. now apply (@strip_tight [] m []).
Qed.

(** What [strip] removes is whitespace at the two ends. *)
Lemma strip_decomp (s : str) :
  exists w1 w2,
    Forall (fun c => isspace c = true) w1 /\
    Forall (fun c => isspace c = true) w2 /\
    s = w1 ++ strip s ++ w2.
Proof.
  destruct (lstrip_decomp s) as (w1 & H1 & E1).
  destruct (lstrip_decomp (rev (lstrip s))) as (w2 & H2 & E2).
  exists w1, (rev w2). split; [exact H1|]. split; [now apply Forall_rev|].
  unfold strip, rstrip. rewrite <- rev_app_distr, <- E2, rev_involutive.
  exact E1.
Qed.

Lemma strip_is_tight (s : str) : tight (strip s).
Proof.
  unfold tight, strip, rstrip. rewrite rev_involutive.
  split; [|apply lstrip_starts_tight].
  destruct (lstrip_decomp (rev (lstrip s))) as (w & Hw & E).
  apply (f_equal (@rev ascii)) in E.
  rewrite rev_involutive, rev_app_distr in E.
  pose proof (lstrip_starts_tight s) as Ht. rewrite E in Ht.
  now apply starts_tight_prefix in Ht.
Qed.

Lemma strip_forall (P : ascii -> Prop) (s : str) :
  Forall P s -> Forall P (strip s).
Proof.
  intros H. destruct (strip_decomp s) as (w1 & w2 & _ & _ & E).
  rewrite E in H. apply Forall_app in H. destruct H as [_ H].
  apply Forall_app in H. tauto.
Qed.

Lemma isspace_nl : isspace nl = true.
Proof. reflexivity. Qed.

(** The first character of [strip k], when [k] begins a string that
    does not start with whitespace, is the first character of that
    string. *)
Lemma startswith_strip_prefix (c : ascii) (k x : str) :
  starts_tight (k ++ x) ->
  startswith c (strip k) = true -> startswith c (k ++ x) = true.
Proof.
  intros Ht Hs. destruct (strip_decomp k) as (w1 & w2 & H1 & _ & E).
  destruct (strip k) as [|c0 m] eqn:Ek; [discriminate|].
  destruct w1 as [|w w1].
  - rewrite E. exact Hs.
  - rewrite E in Ht. simpl in Ht. inversion H1; congruence.
Qed.

Lemma endswith_strip_suffix (c : ascii) (v x : str) :
  starts_tight (rev (x ++ v)) ->
  endswith c (strip v) = true -> endswith c (x ++ v) = true.
Proof.
  intros Ht Hs. unfold endswith in *.
  destruct (strip_decomp v) as (w1 & w2 & _ & H2 & E).
  remember (strip v) as sv eqn:Esv. clear Esv. subst v.
  rewrite !rev_app_distr in *. rewrite <- !app_assoc in *.
  destruct (rev sv) as [|c0 m]; [discriminate|].
  apply Forall_rev in H2. destruct (rev w2) as [|w w2'].
  - exact Hs.
  - simpl in Ht. inversion H2; congruence.
Qed.

Lemma char_eqb_sym (a b : ascii) : char_eqb a b = char_eqb b a.
Proof. apply Ascii.eqb_sym. Qed.

Lemma split_eq_app (k v : str) :
  contains "=" k = false -> split_eq (k ++ "="%char :: v) = (k, v).
Proof.
  induction k as [|c k IH]; simpl; [reflexivity|].
  intros H. apply orb_false_iff in H. destruct H as [Hc Hk].
  rewrite char_eqb_sym in Hc. rewrite Hc. now rewrite IH.
Qed.

Lemma split_eq_spec (s : str) :
  contains "=" s = true ->
  s = fst (split_eq s) ++ "="%char :: snd (split_eq s) /\
  contains "=" (fst (split_eq s)) = false.
Proof.
  induction s as [|c s IH]; simpl; [discriminate|].
  rewrite (char_eqb_sym "=" c). destruct (char_eqb c "=") eqn:E.
  - apply char_eqb_eq in E. subst c. now split.
  - simpl. intros H. destruct (IH H) as [Hs Hk].
    destruct (split_eq s) as [k v]. simpl in *. split; [now f_equal|].
    now rewrite char_eqb_sym, E.
Qed.

Lemma contains_false_forall (c : ascii) (s : str) :
  contains c s = false <-> Forall (fun x => x <> c) s.
Proof.
  induction s as [|x s IH]; simpl; [split; auto|].
  rewrite orb_false_iff, IH, char_eqb_sym, char_eqb_neq. split.
  - intros [H1 H2]. now constructor.
  - intros H. inversion H; subst. now split.
Qed.

(* ================================================================= *)
(** ** The stores [read_ini_file] builds are well formed *)

Lemma strip_app_spaces (s w : str) :
  Forall (fun c => isspace c = true) w -> strip (s ++ w) = strip s.
Proof.
  intros Hw. destruct (strip_decomp s) as (w1 & w2 & H1 & H2 & E).
  rewrite E at 1. rewrite <- !app_assoc.
  apply strip_tight; [exact H1 | | apply strip_is_tight].
  apply Forall_app. now split.
Qed.

(** Every line that iterating over a file gives is free of line breaks
    once stripped. *)
Lemma readlines_shape (n : nat) :
  forall s, List.length s <= n ->
    Forall (fun l => exists body,
              one_line body /\ (l = body \/ l = body ++ [nl]))
      (readlines s).
Proof.
  induction n as [|n IH]; intros s Hn.
  - destruct s; [constructor | simpl in Hn; lia].
  - destruct s as [|c s]; [constructor|]. simpl in Hn. simpl.
    assert (Hnl : exists body : str,
               one_line body /\ ([nl] = body \/ [nl] = body ++ [nl])).
    { exists []. split; [constructor | now right]. }
    destruct (char_eqb c nl) eqn:E1.
    { constructor; [exact Hnl | apply IH; lia]. }
    destruct (char_eqb c cr) eqn:E2.
    { destruct s as [|c2 s]; [repeat constructor; exact Hnl|].
      simpl in Hn. destruct (char_eqb c2 nl);
        (constructor; [exact Hnl | apply IH; simpl; lia]). }
    apply char_eqb_neq in E1, E2.
    assert (H : Forall (fun l => exists body,
                  one_line body /\ (l = body \/ l = body ++ [nl]))
                  (readlines s)) by (apply IH; lia).
    destruct (readlines s) as [|l ls].
    + repeat constructor. exists [c]. split; [|now left].
      repeat constructor; assumption.
    + inversion H as [|? ? (body & Hb & Hl) Hls]; subst.
      constructor; [|exact Hls]. exists (c :: body).
      split; [constructor; [split|]; assumption|].
      destruct Hl as [->| ->]; [now left | now right].
Qed.

Lemma readlines_one_line (s : str) :
  Forall (fun l => one_line (strip l)) (readlines s).
Proof.
  eapply Forall_impl; [|apply (@readlines_shape (List.length s) s); lia].
  intros l (body & Hb & [->| ->]).
  - now apply strip_forall.
  - rewrite strip_app_spaces by (repeat constructor).
    now apply strip_forall.
Qed.

Lemma forall_tl (P : ascii -> Prop) (s : str) : Forall P s -> Forall P (tl s).
Proof. destruct 1; simpl; auto. Qed.

Lemma forall_removelast (P : ascii -> Prop) (s : str) :
  Forall P s -> Forall P (removelast s).
Proof.
  induction 1 as [|c s Hc Hs IH]; simpl; [constructor|].
  destruct s; [constructor | now constructor].
Qed.

Lemma classify_header_ok (raw name : str) :
  one_line (strip raw) -> classify raw = Header name ->
  tight name /\ one_line name.
Proof.
  unfold classify. intros Hl H.
  destruct (is_empty (strip raw) || startswith "#" (strip raw)
            || startswith ";" (strip raw)); [discriminate|].
  destruct (startswith "[" (strip raw) && endswith "]" (strip raw)).
  - injection H as <-. split; [apply strip_is_tight|].
    now apply strip_forall, forall_removelast, forall_tl.
  - destruct (contains "=" (strip raw)); [|discriminate].
    destruct (split_eq (strip raw)). discriminate.
Qed.

Lemma classify_key_ok (raw key value : str) :
  one_line (strip raw) -> classify raw = KeyValue key value ->
  key_line_ok (key, value).
Proof.
  unfold classify. intros Hl H.
  pose proof (strip_is_tight raw) as [Hts Hte].
  set (line := strip raw) in *.
  destruct (is_empty line || startswith "#" line || startswith ";" line)
    eqn:G1; [discriminate|].
  destruct (startswith "[" line && endswith "]" line) eqn:G2; [discriminate|].
  destruct (contains "=" line) eqn:G3; [|discriminate].
  destruct (split_eq_spec line G3) as [Hline Hk0].
  destruct (split_eq line) as [k0 v0]. simpl in Hline, Hk0.
  injection H as <- <-.
  apply orb_false_iff in G1. destruct G1 as [G1 Gsemi].
  apply orb_false_iff in G1. destruct G1 as [_ Ghash].
  assert (Hl' := Hl). rewrite Hline in Hl'.
  apply Forall_app in Hl'. destruct Hl' as [Hlk Hlv].
  apply Forall_cons_iff in Hlv. destruct Hlv as [_ Hlv].
  assert (Hstart : forall c, startswith c (strip k0) = true ->
                             startswith c line = true).
  { intros c Hc. rewrite Hline. apply startswith_strip_prefix; [|exact Hc].
    now rewrite <- Hline. }
  assert (Hend : forall c, endswith c (strip v0) = true ->
                           endswith c line = true).
  { intros c Hc. rewrite Hline.
    change (k0 ++ "="%char :: v0) with (k0 ++ ["="%char] ++ v0).
    rewrite app_assoc. apply endswith_strip_suffix; [|exact Hc].
    rewrite <- app_assoc. simpl. now rewrite <- Hline. }
  unfold key_line_ok. repeat split; try apply strip_is_tight;
    try (now apply strip_forall).
  - apply contains_false_forall, strip_forall.
    now apply contains_false_forall.
  - destruct (startswith "#" (strip k0)) eqn:E; [|reflexivity].
    apply Hstart in E. congruence.
  - destruct (startswith ";" (strip k0)) eqn:E; [|reflexivity].
    apply Hstart in E. congruence.
  - destruct (startswith "[" (strip k0)) eqn:E1; [|reflexivity].
    destruct (endswith "]" (strip v0)) eqn:E2; [|reflexivity].
    apply Hstart in E1. apply Hend in E2. rewrite E1, E2 in G2.
    discriminate.
Qed.

Lemma string_of_uint_digits (d : Decimal.uint) :
  Forall digit (list_ascii_of_string (NilEmpty.string_of_uint d)).
Proof.
  induction d; simpl; constructor; try assumption;
    (split; [reflexivity | split; discriminate]).
Qed.

Lemma str_of_nat_digits (k : nat) : Forall digit (str_of_nat k).
Proof. apply string_of_uint_digits. Qed.

Lemma str_of_nat_nonempty (k : nat) : str_of_nat k <> [].
Proof.
  unfold str_of_nat. intros H.
  assert (E : Nat.to_uint k = Decimal.Nil).
  { destruct (Nat.to_uint k); simpl in H; try discriminate. reflexivity. }
  pose proof (DecimalNat.Unsigned.of_to k) as Hk. rewrite E in Hk.
  simpl in Hk. subst k. discriminate.
Qed.

Lemma numbered_ok (name : str) (k : nat) :
  tight name -> one_line name -> name_ok (numbered name k).
Proof.
  intros [Hs He] Hl. unfold name_ok, tight, numbered.
  pose proof (str_of_nat_digits k) as Hd.
  pose proof (@str_of_nat_nonempty k) as Hne.
  repeat split.
  - destruct name; [reflexivity | exact Hs].
  - rewrite !rev_app_distr. apply Forall_rev in Hd.
    destruct (rev (str_of_nat k)) as [|c ds] eqn:E.
    + apply (f_equal (@rev ascii)) in E. rewrite rev_involutive in E.
      contradiction.
    + simpl. inversion Hd as [|? ? [Hc _] _]. exact Hc.
  - apply Forall_app. split; [exact Hl|]. apply Forall_app. split.
    + repeat constructor; discriminate.
    + eapply Forall_impl; [|exact Hd]. intros c (_ & H1 & H2). now split.
  - destruct (reserved (name ++ "__" ++ str_of_nat k)) eqn:E; [|reflexivity].
    assert (Hin : In "_"%char (name ++ "__" ++ str_of_nat k)).
    { apply in_or_app. right. now left. }
    unfold reserved in E. apply orb_true_iff in E.
    destruct E as [E|E]; apply str_eqb_eq in E; rewrite E in Hin;
      simpl in Hin; intuition discriminate.
Qed.

Lemma fresh_name_ok (d : store) (name : str) :
  name_ok name -> name_ok (fresh_name d name).
Proof.
  intros Hn.
  destruct (fresh_name_spec d name) as [[_ ->] | [_ (k & _ & -> & _)]];
    [exact Hn|].
  destruct Hn as (Ht & Hl & _). now apply numbered_ok.
Qed.

Lemma forall_dict_set (V : Type) (P : str * V -> Prop) (k : str) (v : V)
    (d : dict V) :
  Forall P d -> P (k, v) -> Forall P (dict_set k v d).
Proof.
  intros Hd Hkv. induction Hd as [|[k' v'] d Hx Hd IH]; simpl.
  - now repeat constructor.
  - destruct (str_eqb k' k); now constructor.
Qed.

Lemma dict_get_in (V : Type) (k : str) (v : V) (d : dict V) :
  dict_get k d = Some v -> In (k, v) d.
Proof.
  induction d as [|[k' v'] d IH]; simpl; [discriminate|].
  destruct (str_eqb k' k) eqn:E.
  - apply str_eqb_eq in E. intros [= ->]. left. now subst.
  - intros H. right. now apply IH.
Qed.

Lemma step_store_ok (st st' : pstate) (raw : str) :
  consistent st -> store_ok (dsn_dict st) -> one_line (strip raw) ->
  step st raw = Returns st' -> store_ok (dsn_dict st').
Proof.
  intros Hc [Hnd Hall] Hl Hstep.
  destruct (step_consistent raw Hc) as (st2 & E & [Hnd' _]).
  rewrite E in Hstep. injection Hstep as <-. split; [exact Hnd'|].
  rewrite step_classify in E.
  destruct (classify raw) as [|name|key value|] eqn:Ek.
  - now injection E as <-.
  - destruct (reserved name) eqn:Er; injection E as <-; [exact Hall|].
    rewrite open_section_store. apply Forall_app. split; [exact Hall|].
    constructor; [|constructor]. simpl. split.
    + apply fresh_name_ok. destruct (classify_header_ok raw Hl Ek).
      split; [assumption | split; assumption].
    + split; constructor.
  - destruct (current_section st) as [cur|]; [|now injection E as <-].
    destruct (dict_get cur (dsn_dict st)) as [sec|] eqn:Eg; [|discriminate].
    injection E as <-. simpl. apply forall_dict_set; [exact Hall|].
    apply dict_get_in in Eg.
    rewrite Forall_forall in Hall. destruct (Hall _ Eg) as [Hn [Hsn Hsa]].
    simpl in *. split; [exact Hn|]. split.
    + now apply dict_set_nodup.
    + apply forall_dict_set; [exact Hsa|]. now apply classify_key_ok with raw.
  - now injection E as <-.
Qed.

Lemma parse_lines_store_ok (ls : list str) :
  forall st,
    Forall (fun l => one_line (strip l)) ls ->
    consistent st -> store_ok (dsn_dict st) ->
    store_ok (dsn_dict (fst (parse_lines ls st))).
Proof.
  induction ls as [|l ls IH]; simpl; intros st Hls Hc Hok; [exact Hok|].
  inversion Hls as [|? ? Hl Hls']; subst.
  destruct (step_consistent l Hc) as (st' & E & Hc'). rewrite E.
  apply IH; [exact Hls' | exact Hc' |].
  exact (@step_store_ok st st' l Hc Hok Hl E).
Qed.

Lemma Parse_store_ok (rawText : str) : store_ok (fst (Parse rawText)).
Proof.
  unfold Parse. simpl.
  apply (@parse_lines_store_ok (readlines rawText) init_pstate
           (readlines_one_line rawText) consistent_init).
  split; constructor.
Qed.

(* ================================================================= *)
(** ** Reading back what was written *)

Lemma readlines_line (l rest : str) :
  one_line l -> readlines (l ++ nl :: rest) = (l ++ [nl]) :: readlines rest.
Proof.
  induction 1 as [|c l [Hnl Hcr] _ IH]; [reflexivity|].
  simpl. apply char_eqb_neq in Hnl, Hcr. rewrite Hnl, Hcr.
  now rewrite IH.
Qed.

Lemma replace_nl_one_line (v : str) : one_line v -> replace_nl v = v.
Proof.
  induction 1 as [|c v [Hnl _] _ IH]; [reflexivity|].
  unfold replace_nl in *. cbn [flat_map]. apply char_eqb_neq in Hnl.
  rewrite Hnl, IH. reflexivity.
Qed.

Lemma one_line_app (a b : str) : one_line a -> one_line b -> one_line (a ++ b).
Proof. intros Ha Hb. apply Forall_app. now split. Qed.

Lemma readlines_key_lines (sec : section) (rest : str) :
  Forall key_line_ok sec ->
  readlines (flat_map write_key_line sec ++ rest) =
  map key_line sec ++ readlines rest.
Proof.
  induction 1 as [|[k v] sec Hkv _ IH]; [reflexivity|].
  destruct Hkv as (_ & _ & Hk & Hv & _).
  cbn [flat_map map]. unfold write_key_line at 1, key_line at 1.
  cbn [fst snd]. rewrite replace_nl_one_line by exact Hv.
  transitivity
    (readlines ((k ++ " = " ++ v) ++
                  nl :: (flat_map write_key_line sec ++ rest)));
    [f_equal; same_chars|].
  rewrite readlines_line.
  - rewrite IH. same_chars.
  - apply one_line_app; [exact Hk|]. apply one_line_app; [|exact Hv].
    repeat constructor; discriminate.
Qed.

Lemma readlines_section (entry : str * section) (rest : str) :
  name_ok (fst entry) -> section_ok (snd entry) ->
  readlines (write_section entry ++ rest) =
  section_lines entry ++ readlines rest.
Proof.
  destruct entry as [name sec]. cbn [fst snd]. intros (_ & Hl & _) [_ Hsec].
  unfold write_section, section_lines. cbn [fst snd].
  transitivity
    (readlines (("[" ++ name ++ "]") ++
                  nl :: (flat_map write_key_line sec ++ nl :: rest)));
    [f_equal; same_chars|].
  rewrite readlines_line.
  - rewrite readlines_key_lines by exact Hsec.
    change (readlines (nl :: rest)) with ([nl] :: readlines rest).
    same_chars.
  - apply one_line_app; [repeat constructor; discriminate|].
    apply one_line_app; [exact Hl|]. repeat constructor; discriminate.
Qed.

Lemma readlines_serialize (s : store) :
  store_ok s -> readlines (Serialize s) = flat_map section_lines s.
Proof.
  intros [_ H]. unfold Serialize.
  induction H as [|entry s [Hn Hs] _ IH]; [reflexivity|].
  cbn [flat_map]. rewrite readlines_section by assumption. now rewrite IH.
Qed.

Lemma classify_header_line (name : str) :
  tight name -> classify ("[" ++ name ++ "]" ++ [nl]) = Header name.
Proof.
  intros Ht. unfold classify.
  assert (E : strip ("[" ++ name ++ "]" ++ [nl]) = "[" ++ name ++ "]").
  { transitivity (strip ([] ++ ("[" ++ name ++ "]") ++ [nl]));
      [f_equal; same_chars|].
    apply strip_tight; try (repeat constructor).
    simpl. rewrite rev_app_distr. reflexivity. }
  rewrite E. set (line := "[" ++ name ++ "]").
  assert (G1 : is_empty line || startswith "#" line || startswith ";" line
               = false) by reflexivity.
  assert (G2 : startswith "[" line && endswith "]" line = true).
  { unfold line, endswith. simpl. rewrite rev_app_distr. reflexivity. }
  assert (G3 : slice_1_m1 line = name).
  { unfold line, slice_1_m1. simpl.
    change (name ++ "]") with (name ++ ["]"%char]). apply removelast_last. }
  rewrite G1, G2, G3. now rewrite strip_tight_self.
Qed.

Lemma startswith_app (c : ascii) (a b : str) :
  a <> [] -> startswith c (a ++ b) = startswith c a.
Proof. destruct a; [congruence | reflexivity]. Qed.

Lemma endswith_app (c : ascii) (a b : str) :
  b <> [] -> endswith c (a ++ b) = endswith c b.
Proof.
  intros Hb. unfold endswith. rewrite rev_app_distr.
  apply startswith_app. intros E. apply Hb.
  apply (f_equal (@rev ascii)) in E. now rewrite rev_involutive in E.
Qed.

Lemma contains_app (c : ascii) (a b : str) :
  contains c (a ++ b) = contains c a || contains c b.
Proof. apply existsb_app. Qed.

Lemma ends_tight_app (x v : str) :
  v <> [] -> starts_tight (rev v) -> starts_tight (rev (x ++ v)).
Proof.
  intros Hv Ht. rewrite rev_app_distr. apply starts_tight_app; [|exact Ht].
  intros E. apply Hv. apply (f_equal (@rev ascii)) in E.
  now rewrite rev_involutive in E.
Qed.

Lemma tight_app (a b : str) :
  a <> [] -> b <> [] -> starts_tight a -> starts_tight (rev b) ->
  tight (a ++ b).
Proof.
  intros Ha Hb Hs He. split;
    [now apply starts_tight_app | now apply ends_tight_app].
Qed.

Lemma strip_key_line (key value : str) :
  tight key -> tight value ->
  strip (key_line (key, value)) = key_pad key ++ "=" ++ value_pad value.
Proof.
  intros [Hks Hke] [Hvs Hve]. unfold key_line. cbn [fst snd].
  assert (Hsp : Forall (fun c => isspace c = true) " ")
    by (repeat constructor).
  assert (Hnl : Forall (fun c => isspace c = true) [nl])
    by (repeat constructor).
  assert (Hsnl : Forall (fun c => isspace c = true) (" " ++ [nl]))
    by (repeat constructor).
  assert (Heq : starts_tight "=") by reflexivity.
  destruct key as [|kc key]; destruct value as [|vc value];
    unfold key_pad, value_pad.
  - apply (@strip_tight " " "=" (" " ++ [nl])); auto. now split.
  - transitivity (strip (" " ++ ("=" ++ " " ++ vc :: value) ++ [nl]));
      [f_equal; same_chars|].
    rewrite strip_tight; auto.
    apply tight_app; try discriminate; auto.
    now apply ends_tight_app.
  - transitivity (strip ([] ++ ((kc :: key) ++ " " ++ "=") ++ (" " ++ [nl])));
      [f_equal; same_chars|].
    rewrite strip_tight; auto; [same_chars|].
    apply tight_app; try discriminate; auto.
  - transitivity
      (strip ([] ++ ((kc :: key) ++ " " ++ "=" ++ " " ++ vc :: value)
                 ++ [nl]));
      [f_equal; same_chars|].
    rewrite strip_tight; auto; [same_chars|].
    apply tight_app; try discriminate; auto.
    apply (@ends_tight_app (" " ++ "=" ++ " ")); [discriminate | exact Hve].
Qed.

Lemma strip_key_pad (key : str) : tight key -> strip (key_pad key) = key.
Proof.
  intros Ht. destruct key as [|c key]; [reflexivity|].
  apply (@strip_tight [] (c :: key) " "); auto; repeat constructor.
Qed.

Lemma strip_value_pad (value : str) :
  tight value -> strip (value_pad value) = value.
Proof.
  intros Ht. destruct value as [|c value]; [reflexivity|].
  unfold value_pad.
  transitivity (strip (" " ++ (c :: value) ++ [])); [f_equal; same_chars|].
  apply strip_tight; auto; repeat constructor.
Qed.

Lemma classify_key_line (key value : str) :
  key_line_ok (key, value) ->
  classify (key_line (key, value)) = KeyValue key value.
Proof.
  intros (Htk & Htv & _ & _ & Heq & Hhash & Hsemi & Hbr).
  unfold classify. rewrite strip_key_line by assumption.
  set (line := key_pad key ++ "=" ++ value_pad value).
  assert (G1 : is_empty line || startswith "#" line || startswith ";" line
               = false).
  { unfold line. destruct key as [|c key]; [reflexivity|].
    simpl in *. now rewrite Hhash, Hsemi. }
  assert (G2 : startswith "[" line && endswith "]" line = false).
  { unfold line. destruct key as [|c key]; [reflexivity|].
    destruct value as [|d value].
    - unfold endswith. simpl. rewrite !rev_app_distr. simpl.
      apply andb_false_r.
    - replace (key_pad (c :: key) ++ "=" ++ value_pad (d :: value))
        with (((c :: key) ++ " = ") ++ d :: value)
        by (simpl; rewrite <- !app_assoc; reflexivity).
      now rewrite endswith_app by discriminate. }
  assert (G3 : contains "=" line = true).
  { unfold line. rewrite contains_app. simpl. apply orb_true_r. }
  assert (G4 : contains "=" (key_pad key) = false).
  { destruct key as [|c key]; [reflexivity|].
    unfold key_pad. rewrite contains_app, Heq. reflexivity. }
  rewrite G1, G2, G3. unfold line.
  change (key_pad key ++ "=" ++ value_pad value)
    with (key_pad key ++ "="%char :: value_pad value).
  rewrite split_eq_app by exact G4.
  now rewrite strip_key_pad, strip_value_pad.
Qed.

Lemma fold_key_lines (sec : section) :
  forall acc : section,
    Forall key_line_ok sec -> NoDup (keys acc ++ keys sec) ->
    fold_left add_key_line (map key_line sec) acc = acc ++ sec.
Proof.
  induction sec as [|[k v] sec IH]; intros acc Hok Hnd; simpl.
  - now rewrite List.app_nil_r.
  - inversion Hok as [|? ? Hkv Hok']; subst.
    unfold add_key_line at 2. rewrite classify_key_line by exact Hkv.
    simpl in Hnd. rewrite dict_set_fresh.
    + rewrite IH; [now rewrite <- app_assoc | exact Hok' |].
      unfold keys. rewrite map_app. simpl. rewrite <- app_assoc. exact Hnd.
    + apply NoDup_remove_2 in Hnd. intros Hin. apply Hnd.
      apply in_or_app. now left.
Qed.

Lemma fresh_name_unused_same (d : store) (name : str) :
  ~ In name (keys d) -> fresh_name d name = name.
Proof.
  intros H. destruct (fresh_name_spec d name) as [[_ E] | [Hin _]]; tauto.
Qed.

(** Reading the lines of one written section appends that section. *)
Lemma parse_section_lines (entry : str * section) (rest : list str)
    (d : store) (cur : option str) (out : list str) :
  name_ok (fst entry) -> section_ok (snd entry) ->
  ~ In (fst entry) (keys d) -> consistent (mk_pstate d cur out) ->
  parse_lines (section_lines entry ++ rest) (mk_pstate d cur out) =
  parse_lines rest (mk_pstate (d ++ [entry]) (Some (fst entry)) out).
Proof.
  destruct entry as [name sec]. cbn [fst snd].
  intros (Ht & _ & Hres) [Hnd Hok] Hfresh Hc.
  rewrite parse_lines_app by exact Hc. f_equal.
  unfold section_lines. cbn [fst snd].
  rewrite (@parse_lines_cons _ _ _
             (mk_pstate (d ++ [(name, [])]) (Some name) out)).
  - rewrite parse_body.
    + rewrite fold_left_app. cbn [fst fold_left].
      rewrite fold_key_lines by assumption. reflexivity.
    + exact Hfresh.
    + intros l Hl. apply in_app_or in Hl. destruct Hl as [Hl|[<-|[]]];
        [|reflexivity].
      apply in_map_iff in Hl. destruct Hl as ([k v] & <- & Hin).
      unfold is_header. rewrite classify_key_line; [reflexivity|].
      rewrite Forall_forall in Hok. now apply Hok.
  - rewrite step_classify, classify_header_line, Hres by exact Ht.
    unfold open_section. cbn [dsn_dict printed].
    rewrite fresh_name_unused_same by exact Hfresh.
    rewrite str_eqb_refl. now rewrite dict_set_fresh.
Qed.

Lemma parse_store_lines (s : store) :
  forall (d : store) (cur : option str) (out : list str),
    Forall (fun entry => name_ok (fst entry) /\ section_ok (snd entry)) s ->
    NoDup (keys d ++ keys s) -> consistent (mk_pstate d cur out) ->
    exists cur',
      parse_lines (flat_map section_lines s) (mk_pstate d cur out) =
      (mk_pstate (d ++ s) cur' out, None).
Proof.
  induction s as [|entry s IH]; intros d cur out Hok Hnd Hc; cbn [flat_map].
  - exists cur. now rewrite List.app_nil_r.
  - inversion Hok as [|? ? [Hn Hs] Hok']; subst.
    assert (Hfresh : ~ In (fst entry) (keys d)).
    { cbn [keys map] in Hnd. apply NoDup_remove_2 in Hnd. intros Hin.
      apply Hnd. apply in_or_app. now left. }
    rewrite parse_section_lines by assumption.
    assert (Hnd' : NoDup (keys (d ++ [entry]) ++ keys s)).
    { unfold keys. rewrite map_app. simpl. now rewrite <- app_assoc. }
    destruct (IH (d ++ [entry]) (Some (fst entry)) out Hok' Hnd') as [cur' E].
    + split; simpl.
      * apply NoDup_app_remove_r in Hnd'. exact Hnd'.
      * intros c [= <-]. unfold keys. rewrite map_app. apply in_or_app.
        right. now left.
    + exists cur'. rewrite E. now rewrite <- app_assoc.
Qed.

Lemma Parse_Serialize (s : store) : store_ok s -> Parse (Serialize s) = (s, []).
Proof.
  intros Hok. unfold Parse. rewrite readlines_serialize by exact Hok.
  destruct Hok as [Hnd Hall].
  destruct (@parse_store_lines s [] None [] Hall Hnd consistent_init)
    as [cur' E].
  unfold init_pstate. now rewrite E.
Qed.

(** C3. Writing the store that [read_ini_file] built from a text and
    reading the written text back gives the same store: the same
    section names in the same order, and in every section the same keys
    with the same values; no warning is printed on the way. *)
Theorem parse_serialize_roundtrip :
  forall rawText : str,
    Parse (Serialize (fst (Parse rawText))) = (fst (Parse rawText), []).
Proof. intros rawText. apply Parse_Serialize, Parse_store_ok. Qed.

(* ================================================================= *)
(** ** The connection tester *)

Lemma connections_app (a b : list event) :
  connections (a ++ b) = connections a ++ connections b.
Proof.
  induction a as [|[l|bk c] a IH]; simpl; [reflexivity | exact IH |].
  now rewrite IH.
Qed.

Lemma connections_prints (lines : list str) : connections (prints lines) = [].
Proof. induction lines; simpl; auto. Qed.

Lemma report_verdict (b : backend) (display_conn_str : str) (o : conn_outcome) :
  snd (report b display_conn_str o) = connected o.
Proof. destruct o, b; reflexivity. Qed.

Lemma path_exists_fails (fs : filesystem) (p : str) (e : exn) :
  path_exists fs p = Fails e -> fs p = Unstatable e.
Proof.
  unfold path_exists. destruct (fs p); try discriminate. now intros [= ->].
Qed.

Lemma path_exists_returns (fs : filesystem) (p : str) :
  no_stat_fault fs -> exists found, path_exists fs p = Returns found.
Proof.
  intros H. destruct (path_exists fs p) as [found|e] eqn:E; [eauto|].
  apply path_exists_fails in E. now apply H in E.
Qed.

Lemma opt_path_exists_fails (fs : filesystem) (o : option str) (e : exn) :
  opt_path_exists fs o = Fails e -> exists p, fs p = Unstatable e.
Proof.
  destruct o as [[|c p]|]; simpl; try discriminate.
  intros H. apply path_exists_fails in H. eauto.
Qed.

Lemma first_existing_fails (fs : filesystem) (locations : list str) (e : exn) :
  first_existing fs locations = Fails e -> exists p, fs p = Unstatable e.
Proof.
  induction locations as [|l ls IH]; simpl; [discriminate|].
  destruct (path_exists fs l) as [[|]|e'] eqn:E; [discriminate | exact IH |].
  intros [= <-]. apply path_exists_fails in E. eauto.
Qed.

Lemma odbcinst_path_of_fails (self : ODBCManager) (w : world) (e : exn) :
  odbcinst_path_of self w = Fails e -> exists p, files w p = Unstatable e.
Proof.
  unfold odbcinst_path_of, find_odbcinst.
  destruct (truthy (odbcinst self)); [discriminate|].
  destruct (truthy (dict_get _ _)); [discriminate|].
  destruct (first_existing _ _) as [[l|]|e'] eqn:E; try discriminate.
  intros [= <-]. now apply first_existing_fails in E.
Qed.

(** The check for a driver path only prints: when it returns, the
    connection string it leaves is the one built from the name of the
    DSN and the credentials, whatever it found; and it returns unless a
    look at a file raises. *)
Lemma check_driver_path_advisory (self : ODBCManager) (fs : filesystem)
    (odbcinst_path : option str) (dsn_name : str)
    (username password : option str) :
  exists out,
    connections out = [] /\
    (check_driver_path self fs odbcinst_path dsn_name username password =
       (Returns (conn_str_of dsn_name username password), out) \/
     exists p e,
       fs p = Unstatable e /\
       check_driver_path self fs odbcinst_path dsn_name username password =
         (Fails e, out)).
Proof.
  unfold check_driver_path.
  destruct (read_ini_file_cases fs (odbcini self))
    as [(p & e & _ & _ & F & ->) | (s & ws & -> & _)].
  { eexists. split; [apply connections_prints | right; eauto]. }
  destruct (dict_get dsn_name s) as [sec|];
    [|eexists; split; [apply connections_prints | now left]].
  destruct (looks_like_path (driver_setting_of sec));
    [|eexists; split; [apply connections_prints | now left]].
  destruct (opt_path_exists fs odbcinst_path) as [[|]|e] eqn:Ex.
  - destruct (read_ini_file_cases fs odbcinst_path)
      as [(p & e & _ & _ & F & ->) | (s2 & ws2 & -> & _)].
    + eexists. split; [|right; eauto].
      now rewrite !connections_app, !connections_prints.
    + destruct (truthy (find_driver_name s2 (driver_setting_of sec)));
        (eexists; split; [|now left]);
        rewrite !connections_app, !connections_prints; reflexivity.
  - eexists. split; [|now left].
    now rewrite connections_app, connections_prints.
  - apply opt_path_exists_fails in Ex. destruct Ex as [p F].
    eexists. split; [|right; eauto].
    now rewrite connections_app, connections_prints.
Qed.

Lemma in_connections (b : backend) (s : str) (evs : list event) :
  In (Connect b s) evs <-> In (b, s) (connections evs).
Proof.
  induction evs as [|[l|b' s'] evs IH]; simpl; [tauto | |].
  - rewrite <- IH. split; [intros [H|H]; [discriminate | exact H] | tauto].
  - rewrite <- IH. split; intros [H|H]; auto; left; congruence.
Qed.

Section TesterFacts.

Variable connect : backend -> world -> str -> conn_outcome.

(** When [pyodbc] cannot be imported, a test stops after its first
    line: the one with unixODBC raises, the one with iODBC fails. *)
Lemma test_dsn_with_no_pyodbc (b : backend) (self : ODBCManager) (w : world)
    (dsn_name : str) (username password : option str) :
  pyodbc w = false ->
  test_dsn_with connect b self w dsn_name username password =
    match b with
    | UnixODBC =>
        (Fails (UnboundLocalError (str_of "pyodbc")), w,
         [Print (str_of "Testing with unixODBC (standard ODBC)...")])
    | IODBC =>
        (Returns false, w,
         [Print (str_of "Testing with iODBC (standard ODBC)...");
          Print (str_of "✗ pyodbc library not found - install with: pip install pyodbc")])
    end.
Proof. intros H. unfold test_dsn_with. rewrite H. now destruct b. Qed.

(** With [pyodbc] at hand a test returns, the environment set.  Either
    it called the connector once, with the connection string built from
    the name and the credentials and right after printing it, and its
    verdict is whether the connection came about; or a look at a file
    raised, it called nothing and its verdict is a failure. *)
Lemma test_dsn_with_spec (b : backend) (self : ODBCManager) (w : world)
    (dsn_name : str) (username password : option str) :
  pyodbc w = true ->
  exists evs,
    (test_dsn_with connect b self w dsn_name username password =
       (Returns (connected (connect b (set_environment self w)
                              (conn_str_of dsn_name username password))),
        set_environment self w, evs) /\
     connections evs = [(b, conn_str_of dsn_name username password)] /\
     connects_only b (conn_str_of dsn_name username password) evs /\
     exists pre lines,
       evs = pre
               ++ Print (attempt_line
                           (conn_str_of dsn_name username password))
               :: Connect b (conn_str_of dsn_name username password)
               :: prints lines /\
       In (Print ("Debug: " ++ label b ++ " connection string: "
                    ++ display_conn_str_of dsn_name username password)) pre)
    \/
    (test_dsn_with connect b self w dsn_name username password =
       (Returns false, set_environment self w, evs) /\
     connections evs = [] /\
     connects_only b (conn_str_of dsn_name username password) evs /\
     exists p e, files w p = Unstatable e).
Proof.
  intros Hpy. unfold test_dsn_with. rewrite Hpy. cbn [negb].
  assert (Hp : forall lines, connects_only b
                 (conn_str_of dsn_name username password) (prints lines)).
  { intros lines. unfold connects_only, prints. apply Forall_forall.
    intros ev Hev. apply in_map_iff in Hev. now destruct Hev as (l & <- & _). }
  assert (Ho : forall out, connections out = [] ->
                 connects_only b (conn_str_of dsn_name username password) out).
  { intros out. unfold connects_only. induction out as [|[l|b' s] out IH];
      simpl; intros H; [constructor | constructor; auto | discriminate]. }
  destruct (odbcinst_path_of self w) as [odbcinst_path|e] eqn:Eo.
  - destruct (check_driver_path_advisory self (files w) odbcinst_path
                dsn_name username password)
      as (out & Hout & [-> | (p & e & F & ->)]).
    + pose proof (report_verdict b
                    (display_conn_str_of dsn_name username password)
                    (connect b (set_environment self w)
                       (conn_str_of dsn_name username password))) as Hr.
      destruct (report b _ _) as [lines ok]. simpl in Hr. subst ok.
      eexists. left. split; [reflexivity|]. split; [|split].
      * rewrite !connections_app, Hout, !connections_prints.
        destruct (truthy odbcinst_path); reflexivity.
      * unfold connects_only. rewrite !Forall_app. repeat split;
          first [apply Hp | now apply Ho
                | destruct (truthy odbcinst_path); now repeat constructor].
      * exists (([Print ("Testing with " ++ label b ++ " (standard ODBC)...")]
                 ++ [Print ("Debug: " ++ label b ++ " connection string: "
                              ++ display_conn_str_of dsn_name username
                                   password)])
                ++ (if truthy odbcinst_path
                    then [Print ("Debug: Set ODBCINST to "
                                   ++ py_str odbcinst_path)]
                    else [Print (str_of "Warning: ODBCINST not set - driver lookup may fail")])
                ++ out), lines.
        split.
        -- rewrite <- !(@app_assoc event). reflexivity.
        -- rewrite !in_app_iff. left. right. now left.
    + eexists. right. split; [reflexivity|]. split; [|split; [|eauto]].
      * rewrite !connections_app, Hout, !connections_prints.
        destruct (truthy odbcinst_path); reflexivity.
      * unfold connects_only. rewrite !Forall_app. repeat split;
          first [apply Hp | now apply Ho
                | destruct (truthy odbcinst_path); now repeat constructor].
  - eexists. right. split; [reflexivity|]. split; [|split].
    + now rewrite !connections_app, !connections_prints.
    + unfold connects_only. rewrite !Forall_app. repeat split;
        first [apply Hp | now repeat constructor].
    + apply odbcinst_path_of_fails in Eo. destruct Eo as [p F]. eauto.
Qed.

(** Where no look at a file raises, the test reaches the connector. *)
Lemma test_dsn_with_reaches (b : backend) (self : ODBCManager) (w : world)
    (dsn_name : str) (username password : option str) :
  pyodbc w = true -> no_stat_fault (files w) ->
  exists evs,
    test_dsn_with connect b self w dsn_name username password =
      (Returns (connected (connect b (set_environment self w)
                             (conn_str_of dsn_name username password))),
       set_environment self w, evs) /\
    connections evs = [(b, conn_str_of dsn_name username password)].
Proof.
  intros Hpy Hfs.
  destruct (test_dsn_with_spec b self w dsn_name username password Hpy)
    as (evs & [(E & Hc & _) | (_ & _ & _ & p & e & F)]).
  - eauto.
  - now apply Hfs in F.
Qed.

Lemma set_environment_files (self : ODBCManager) (w : world) :
  files (set_environment self w) = files w /\
  pyodbc (set_environment self w) = pyodbc w.
Proof.
  unfold set_environment. destruct (odbcinst_path_of self w); now split.
Qed.

(** C8. A test never changes a file.  Whenever it calls the connector,
    it hands it the connection string built from the name of the DSN as
    it was given and the credentials, and it calls it at most once.  In
    a test that finds a driver path in the DSN and a driver name for it
    in [odbcinst.ini], the note with that name is printed and the
    connector is called, once, with that same string; and so it is in
    every test in which [pyodbc] is at hand and no look at a file
    raises. *)
Theorem correction_is_advisory :
  forall (b : backend) (self : ODBCManager) (w : world) (dsn_name : str)
         (username password : option str),
    let conn_str := conn_str_of dsn_name username password in
    let r := test_dsn_with connect b self w dsn_name username password in
    files (snd (fst r)) = files w /\
    connects_only b conn_str (snd r) /\
    (connections (snd r) = [] \/ connections (snd r) = [(b, conn_str)]) /\
    (forall (odbcinst_path : option str) (dsn_dict odbcinst_config : store)
            (warnings warnings2 : list str) (dsn_config : section)
            (driver_name : str),
       pyodbc w = true ->
       odbcinst_path_of self w = Returns odbcinst_path ->
       read_ini_file (files w) (odbcini self) = (Returns dsn_dict, warnings) ->
       dict_get dsn_name dsn_dict = Some dsn_config ->
       DetectPathMisconfiguration dsn_config = true ->
       opt_path_exists (files w) odbcinst_path = Returns true ->
       read_ini_file (files w) odbcinst_path =
         (Returns odbcinst_config, warnings2) ->
       find_driver_name odbcinst_config (driver_setting_of dsn_config) =
         Some driver_name ->
       driver_name <> [] ->
       In (Print ("Info: Found matching driver: " ++ driver_name)) (snd r) /\
       connections (snd r) = [(b, conn_str)] /\
       fst (fst r) =
         Returns (connected (connect b (set_environment self w) conn_str))) /\
    (pyodbc w = true -> no_stat_fault (files w) ->
     connections (snd r) = [(b, conn_str)] /\
     fst (fst r) =
       Returns (connected (connect b (set_environment self w) conn_str))).
Proof.
  intros b self w dsn_name username password conn_str r. subst r conn_str.
  assert (Hgen :
    files (snd (fst (test_dsn_with connect b self w dsn_name
                       username password))) = files w /\
    connects_only b (conn_str_of dsn_name username password)
      (snd (test_dsn_with connect b self w dsn_name username password)) /\
    (connections (snd (test_dsn_with connect b self w dsn_name
                         username password)) = [] \/
     connections (snd (test_dsn_with connect b self w dsn_name
                         username password)) =
       [(b, conn_str_of dsn_name username password)])).
  { destruct (pyodbc w) eqn:Hpy.
    - destruct (test_dsn_with_spec b self w dsn_name username password Hpy)
        as (evs & [(-> & Hc & Ho & _) | (-> & Hc & Ho & _)]); cbn [fst snd];
        (split; [apply set_environment_files|]); (split; [exact Ho|]);
        [now right | now left].
    - rewrite (test_dsn_with_no_pyodbc b self w dsn_name username password Hpy).
      destruct b; cbn [fst snd]; (split; [reflexivity|]);
        (split; [|now left]); repeat constructor. }
  destruct Hgen as (Hf & Ho & Hc).
  split; [exact Hf|]. split; [exact Ho|]. split; [exact Hc|]. split.
  - intros odbcinst_path dsn_dict odbcinst_config warnings warnings2
      dsn_config driver_name Hpy Hpath Hread Hget Hdet Hex Hread2 Hfind Hne.
    unfold test_dsn_with. rewrite Hpy, Hpath. cbn [negb].
    unfold check_driver_path. rewrite Hread, Hget.
    unfold DetectPathMisconfiguration in Hdet. rewrite Hdet, Hex, Hread2, Hfind.
    assert (Ht : truthy (Some driver_name) = true)
      by (destruct driver_name; [congruence | reflexivity]).
    rewrite Ht.
    pose proof (report_verdict b
                  (display_conn_str_of dsn_name username password)
                  (connect b (set_environment self w)
                     (conn_str_of dsn_name username password))) as Hr.
    destruct (report b _ _) as [lines ok]. simpl in Hr. subst ok.
    cbn [fst snd]. split; [|split; [|reflexivity]].
    + rewrite !in_app_iff. do 2 right. left. do 2 right. left. reflexivity.
    + rewrite !connections_app, !connections_prints.
      destruct (truthy odbcinst_path); reflexivity.
  - intros Hpy Hfs.
    destruct (test_dsn_with_reaches b self w dsn_name username password
                Hpy Hfs) as (evs & -> & Hc1).
    cbn [fst snd]. now split.
Qed.


End TesterFacts.

(** The DSN [Sales] holds the path of a library that [odbcinst.ini]
    registers as [FooDriver]: the note is printed, and the connector
    gets the name of the DSN all the same. *)
Example advisory_note_printed :
  let r := test_dsn_unixodbc second_succeeds sales_manager sales_world
             (str_of "Sales") None None in
  In (Print (str_of "Info: Found matching driver: FooDriver")) (snd r) /\
  connections (snd r) = [(UnixODBC, str_of "DSN=Sales")] /\
  files (snd (fst r)) = files sales_world.
Proof.
  vm_compute. split; [|split; reflexivity].
  do 4 right. left. reflexivity.
Qed.


(** The example of the specification: the first manager fails, the
    second succeeds; both are tried and the test succeeds. *)
Example first_fails_second_succeeds :
  let r := test_dsn second_succeeds sales_manager sales_world
             (str_of "Sales") None default_answers in
  connections (snd r) =
    [(UnixODBC, str_of "DSN=Sales"); (IODBC, str_of "DSN=Sales")] /\
  fst (fst r) = Returns (Some true).
Proof. vm_compute. split; reflexivity. Qed.


(* ================================================================= *)
(** ** The driver key of a DSN *)

(** C7. The test for a driver path reads the key [Driver] as it is
    written: a DSN that has the path under [DRIVER] is not flagged and
    the check prints nothing, though the listing, which compares the
    keys in lower case, finds the same path as its driver. *)
Theorem uppercase_driver_key_not_detected :
  DetectPathMisconfiguration
    [(str_of "DRIVER", str_of "/usr/lib/foo.so")] = false /\
  check_driver_path sales_manager upper_fs (Some (str_of "odbcinst.ini"))
    (str_of "Sales") None None = (Returns (str_of "DSN=Sales"), []) /\
  driver_of [(str_of "DRIVER", str_of "/usr/lib/foo.so")] =
    str_of "/usr/lib/foo.so" /\
  DetectPathMisconfiguration
    [(str_of "Driver", str_of "/usr/lib/foo.so")] = true.
Proof. repeat split; reflexivity. Qed.

(** What the test is on the code: the value under the exact key
    [Driver] holds a slash or a backslash. *)
Lemma DetectPathMisconfiguration_spec (dsn_config : section) :
  DetectPathMisconfiguration dsn_config = true <->
  exists value,
    dict_get "Driver" dsn_config = Some value /\
    (In "/"%char value \/ In "\"%char value).
Proof.
  unfold DetectPathMisconfiguration, looks_like_path, driver_setting_of.
  assert (Hc : forall c s, contains c s = true <-> In c s).
  { intros c s. unfold contains. rewrite existsb_exists. split.
    - intros (x & Hx & E). apply char_eqb_eq in E. now subst.
    - intros H. exists c. split; [exact H | now apply char_eqb_eq]. }
  rewrite orb_true_iff, !Hc.
  destruct (dict_get "Driver" dsn_config) as [value|].
  - split; [eauto|]. now intros (v & [= <-] & H).
  - split; [simpl; tauto|]. intros (v & H & _). discriminate.
Qed.

(* ================================================================= *)
(** ** Passwords in the details of a DSN *)

Lemma in_all_chars (c : ascii) : In c all_chars.
Proof.
  unfold all_chars. rewrite <- (ascii_nat_embedding c).
  apply in_map, in_seq. pose proof (nat_ascii_bounded c). lia.
Qed.

(** Comparing a key with a word after [upper] or [lower] is comparing
    it with the word letter by letter, either case allowed. *)
Lemma folds_to_spec (f : ascii -> ascii) (target : ascii * ascii -> ascii)
    (word : list (ascii * ascii)) :
  folds_to f target word = true ->
  forall key,
    map f key = map target word <->
    Forall2 (fun c letter => c = fst letter \/ c = snd letter) key word.
Proof.
  intros H. unfold folds_to in H. rewrite forallb_forall in H.
  assert (Hc : forall letter c, In letter word ->
                 (f c = target letter <-> c = fst letter \/ c = snd letter)).
  { intros letter c Hl. specialize (H letter Hl).
    rewrite forallb_forall in H. specialize (H c (in_all_chars c)).
    apply eqb_prop in H.
    rewrite <- char_eqb_eq, H, orb_true_iff, !char_eqb_eq. reflexivity. }
  clear H. induction word as [|letter word IH]; intros [|c key]; simpl.
  - split; [constructor | reflexivity].
  - split; [discriminate | intros F; inversion F].
  - split; [discriminate | intros F; inversion F].
  - split.
    + intros [= Hh Ht]. constructor.
      * apply Hc; [now left | exact Hh].
      * apply IH; [|exact Ht]. intros l c' Hl. apply Hc. now right.
    + intros F. inversion F as [|? ? ? ? Hh Ht]; subst. f_equal.
      * apply Hc; [now left | exact Hh].
      * apply IH; [|exact Ht]. intros l c' Hl. apply Hc. now right.
Qed.

Lemma is_password_key_spec (key : str) :
  is_password_key key = true <-> password_key key.
Proof.
  unfold is_password_key, password_key, spells, upper.
  rewrite orb_true_iff, !str_eqb_eq.
  rewrite <- (@folds_to_spec upper_char snd (letters "pwd" "PWD"))
    by (vm_compute; reflexivity).
  rewrite <- (@folds_to_spec upper_char snd (letters "password" "PASSWORD"))
    by (vm_compute; reflexivity).
  reflexivity.
Qed.

(** Each key of the section gets its line: the mask for a password key,
    the value for any other. *)
Lemma detail_lines_spec (dsn_config : section) :
  Forall2
    (fun kv line =>
       (password_key (fst kv) -> line = fst kv ++ " = ********") /\
       (~ password_key (fst kv) -> line = fst kv ++ " = " ++ snd kv))
    dsn_config (map detail_line dsn_config).
Proof.
  induction dsn_config as [|[k v] sec IH]; simpl; constructor; [|exact IH].
  unfold detail_line. cbn [fst snd].
  destruct (is_password_key k) eqn:E; split; intros H; try reflexivity.
  - exfalso. apply H, is_password_key_spec, E.
  - apply is_password_key_spec in H. congruence.
Qed.

Lemma same_but_passwords_lines (sec sec' : section) :
  Forall2 (fun kv kv' =>
             fst kv = fst kv' /\
             (~ password_key (fst kv) -> snd kv = snd kv')) sec sec' ->
  map detail_line sec = map detail_line sec'.
Proof.
  induction 1 as [|[k v] [k' v'] sec sec' [Hk Hv] _ IH]; simpl;
    [reflexivity|].
  cbn [fst snd] in *. subst k'. f_equal; [|exact IH].
  unfold detail_line. cbn [fst snd].
  destruct (is_password_key k) eqn:E; [reflexivity|].
  rewrite Hv; [reflexivity|]. intros H.
  apply is_password_key_spec in H. congruence.
Qed.

Lemma show_dsn_details_found (self : ODBCManager) (fs : filesystem)
    (dsn_name : str) (dsn_dict : store) (warnings : list str)
    (dsn_config : section) :
  opt_path_exists fs (odbcini self) = Returns true ->
  read_ini_file fs (odbcini self) = (Returns dsn_dict, warnings) ->
  dict_get dsn_name dsn_dict = Some dsn_config ->
  show_dsn_details self fs dsn_name =
    (Returns (Some dsn_config),
     [[nl] ++ "DSN: " ++ dsn_name; rule] ++ warnings
       ++ map detail_line dsn_config ++ [rule; []]).
Proof.
  intros He Hr Hg. unfold show_dsn_details.
  rewrite He, Hr, Hg. reflexivity.
Qed.

(** C10. When the DSN is found, [show_dsn_details] prints, between the
    head and the rule that ends the output, one line for each key of
    the section, in order: for a key that is [PWD] or [PASSWORD] in any
    casing the key with the mask [********] and nothing of the value,
    for every other key the key with its value.  So what it prints does
    not depend on the passwords: two files whose sections for the DSN
    have the same keys, and the same values under all keys but those,
    give the same output. *)
Theorem password_masked :
  forall (self : ODBCManager) (fs fs' : filesystem) (dsn_name : str)
         (dsn_dict dsn_dict' : store) (warnings : list str)
         (dsn_config dsn_config' : section),
    opt_path_exists fs (odbcini self) = Returns true ->
    opt_path_exists fs' (odbcini self) = Returns true ->
    read_ini_file fs (odbcini self) = (Returns dsn_dict, warnings) ->
    read_ini_file fs' (odbcini self) = (Returns dsn_dict', warnings) ->
    dict_get dsn_name dsn_dict = Some dsn_config ->
    dict_get dsn_name dsn_dict' = Some dsn_config' ->
    Forall2 (fun kv kv' =>
               fst kv = fst kv' /\
               (~ password_key (fst kv) -> snd kv = snd kv'))
      dsn_config dsn_config' ->
    exists lines,
      snd (show_dsn_details self fs dsn_name) =
        [[nl] ++ "DSN: " ++ dsn_name; rule] ++ warnings
          ++ lines ++ [rule; []] /\
      Forall2
        (fun kv line =>
           (password_key (fst kv) -> line = fst kv ++ " = ********") /\
           (~ password_key (fst kv) -> line = fst kv ++ " = " ++ snd kv))
        dsn_config lines /\
      snd (show_dsn_details self fs' dsn_name) =
        snd (show_dsn_details self fs dsn_name).
Proof.
  intros self fs fs' dsn_name dsn_dict dsn_dict' warnings dsn_config
    dsn_config' He He' Hr Hr' Hg Hg' Hsame.
  exists (map detail_line dsn_config).
  rewrite (show_dsn_details_found self fs dsn_name He Hr Hg).
  rewrite (show_dsn_details_found self fs' dsn_name He' Hr' Hg').
  cbn [snd]. split; [reflexivity|]. split; [apply detail_lines_spec|].
  now rewrite (same_but_passwords_lines Hsame).
Qed.

Lemma password_masked_witness :
  exists lines,
    snd (show_dsn_details sales_manager (sales_fs "secret") (str_of "Sales")) =
      [[nl] ++ "DSN: " ++ str_of "Sales"; rule] ++ []
        ++ lines ++ [rule; []] /\
    Forall2
      (fun kv line =>
         (password_key (fst kv) -> line = fst kv ++ " = ********") /\
         (~ password_key (fst kv) -> line = fst kv ++ " = " ++ snd kv))
      [(str_of "Driver", str_of "/usr/lib/foo.so");
       (str_of "UID", str_of "dba"); (str_of "PWD", str_of "secret")]
      lines /\
    snd (show_dsn_details sales_manager (sales_fs "hunter2") (str_of "Sales")) =
      snd (show_dsn_details sales_manager (sales_fs "secret") (str_of "Sales")).
Proof.
  eapply (@password_masked sales_manager (sales_fs "secret")
            (sales_fs "hunter2") (str_of "Sales")).
  - reflexivity.
  - reflexivity.
  - vm_compute. reflexivity.
  - vm_compute. reflexivity.
  - reflexivity.
  - reflexivity.
  - constructor; [split; [reflexivity | reflexivity]|].
    constructor; [split; [reflexivity | reflexivity]|].
    constructor; [|constructor].
    split; [reflexivity|]. intros H. exfalso. apply H. left.
    repeat (constructor; [right; reflexivity|]). constructor.
Defined.

(** The password of [Sales] is [secret]; the details show the mask, for
    [PWD] as for [Pwd] and [password]. *)
Example sales_details :
  snd (show_dsn_details sales_manager (sales_fs "secret") (str_of "Sales")) =
  [[nl] ++ str_of "DSN: Sales"; rule;
   str_of "Driver = /usr/lib/foo.so"; str_of "UID = dba";
   str_of "PWD = ********"; rule; []] /\
  map detail_line
    [(str_of "Pwd", str_of "secret"); (str_of "password", str_of "secret");
     (str_of "PWD2", str_of "shown")] =
  [str_of "Pwd = ********"; str_of "password = ********";
   str_of "PWD2 = shown"].
Proof. split; reflexivity. Qed.

(* ================================================================= *)
(** ** The order of strings and the sort *)

Lemma nat_of_ascii_inj (x y : ascii) :
  nat_of_ascii x = nat_of_ascii y -> x = y.
Proof.
  intros H. rewrite <- (ascii_nat_embedding x), <- (ascii_nat_embedding y).
  now rewrite H.
Qed.

Lemma str_leb_refl (a : str) : str_leb a a = true.
Proof.
  induction a as [|x a IH]; simpl; [reflexivity|].
  now rewrite Nat.ltb_irrefl.
Qed.

Lemma str_leb_total (a : str) :
  forall b, str_leb a b = true \/ str_leb b a = true.
Proof.
  induction a as [|x a IH]; intros [|y b]; simpl; auto.
  destruct (nat_of_ascii x <? nat_of_ascii y)%nat eqn:E1; [now left|].
  destruct (nat_of_ascii y <? nat_of_ascii x)%nat eqn:E2; [now right|].
  apply IH.
Qed.

Lemma str_leb_antisym (a : str) :
  forall b, str_leb a b = true -> str_leb b a = true -> a = b.
Proof.
  induction a as [|x a IH]; intros [|y b]; simpl; try discriminate; auto.
  destruct (nat_of_ascii x <? nat_of_ascii y)%nat eqn:E1;
    destruct (nat_of_ascii y <? nat_of_ascii x)%nat eqn:E2;
    try discriminate.
  - apply Nat.ltb_lt in E1, E2. lia.
  - apply Nat.ltb_ge in E1, E2. intros H1 H2.
    f_equal; [apply nat_of_ascii_inj; lia | now apply IH].
Qed.

Lemma str_leb_trans (a : str) :
  forall b c, str_leb a b = true -> str_leb b c = true -> str_leb a c = true.
Proof.
  induction a as [|x a IH]; intros [|y b] [|z c]; simpl; try discriminate;
    auto.
  destruct (nat_of_ascii x <? nat_of_ascii y)%nat eqn:E1;
    destruct (nat_of_ascii y <? nat_of_ascii x)%nat eqn:E2;
    destruct (nat_of_ascii y <? nat_of_ascii z)%nat eqn:E3;
    destruct (nat_of_ascii z <? nat_of_ascii y)%nat eqn:E4;
    destruct (nat_of_ascii x <? nat_of_ascii z)%nat eqn:E5;
    destruct (nat_of_ascii z <? nat_of_ascii x)%nat eqn:E6;
    try discriminate; try reflexivity;
    rewrite ?Nat.ltb_lt, ?Nat.ltb_ge in *; try lia.
  apply IH.
Qed.

Lemma insert_sorted_perm (x : str) (l : list str) :
  Permutation (insert_sorted x l) (x :: l).
Proof.
  induction l as [|y l IH]; simpl; [reflexivity|].
  destruct (str_leb x y); [reflexivity|].
  rewrite IH. apply perm_swap.
Qed.

Lemma sorted_perm (l : list str) : Permutation (sorted l) l.
Proof.
  induction l as [|x l IH]; simpl; [reflexivity|].
  rewrite insert_sorted_perm. now constructor.
Qed.

Lemma insert_sorted_sorted (x : str) (l : list str) :
  StronglySorted str_le l -> StronglySorted str_le (insert_sorted x l).
Proof.
  induction 1 as [|y l Hl IH Hy]; simpl; [repeat constructor|].
  destruct (str_leb x y) eqn:E.
  - constructor; [now constructor|]. constructor; [exact E|].
    eapply Forall_impl; [|exact Hy]. intros z Hz.
    now apply str_leb_trans with y.
  - constructor; [exact IH|].
    apply Permutation_Forall with (x :: l);
      [symmetry; apply insert_sorted_perm|].
    constructor; [|exact Hy].
    destruct (str_leb_total x y) as [H|H]; [congruence | exact H].
Qed.

Lemma sorted_sorted (l : list str) : StronglySorted str_le (sorted l).
Proof.
  induction l as [|x l IH]; simpl; [constructor|].
  now apply insert_sorted_sorted.
Qed.

Lemma sorted_in (x : str) (l : list str) : In x (sorted l) <-> In x l.
Proof.
  split; apply Permutation_in; [|symmetry]; apply sorted_perm.
Qed.

Lemma sorted_nodup (l : list str) : NoDup l -> NoDup (sorted l).
Proof. apply Permutation_NoDup. symmetry. apply sorted_perm. Qed.

(** A sorted list without repetition is strictly increasing. *)
Lemma sorted_strict (l : list str) :
  StronglySorted str_le l -> NoDup l -> StronglySorted str_lt l.
Proof.
  induction 1 as [|x l Hl IH Hx]; intros Hnd; [constructor|].
  inversion Hnd as [|? ? Hnotin Hnd']; subst.
  constructor; [now apply IH|].
  rewrite Forall_forall in *. intros y Hy. split; [now apply Hx|].
  intros ->. contradiction.
Qed.

Lemma strongly_sorted_app (R : str -> str -> Prop) (l1 l2 : list str) :
  StronglySorted R l1 -> StronglySorted R l2 ->
  (forall a b, In a l1 -> In b l2 -> R a b) ->
  StronglySorted R (l1 ++ l2).
Proof.
  induction 1 as [|x l1 Hl IH Hx]; intros H2 Hc; simpl; [exact H2|].
  constructor.
  - apply IH; [exact H2|]. intros a b Ha Hb. apply Hc; [now right | exact Hb].
  - apply Forall_app. split; [exact Hx|].
    rewrite Forall_forall. intros b Hb. apply Hc; [now left | exact Hb].
Qed.

Lemma strongly_sorted_weaken (R1 R2 : str -> str -> Prop) (l : list str) :
  StronglySorted R1 l ->
  (forall a b, In a l -> In b l -> R1 a b -> R2 a b) ->
  StronglySorted R2 l.
Proof.
  induction 1 as [|x l Hl IH Hx]; intros Hw; [constructor|].
  constructor.
  - apply IH. intros a b Ha Hb. apply Hw; now right.
  - rewrite Forall_forall in *. intros y Hy.
    apply Hw; [now left | now right | now apply Hx].
Qed.

Lemma strongly_sorted_flat_map (R : str -> str -> Prop)
    (f : str -> list str) (ds : list str) :
  StronglySorted str_lt ds ->
  (forall d, In d ds -> StronglySorted R (f d)) ->
  (forall d d' a b, In d ds -> In d' ds -> str_lt d d' ->
     In a (f d) -> In b (f d') -> R a b) ->
  StronglySorted R (flat_map f ds).
Proof.
  induction 1 as [|d ds Hds IH Hd]; intros Hblock Hcross; simpl;
    [constructor|].
  apply strongly_sorted_app.
  - apply Hblock. now left.
  - apply IH.
    + intros d' Hd'. apply Hblock. now right.
    + intros d1 d2 a b H1 H2. apply Hcross; now right.
  - intros a b Ha Hb. apply in_flat_map in Hb. destruct Hb as (d' & Hd' & Hb).
    rewrite Forall_forall in Hd.
    apply (Hcross d d' a b); auto; [now left | now right].
Qed.

(* ================================================================= *)
(** ** Grouping by driver *)

Lemma default_get_set_same (k : str) (l : list str) (g : dict (list str)) :
  default_get k (dict_set k l g) = l.
Proof. unfold default_get. now rewrite dict_get_set_same. Qed.

Lemma default_get_set_other (k k' : str) (l : list str)
    (g : dict (list str)) :
  k' <> k -> default_get k' (dict_set k l g) = default_get k' g.
Proof. intros H. unfold default_get. now rewrite dict_get_set_other. Qed.

Lemma group_fold (dsn_dict : store) :
  forall g : dict (list str),
    NoDup (keys g) ->
    NoDup (keys (fold_left group_append dsn_dict g)) /\
    (forall d, default_get d (fold_left group_append dsn_dict g) =
               default_get d g ++ names_with d dsn_dict) /\
    (forall d, In d (keys (fold_left group_append dsn_dict g)) <->
               In d (keys g) \/
               exists e, In e dsn_dict /\ driver_of (snd e) = d).
Proof.
  induction dsn_dict as [|e P IH]; intros g Hg; simpl.
  - split; [exact Hg|]. split.
    + intros d. now rewrite List.app_nil_r.
    + intros d. split; [tauto|]. intros [H|(e & [] & _)]. exact H.
  - destruct (IH (group_append g e)) as (Hnd & Hget & Hkeys).
    { unfold group_append. now apply dict_set_nodup. }
    split; [exact Hnd|]. split.
    + intros d. rewrite Hget. unfold group_append, names_with. simpl.
      destruct (str_eqb (driver_of (snd e)) d) eqn:E.
      * apply str_eqb_eq in E. subst d. rewrite default_get_set_same.
        simpl. now rewrite <- app_assoc.
      * apply str_eqb_neq in E.
        rewrite default_get_set_other by congruence. reflexivity.
    + intros d. rewrite Hkeys. unfold group_append.
      rewrite dict_set_in_keys. split.
      * intros [[->|H]|(e' & He' & Hd)]; eauto.
      * intros [H|(e' & [<-|He'] & Hd)]; eauto.
Qed.

Lemma sort_fold (ds : list str) :
  forall g : dict (list str),
    NoDup ds -> (forall d, In d ds -> In d (keys g)) ->
    let g' :=
      fold_left
        (fun g driver => dict_set driver (sorted (default_get driver g)) g)
        ds g in
    keys g' = keys g /\
    (forall d, In d ds -> default_get d g' = sorted (default_get d g)) /\
    (forall d, ~ In d ds -> default_get d g' = default_get d g).
Proof.
  induction ds as [|d0 ds IH]; intros g Hnd Hin; simpl.
  - split; [reflexivity|]. split; [tauto | reflexivity].
  - inversion Hnd as [|? ? Hnot Hnd']; subst.
    set (g1 := dict_set d0 (sorted (default_get d0 g)) g).
    assert (Hk1 : keys g1 = keys g).
    { apply dict_set_keys_present, Hin. now left. }
    destruct (IH g1 Hnd') as (Hk & Hs & Ho).
    { intros d Hd. rewrite Hk1. apply Hin. now right. }
    split; [now rewrite Hk|]. split.
    + intros d [<-|Hd].
      * rewrite Ho by exact Hnot. apply default_get_set_same.
      * rewrite Hs by exact Hd. unfold g1.
        rewrite default_get_set_other; [reflexivity|].
        intros ->. contradiction.
    + intros d Hd. rewrite Ho by tauto. unfold g1.
      apply default_get_set_other. intros ->. apply Hd. now left.
Qed.

Lemma fold_left_snoc (l : list str) :
  forall acc, fold_left (fun acc x => acc ++ [x]) l acc = acc ++ l.
Proof.
  induction l as [|x l IH]; intros acc; simpl;
    [now rewrite List.app_nil_r|].
  rewrite IH. now rewrite <- app_assoc.
Qed.

Lemma fold_left_extend (f : str -> list str) (l : list str) :
  forall acc,
    fold_left (fun acc d => acc ++ f d) l acc = acc ++ flat_map f l.
Proof.
  induction l as [|x l IH]; intros acc; simpl;
    [now rewrite List.app_nil_r|].
  rewrite IH. now rewrite <- app_assoc.
Qed.

Lemma fold_left_pointwise (f h : list str -> str -> list str) (l : list str) :
  (forall acc x, f acc x = h acc x) ->
  forall acc, fold_left f l acc = fold_left h l acc.
Proof.
  intros H. induction l as [|x l IH]; intros acc; simpl; [reflexivity|].
  now rewrite H, IH.
Qed.

(** With or without the details, the list returned is the groups one
    after the other, in the sorted order of the drivers. *)
Lemma numbered_dsns_flat (g : dict (list str)) (show_details : bool) :
  numbered_dsns g show_details =
  flat_map (fun d => default_get d g) (sorted (keys g)).
Proof.
  unfold numbered_dsns.
  transitivity
    (fold_left (fun acc d => acc ++ default_get d g) (sorted (keys g)) []).
  - destruct show_details; [|reflexivity].
    apply fold_left_pointwise. intros acc d. apply fold_left_snoc.
  - apply (fold_left_extend (fun d => default_get d g)).
Qed.

Lemma flat_map_ext_in (f h : str -> list str) (l : list str) :
  (forall d, In d l -> f d = h d) -> flat_map f l = flat_map h l.
Proof.
  induction l as [|x l IH]; intros H; simpl; [reflexivity|].
  rewrite H by (now left). rewrite IH; [reflexivity|].
  intros d Hd. apply H. now right.
Qed.

Lemma ListDsns_flat (dsn_dict : store) (show_details : bool) :
  ListDsns dsn_dict show_details =
  flat_map (fun d => sorted (names_with d dsn_dict))
    (sorted (keys (group_by_driver dsn_dict))).
Proof.
  unfold ListDsns. rewrite numbered_dsns_flat. unfold sort_groups.
  destruct (@group_fold dsn_dict [] (NoDup_nil _)) as (Hnd & Hget & _).
  fold (group_by_driver dsn_dict) in *.
  destruct (@sort_fold (sorted (keys (group_by_driver dsn_dict)))
              (group_by_driver dsn_dict)) as (Hk & Hs & _).
  { now apply sorted_nodup. }
  { intros d. apply sorted_in. }
  rewrite Hk. apply flat_map_ext_in. intros d Hd.
  rewrite Hs by exact Hd. now rewrite Hget.
Qed.

Lemma flat_map_pointwise_perm (f h : str -> list str) (l : list str) :
  (forall d, Permutation (f d) (h d)) ->
  Permutation (flat_map f l) (flat_map h l).
Proof.
  intros H. induction l as [|x l IH]; simpl; [reflexivity|].
  now apply Permutation_app.
Qed.

Lemma flat_map_skip (d0 x : str) (h : str -> list str) (ds : list str) :
  ~ In d0 ds ->
  flat_map (fun d => (if str_eqb d0 d then [x] else []) ++ h d) ds =
  flat_map h ds.
Proof.
  induction ds as [|d ds IH]; simpl; intros H; [reflexivity|].
  destruct (str_eqb d0 d) eqn:E.
  - apply str_eqb_eq in E. subst d. exfalso. apply H. now left.
  - simpl. rewrite IH by tauto. reflexivity.
Qed.

Lemma flat_map_insert (d0 x : str) (h : str -> list str) (ds : list str) :
  NoDup ds -> In d0 ds ->
  Permutation
    (flat_map (fun d => (if str_eqb d0 d then [x] else []) ++ h d) ds)
    (x :: flat_map h ds).
Proof.
  induction 1 as [|d ds Hnot Hnd IH]; simpl; intros Hin; [tauto|].
  destruct (str_eqb d0 d) eqn:E.
  - apply str_eqb_eq in E. subst d. simpl.
    rewrite flat_map_skip by exact Hnot. reflexivity.
  - apply str_eqb_neq in E. destruct Hin as [->|Hin]; [congruence|].
    simpl. rewrite (IH Hin). symmetry. apply Permutation_middle.
Qed.

Lemma names_with_cons (d : str) (e : str * section) (dsn_dict : store) :
  names_with d (e :: dsn_dict) =
  (if str_eqb (driver_of (snd e)) d then [fst e] else [])
    ++ names_with d dsn_dict.
Proof.
  unfold names_with. simpl. now destruct (str_eqb (driver_of (snd e)) d).
Qed.

(** Every DSN is in the group of its driver and in no other. *)
Lemma groups_partition (dsn_dict : store) (ds : list str) :
  NoDup ds ->
  (forall e, In e dsn_dict -> In (driver_of (snd e)) ds) ->
  Permutation (flat_map (fun d => names_with d dsn_dict) ds) (keys dsn_dict).
Proof.
  intros Hnd. induction dsn_dict as [|e P IH]; intros Hall.
  - replace (flat_map (fun d => names_with d []) ds) with (@nil str);
      [constructor|].
    clear. induction ds as [|d ds IH]; [reflexivity | exact IH].
  - rewrite (flat_map_ext _ _ (fun d => names_with_cons d e P)).
    rewrite flat_map_insert;
      [|exact Hnd | apply Hall; now left].
    simpl. constructor. apply IH. intros e' He'. apply Hall. now right.
Qed.

Lemma dict_get_of_in (V : Type) (k : str) (v : V) (d : dict V) :
  NoDup (keys d) -> In (k, v) d -> dict_get k d = Some v.
Proof.
  induction d as [|[k' v'] d IH]; simpl; intros Hnd Hin; [tauto|].
  inversion Hnd as [|? ? Hnot Hnd']; subst.
  destruct Hin as [[= -> ->]|Hin]; [now rewrite str_eqb_refl|].
  destruct (str_eqb k' k) eqn:E; [|now apply IH].
  apply str_eqb_eq in E. subst k'. exfalso. apply Hnot.
  apply (in_map fst) in Hin. exact Hin.
Qed.

Lemma names_with_driver (d a : str) (dsn_dict : store) :
  NoDup (keys dsn_dict) -> In a (names_with d dsn_dict) ->
  dsn_driver dsn_dict a = d.
Proof.
  intros Hnd Hin. unfold names_with in Hin. apply in_map_iff in Hin.
  destruct Hin as ([k cfg] & <- & Hf). apply filter_In in Hf.
  destruct Hf as [He Hd]. simpl in *. apply str_eqb_eq in Hd.
  unfold dsn_driver. now rewrite (dict_get_of_in _ _ _ Hnd He).
Qed.

(** The listing holds the names of the store, sorted by driver and
    name (shared by the statements below). *)
Lemma ListDsns_grouped_order_aux (dsn_dict : store) (show_details : bool) :
  NoDup (keys dsn_dict) ->
  Permutation (ListDsns dsn_dict show_details) (keys dsn_dict) /\
  StronglySorted (by_driver_then_name dsn_dict)
    (ListDsns dsn_dict show_details).
Proof.
  intros Hnd. rewrite ListDsns_flat.
  destruct (@group_fold dsn_dict [] (NoDup_nil _)) as (Hgnd & _ & Hkeys).
  fold (group_by_driver dsn_dict) in *.
  set (ds := keys (group_by_driver dsn_dict)) in *. split.
  - rewrite (flat_map_pointwise_perm
               (fun d => sorted (names_with d dsn_dict))
               (fun d => names_with d dsn_dict))
      by (intros d; apply sorted_perm).
    rewrite (Permutation_flat_map _ (sorted_perm ds)).
    apply groups_partition; [exact Hgnd|].
    intros e He. apply Hkeys. right. eauto.
  - apply strongly_sorted_flat_map.
    + apply sorted_strict; [apply sorted_sorted | now apply sorted_nodup].
    + intros d _. apply strongly_sorted_weaken with str_le;
        [apply sorted_sorted|].
      intros a b Ha Hb Hab. right.
      apply -> sorted_in in Ha. apply -> sorted_in in Hb.
      rewrite (names_with_driver _ _ _ Hnd Ha).
      rewrite (names_with_driver _ _ _ Hnd Hb). now split.
    + intros d d' a b _ _ Hlt Ha Hb. left.
      apply -> sorted_in in Ha. apply -> sorted_in in Hb.
      rewrite (names_with_driver _ _ _ Hnd Ha).
      now rewrite (names_with_driver _ _ _ Hnd Hb).
Qed.





(** The example of the specification. *)
Example ListDsns_zeta_alpha_beta :
  ListDsns zeta_alpha_beta false =
    [str_of "Alpha"; str_of "Beta"; str_of "Zeta"] /\
  ListDsns zeta_alpha_beta true =
    [str_of "Alpha"; str_of "Beta"; str_of "Zeta"].
Proof. split; reflexivity. Qed.

(** The driver comes before the name: [Zeta] with driver [A] is listed
    before [Alpha] with driver [B]; the key is found whatever its case
    and its value is stripped; a DSN without the key goes under
    ['unknown']. *)
Example ListDsns_driver_first :
  ListDsns
    [(str_of "Alpha", [(str_of "DRIVER", str_of " B ")]);
     (str_of "Mid", [(str_of "Host", str_of "db1")]);
     (str_of "Zeta", [(str_of "driver", str_of "A")])] true =
    [str_of "Zeta"; str_of "Alpha"; str_of "Mid"].
Proof. reflexivity. Qed.

(** A DSN without a driver key is listed under ['unknown'], and the key
    is found whatever its case. *)
Example driver_of_examples :
  driver_of [(str_of "Host", str_of "db1")] = str_of "unknown" /\
  driver_of [(str_of "DRIVER", str_of "A")] = str_of "A" /\
  driver_of [(str_of "driver", str_of "A")] = str_of "A".
Proof. repeat split; reflexivity. Qed.

(** [list_dsns_grouped] on the file: the listing of the store read. *)
Lemma list_dsns_grouped_spec (self : ODBCManager) (fs : filesystem)
    (show_details : bool) (dsn_dict : store) (warnings : list str) :
  opt_path_exists fs (odbcini self) = Returns true ->
  read_ini_file fs (odbcini self) = (Returns dsn_dict, warnings) ->
  list_dsns_grouped self fs show_details =
    Returns (ListDsns dsn_dict show_details).
Proof.
  intros He Hr. unfold list_dsns_grouped. rewrite He, Hr. cbn [fst].
  destruct dsn_dict; [now destruct show_details | reflexivity].
Qed.

(* ================================================================= *)
(** ** More on [read_ini_file] *)

(** The store [read_ini_file] returns is as the loop builds it. *)
Lemma read_ini_file_store_ok (fs : filesystem) (filepath : option str)
    (s : store) (out : list str) :
  read_ini_file fs filepath = (Returns s, out) -> store_ok s.
Proof.
  assert (Hnil : store_ok []) by (split; constructor).
  unfold read_ini_file, open_file.
  destruct filepath as [p|]; [|now intros [= <- _]].
  destruct (is_empty p); [now intros [= <- _]|].
  destruct (path_exists fs p) as [[|]|e];
    [|now intros [= <- _] | discriminate].
  destruct (fs p) as [|e|e|content fault]; try (now intros [= <- _]).
  pose proof (parse_lines_consistent (readlines content) consistent_init)
    as [Hnone _].
  pose proof (@parse_lines_store_ok (readlines content) init_pstate
                (readlines_one_line content) consistent_init Hnil) as Hok.
  destruct (parse_lines (readlines content) init_pstate) as [st raised].
  simpl in *. subst raised.
  destruct fault; now intros [= <- _].
Qed.

(** X1. The store [read_ini_file] returns, whatever the file, is tidy:
    no section has a reserved name, names, keys and values carry no
    whitespace at their ends, the keys of a section are pairwise
    distinct, and no key holds ['='] or starts like a comment. *)
Theorem read_ini_file_tidy :
  forall (fs : filesystem) (filepath : option str) (s : store)
         (out : list str) (name : str) (sec : section),
    read_ini_file fs filepath = (Returns s, out) ->
    In (name, sec) s ->
    strip name = name /\ reserved name = false /\ NoDup (keys sec) /\
    forall key value,
      In (key, value) sec ->
      strip key = key /\ strip value = value /\
      contains "=" key = false /\
      startswith "#" key = false /\ startswith ";" key = false.
Proof.
  intros fs filepath s out name sec Hread Hin.
  destruct (read_ini_file_store_ok _ _ Hread) as [_ Hall].
  rewrite Forall_forall in Hall.
  destruct (Hall _ Hin) as [(Ht & _ & Hr) [Hnd Hkv]]. simpl in *.
  repeat split; auto using strip_tight_self;
    rewrite Forall_forall in Hkv;
    destruct (Hkv _ H) as (Hk & Hv & _ & _ & He & Hh & Hs & _);
    auto using strip_tight_self.
Qed.

Lemma read_ini_file_tidy_witness :
  strip (str_of "Sales") = str_of "Sales" /\
  reserved (str_of "Sales") = false /\
  NoDup (keys [(str_of "Driver", str_of "/usr/lib/foo.so");
               (str_of "UID", str_of "dba");
               (str_of "PWD", str_of "secret")]) /\
  forall key value,
    In (key, value) [(str_of "Driver", str_of "/usr/lib/foo.so");
                     (str_of "UID", str_of "dba");
                     (str_of "PWD", str_of "secret")] ->
    strip key = key /\ strip value = value /\
    contains "=" key = false /\
    startswith "#" key = false /\ startswith ";" key = false.
Proof.
  apply (@read_ini_file_tidy (sales_fs "secret") (Some (str_of "odbc.ini"))
           [(str_of "Sales",
             [(str_of "Driver", str_of "/usr/lib/foo.so");
              (str_of "UID", str_of "dba");
              (str_of "PWD", str_of "secret")])] [] (str_of "Sales")).
  - vm_compute. reflexivity.
  - left. reflexivity.
Defined.

Lemma fold_last_value (key : str) (body : list str) :
  forall sec : section,
    dict_get key (fold_left add_key_line body sec) =
    fold_left
      (fun acc raw =>
         match classify raw with
         | KeyValue k v => if str_eqb k key then Some v else acc
         | _ => acc
         end)
      body (dict_get key sec).
Proof.
  induction body as [|l body IH]; intros sec; simpl; [reflexivity|].
  rewrite IH. f_equal. unfold add_key_line.
  destruct (classify l) as [|n|k v|]; try reflexivity.
  destruct (str_eqb k key) eqn:E.
  - apply str_eqb_eq in E. subst k. apply dict_get_set_same.
  - apply str_eqb_neq in E. apply dict_get_set_other. congruence.
Qed.

(** X2. In the section a header opens, a key holds the value of the
    last line of the body that assigns it, and no value when no line
    does. *)
Theorem last_assignment_wins :
  forall (pre body : list str) (hdr name : str),
    classify hdr = Header name -> reserved name = false ->
    (forall l, In l body -> is_header l = false) ->
    exists sec,
      dict_get (fresh_name (dsn_dict (after_lines pre)) name)
        (dsn_dict (after_lines (pre ++ hdr :: body))) = Some sec /\
      forall key, dict_get key sec = last_value key body.
Proof.
  intros pre body hdr name Hhdr Hres Hbody. unfold after_lines.
  rewrite (parse_lines_app pre (hdr :: body) consistent_init).
  set (st := fst (parse_lines pre init_pstate)).
  rewrite (@parse_lines_cons hdr body st (open_section st name))
    by (now rewrite step_classify, Hhdr, Hres).
  pose proof (open_section_store st name) as Hs.
  pose proof (fresh_name_unused (dsn_dict st) name) as Hun.
  unfold open_section in *. simpl in Hs. rewrite Hs.
  rewrite parse_body by auto. simpl.
  exists (fold_left add_key_line body []). split.
  - now apply dict_get_last.
  - intros key. apply fold_last_value.
Qed.

Lemma last_assignment_wins_witness :
  exists sec,
    dict_get (fresh_name (dsn_dict (after_lines [])) (str_of "A"))
      (dsn_dict (after_lines ([] ++ str_of "[A]"
                                :: [str_of "k = 1"; str_of "k = 2"])))
      = Some sec /\
    forall key,
      dict_get key sec = last_value key [str_of "k = 1"; str_of "k = 2"].
Proof.
  apply (@last_assignment_wins [] [str_of "k = 1"; str_of "k = 2"]
           (str_of "[A]") (str_of "A")).
  - reflexivity.
  - reflexivity.
  - intros l [<-|[<-|[]]]; reflexivity.
Defined.

(** X3. Lines that are neither headers nor key lines -- blank lines,
    comments, anything else -- count for nothing: the loop ends in the
    same state without them. *)
Theorem insignificant_lines_ignored :
  forall (ls : list str) (st : pstate),
    parse_lines (filter significant ls) st = parse_lines ls st.
Proof.
  induction ls as [|l ls IH]; intros st; simpl; [reflexivity|].
  unfold significant at 1. rewrite (step_classify st l).
  destruct (classify l) as [|n|k v|] eqn:E; simpl;
    rewrite ?(step_classify st l), ?E; try apply IH.
  - destruct (reserved n); apply IH.
  - destruct (current_section st); [|apply IH].
    destruct (dict_get s (dsn_dict st)); [apply IH | reflexivity].
Qed.

Lemma parse_closed (body : list str) :
  forall (d : store) (out : list str),
    (forall l, In l body -> is_header l = false) ->
    parse_lines body (mk_pstate d None out) = (mk_pstate d None out, None).
Proof.
  induction body as [|l body IH]; intros d out Hb; [reflexivity|].
  rewrite <- (IH d out) by (intros; apply Hb; now right).
  apply parse_lines_cons. rewrite step_classify.
  specialize (Hb l (or_introl eq_refl)). unfold is_header in Hb.
  destruct (classify l); try reflexivity. discriminate.
Qed.

(** X4. A reserved header closes the section before it: the key lines
    that follow it, up to the next header, go nowhere, and nothing is
    printed for them. *)
Theorem reserved_block_dropped :
  forall (pre body : list str) (hdr name : str),
    classify hdr = Header name -> reserved name = true ->
    (forall l, In l body -> is_header l = false) ->
    dsn_dict (after_lines (pre ++ hdr :: body)) = dsn_dict (after_lines pre)
    /\ printed (after_lines (pre ++ hdr :: body)) = printed (after_lines pre)
    /\ current_section (after_lines (pre ++ hdr :: body)) = None.
Proof.
  intros pre body hdr name Hhdr Hres Hbody. unfold after_lines.
  rewrite (parse_lines_app pre (hdr :: body) consistent_init).
  set (st := fst (parse_lines pre init_pstate)).
  rewrite (@parse_lines_cons hdr body st
             (mk_pstate (dsn_dict st) None (printed st)))
    by (now rewrite step_classify, Hhdr, Hres).
  rewrite parse_closed by exact Hbody. simpl. auto.
Qed.

Lemma reserved_block_dropped_witness :
  dsn_dict (after_lines ([str_of "[A]"] ++ str_of "[ODBC Data Sources]"
                           :: [str_of "A = Some Driver"])) =
    dsn_dict (after_lines [str_of "[A]"])
  /\ printed (after_lines ([str_of "[A]"] ++ str_of "[ODBC Data Sources]"
                             :: [str_of "A = Some Driver"])) =
       printed (after_lines [str_of "[A]"])
  /\ current_section
       (after_lines ([str_of "[A]"] ++ str_of "[ODBC Data Sources]"
                       :: [str_of "A = Some Driver"])) = None.
Proof.
  apply (@reserved_block_dropped [str_of "[A]"] [str_of "A = Some Driver"]
           (str_of "[ODBC Data Sources]") (str_of "ODBC Data Sources")).
  - reflexivity.
  - reflexivity.
  - intros l [<-|[]]. reflexivity.
Defined.

Lemma readlines_crlf (text : str) :
  ~ In cr text -> readlines (to_crlf text) = readlines text.
Proof.
  induction text as [|c text IH]; intros Hcr; [reflexivity|].
  assert (Hc : c <> cr) by (intros ->; apply Hcr; now left).
  assert (Ht : ~ In cr text) by (intros H; apply Hcr; now right).
  unfold to_crlf in *. cbn [flat_map].
  destruct (char_eqb c nl) eqn:E.
  - apply char_eqb_eq in E. subst c. cbn [app].
    change (readlines (cr :: nl :: flat_map
              (fun c => if char_eqb c nl then [cr; nl] else [c]) text))
      with ([nl] :: readlines (flat_map
              (fun c => if char_eqb c nl then [cr; nl] else [c]) text)).
    rewrite IH by exact Ht. reflexivity.
  - cbn [app]. apply char_eqb_neq in Hc. simpl. rewrite E, Hc.
    now rewrite IH by exact Ht.
Qed.

(** X22. A file with Windows line ends reads like the same file with
    Unix line ends: the store and the warnings are the same. *)
Theorem crlf_file_reads_the_same :
  forall rawText : str,
    ~ In cr rawText -> Parse (to_crlf rawText) = Parse rawText.
Proof.
  intros rawText H. unfold Parse. now rewrite readlines_crlf.
Qed.

Lemma crlf_file_reads_the_same_witness :
  Parse (to_crlf (text_of ["[A]"; "k = 1"])) = Parse (text_of ["[A]"; "k = 1"]).
Proof.
  apply (@crlf_file_reads_the_same (text_of ["[A]"; "k = 1"])).
  vm_compute. intuition discriminate.
Defined.

(* ================================================================= *)
(** ** More on the registry *)

Lemma find_driver_name_spec :
  forall (odbcinst_config : store) (driver_setting : str),
    match find_driver_name odbcinst_config driver_setting with
    | Some driver_name =>
        exists before driver_config rest,
          odbcinst_config = before ++ (driver_name, driver_config) :: rest /\
          dict_get "Driver" driver_config = Some driver_setting /\
          forall entry, In entry before ->
            dict_get "Driver" (snd entry) <> Some driver_setting
    | None =>
        forall entry, In entry odbcinst_config ->
          dict_get "Driver" (snd entry) <> Some driver_setting
    end.
Proof.
  intros cfg path. induction cfg as [|[name sec] cfg IH];
    cbn [find_driver_name]; [intros entry []|].
  assert (Hnext :
    dict_get "Driver" sec <> Some path ->
    match find_driver_name cfg path with
    | Some driver_name =>
        exists before driver_config rest,
          (name, sec) :: cfg = before ++ (driver_name, driver_config) :: rest
          /\ dict_get "Driver" driver_config = Some path
          /\ forall entry, In entry before ->
               dict_get "Driver" (snd entry) <> Some path
    | None =>
        forall entry, In entry ((name, sec) :: cfg) ->
          dict_get "Driver" (snd entry) <> Some path
    end).
  { intros Hne. destruct (find_driver_name cfg path) as [found|].
    - destruct IH as (before & dc & rest & -> & Hd & Hb).
      exists ((name, sec) :: before), dc, rest.
      split; [reflexivity|]. split; [exact Hd|].
      intros entry [<-|Hin]; [exact Hne | now apply Hb].
    - intros entry [<-|Hin]; [exact Hne | now apply IH]. }
  destruct (dict_get "Driver" sec) as [value|] eqn:Eg.
  - destruct (str_eqb value path) eqn:E.
    + apply str_eqb_eq in E. subst value.
      exists [], sec, cfg. split; [reflexivity|]. split; [exact Eg|].
      intros entry Hin. destruct Hin.
    + apply str_eqb_neq in E. apply Hnext. congruence.
  - apply Hnext. discriminate.
Qed.

(** X5. The scan for the driver of a path gives the first section, in
    the order of [odbcinst.ini], whose [Driver] is the path, and nothing
    exactly when no section has it. *)
Theorem find_driver_name_first_match :
  forall (odbcinst_config : store) (driver_setting : str),
    match find_driver_name odbcinst_config driver_setting with
    | Some driver_name =>
        exists before driver_config rest,
          odbcinst_config = before ++ (driver_name, driver_config) :: rest /\
          dict_get "Driver" driver_config = Some driver_setting /\
          forall entry, In entry before ->
            dict_get "Driver" (snd entry) <> Some driver_setting
    | None =>
        forall entry, In entry odbcinst_config ->
          dict_get "Driver" (snd entry) <> Some driver_setting
    end.
Proof. exact find_driver_name_spec. Qed.

(** X6. [list_dsns_grouped] returns the same list with the details and
    without: the loop that appends the names one by one while it prints
    them and the loop that extends the list group by group agree. *)
Theorem list_dsns_grouped_same_list :
  forall (self : ODBCManager) (fs : filesystem),
    list_dsns_grouped self fs true = list_dsns_grouped self fs false.
Proof.
  intros self fs. unfold list_dsns_grouped.
  destruct (opt_path_exists fs (odbcini self)) as [[|]|e]; try reflexivity.
  destruct (fst (read_ini_file fs (odbcini self))) as [[|e s]|];
    try reflexivity.
  now rewrite !ListDsns_flat.
Qed.

Lemma dict_get_perm (V : Type) (k : str) (d d' : dict V) :
  NoDup (keys d) -> Permutation d d' -> dict_get k d = dict_get k d'.
Proof.
  intros Hnd Hp.
  assert (Hnd' : NoDup (keys d')).
  { eapply Permutation_NoDup; [|exact Hnd]. now apply Permutation_map. }
  destruct (dict_get k d) as [v|] eqn:E.
  - symmetry. apply dict_get_of_in; [exact Hnd'|].
    eapply Permutation_in; [exact Hp|]. now apply dict_get_in.
  - symmetry. apply dict_get_none. apply dict_get_none in E.
    intros Hin. apply E. eapply Permutation_in; [|exact Hin].
    apply Permutation_map. now symmetry.
Qed.

Lemma by_driver_then_name_antisym (dsn_dict : store) (a b : str) :
  by_driver_then_name dsn_dict a b -> by_driver_then_name dsn_dict b a ->
  a = b.
Proof.
  unfold by_driver_then_name, str_lt.
  intros [[H1 N1]|[E1 L1]] [[H2 N2]|[E2 L2]].
  - exfalso. apply N1. now apply str_leb_antisym.
  - congruence.
  - congruence.
  - now apply str_leb_antisym.
Qed.

(** Two lists sorted by an antisymmetric relation that hold the same
    elements are the same list. *)
Lemma sorted_unique (R : str -> str -> Prop) (l : list str) :
  (forall a b, R a b -> R b a -> a = b) ->
  forall l', StronglySorted R l -> StronglySorted R l' ->
    Permutation l l' -> l = l'.
Proof.
  intros Hanti. induction l as [|a l IH]; intros l' Hl Hl' Hp.
  - apply Permutation_nil in Hp. now subst.
  - destruct l' as [|a' l'];
      [symmetry in Hp; now apply Permutation_nil in Hp|].
    apply StronglySorted_inv in Hl, Hl'.
    destruct Hl as [Hl Ha]. destruct Hl' as [Hl' Ha'].
    rewrite Forall_forall in Ha, Ha'.
    assert (E : a = a').
    { assert (H1 : In a (a' :: l'))
        by (eapply Permutation_in; [exact Hp | now left]).
      assert (H2 : In a' (a :: l))
        by (eapply Permutation_in; [symmetry; exact Hp | now left]).
      destruct H1 as [->|H1]; [reflexivity|].
      destruct H2 as [->|H2]; [reflexivity|].
      apply Hanti; [now apply Ha | now apply Ha']. }
    subst a'. f_equal. apply IH; auto.
    now apply Permutation_cons_inv in Hp.
Qed.

(** X7. The listing does not depend on the order of the sections in
    the file: two stores with the same sections give the same list. *)
Theorem ListDsns_order_independent :
  forall (dsn_dict dsn_dict' : store) (show_details show_details' : bool),
    NoDup (keys dsn_dict) -> Permutation dsn_dict dsn_dict' ->
    ListDsns dsn_dict show_details = ListDsns dsn_dict' show_details'.
Proof.
  intros d d' b b' Hnd Hp.
  assert (Hnd' : NoDup (keys d')).
  { eapply Permutation_NoDup; [|exact Hnd]. now apply Permutation_map. }
  destruct (ListDsns_grouped_order_aux d b Hnd) as [P1 S1].
  destruct (ListDsns_grouped_order_aux d' b' Hnd') as [P2 S2].
  apply sorted_unique with (by_driver_then_name d).
  - apply by_driver_then_name_antisym.
  - exact S1.
  - eapply strongly_sorted_weaken; [exact S2|].
    intros x y _ _. unfold by_driver_then_name, dsn_driver.
    now rewrite <- !(dict_get_perm _ Hnd Hp).
  - rewrite P1, P2. now apply Permutation_map.
Qed.

Lemma ListDsns_order_independent_witness :
  ListDsns zeta_alpha_beta false = ListDsns (rev zeta_alpha_beta) true.
Proof.
  apply (@ListDsns_order_independent zeta_alpha_beta (rev zeta_alpha_beta)).
  - repeat constructor; simpl; intuition discriminate.
  - apply Permutation_rev.
Defined.



(** A driver whose library lies where one may not look: the listing
    raises after the head and returns no list. *)
Example list_drivers_raises :
  let fs : filesystem :=
    fun p =>
      if str_eqb p "odbcinst.ini"
      then Text (text_of ["[Foo]"; "Driver = /private/foo.so"]) None
      else if str_eqb p "/private/foo.so"
      then Unstatable (OSError (str_of "[Errno 13] Permission denied"))
      else Absent in
  fst (list_drivers sales_manager fs) =
    Fails (OSError (str_of "[Errno 13] Permission denied")).
Proof. reflexivity. Qed.

(* ================================================================= *)
(** ** More on the connection tester *)

Lemma dict_set_same_value (V : Type) (k : str) (v : V) (d : dict V) :
  dict_get k d = Some v -> dict_set k v d = d.
Proof.
  induction d as [|[k' v'] d IH]; simpl; [discriminate|].
  destruct (str_eqb k' k) eqn:E.
  - apply str_eqb_eq in E. intros [= ->]. now subst.
  - intros H. now rewrite IH.
Qed.

Lemma setenv_get_same (k : str) (v : option str) (env : dict str) :
  truthy v = true -> dict_get k (setenv_if k v env) = v.
Proof.
  destruct v as [[|c s]|]; try discriminate. intros _.
  apply dict_get_set_same.
Qed.

Lemma setenv_get_other (k k' : str) (v : option str) (env : dict str) :
  k' <> k -> dict_get k' (setenv_if k v env) = dict_get k' env.
Proof.
  intros H. destruct v as [[|c s]|]; try reflexivity.
  now apply dict_get_set_other.
Qed.

Lemma setenv_settled (k : str) (v : option str) (env : dict str) :
  (truthy v = true -> dict_get k env = v) -> setenv_if k v env = env.
Proof.
  destruct v as [[|c s]|]; try reflexivity. intros H.
  apply dict_set_same_value. now apply H.
Qed.

Lemma env_names_differ :
  str_of "ODBCINI" <> str_of "ODBCINST" /\
  str_of "ODBCINI" <> str_of "ODBCINSTINI" /\
  str_of "ODBCINST" <> str_of "ODBCINSTINI".
Proof. repeat split; discriminate. Qed.

(** X9. A test sets [ODBCINI], [ODBCINST] and [ODBCINSTINI] once and
    for all: in the world a test leaves, a second test of the same
    manager object finds the same [odbcinst.ini] and changes nothing. *)
Theorem set_environment_idempotent :
  forall (self : ODBCManager) (w : world),
    odbcinst_path_of self (set_environment self w) = odbcinst_path_of self w
    /\ set_environment self (set_environment self w) = set_environment self w.
Proof.
  intros self w. destruct env_names_differ as (N1 & N2 & N3).
  set (env1 := setenv_if (str_of "ODBCINI") (odbcini self) (environ w)).
  assert (H0 : setenv_if (str_of "ODBCINI") (odbcini self) env1 = env1).
  { apply setenv_settled. intros Ht. now apply setenv_get_same. }
  assert (Hpath : forall env,
            setenv_if (str_of "ODBCINI") (odbcini self) env = env ->
            odbcinst_path_of self
              (mk_world (files w) env (home w) (pyodbc w)) =
            find_odbcinst self (files w) env (home w)).
  { intros env He. unfold odbcinst_path_of. cbn [files environ home].
    change (setenv_if "ODBCINI" (odbcini self) env)
      with (setenv_if (str_of "ODBCINI") (odbcini self) env).
    now rewrite He. }
  destruct (odbcinst_path_of self w) as [P|e] eqn:EP.
  - assert (EP' : find_odbcinst self (files w) env1 (home w) = Returns P)
      by exact EP.
    set (env3 := setenv_if (str_of "ODBCINSTINI") P
                   (setenv_if (str_of "ODBCINST") P env1)).
    assert (Hw : set_environment self w =
                 mk_world (files w) env3 (home w) (pyodbc w)).
    { unfold set_environment. rewrite EP. reflexivity. }
    assert (H1 : setenv_if (str_of "ODBCINI") (odbcini self) env3 = env3).
    { apply setenv_settled. intros Ht. unfold env3.
      rewrite !setenv_get_other by congruence.
      now apply setenv_get_same. }
    assert (HP : odbcinst_path_of self
                   (mk_world (files w) env3 (home w) (pyodbc w)) =
                 Returns P).
    { rewrite (Hpath env3 H1). unfold find_odbcinst in EP' |- *.
      destruct (truthy (odbcinst self)) eqn:Et; [exact EP'|].
      change (dict_get "ODBCINST" env3)
        with (dict_get (str_of "ODBCINST") env3).
      destruct (truthy P) eqn:TP.
      - assert (Hg : dict_get (str_of "ODBCINST") env3 = P).
        { unfold env3. rewrite setenv_get_other by congruence.
          now apply setenv_get_same. }
        now rewrite Hg, TP.
      - assert (He : env3 = env1).
        { unfold env3. rewrite !setenv_settled; auto; congruence. }
        rewrite He. exact EP'. }
    rewrite Hw. split; [exact HP|].
    unfold set_environment. rewrite HP. cbn [files environ home pyodbc].
    change (setenv_if "ODBCINI" (odbcini self) env3)
      with (setenv_if (str_of "ODBCINI") (odbcini self) env3).
    rewrite H1. f_equal.
    assert (H2 : setenv_if (str_of "ODBCINST") P env3 = env3).
    { apply setenv_settled. intros Ht. unfold env3.
      rewrite setenv_get_other by congruence. now apply setenv_get_same. }
    assert (H3 : setenv_if (str_of "ODBCINSTINI") P env3 = env3).
    { apply setenv_settled. intros Ht. unfold env3.
      now apply setenv_get_same. }
    change (setenv_if "ODBCINST" P env3)
      with (setenv_if (str_of "ODBCINST") P env3).
    rewrite H2. exact H3.
  - assert (EP' : find_odbcinst self (files w) env1 (home w) = Fails e)
      by exact EP.
    assert (Hw : set_environment self w =
                 mk_world (files w) env1 (home w) (pyodbc w)).
    { unfold set_environment. rewrite EP. reflexivity. }
    assert (HP : odbcinst_path_of self
                   (mk_world (files w) env1 (home w) (pyodbc w)) = Fails e).
    { rewrite (Hpath env1 H0). exact EP'. }
    rewrite Hw. split; [exact HP|].
    unfold set_environment. rewrite HP. cbn [files environ home pyodbc].
    change (setenv_if "ODBCINI" (odbcini self) env1)
      with (setenv_if (str_of "ODBCINI") (odbcini self) env1).
    now rewrite H0.
Qed.

Section TesterMore.

Variable connect : backend -> world -> str -> conn_outcome.

(** X10. With a manager chosen, a DSN found with a section that is not
    empty and [pyodbc] at hand, [test_dsn] runs the test with that
    manager and no other, whether or not the manager was detected on
    the system: what happens is what happens in that one test, every
    call of the connector is one for that manager, and [success] is the
    verdict of that test.  Where no look at a file raises, the
    connector is called once. *)
Theorem chosen_manager_only :
  forall (self : ODBCManager) (w : world) (dsn_name : str) (b : backend)
         (a : answers) (dsn_config : section) (shown : list str),
    show_dsn_details self (files w) dsn_name =
      (Returns (Some dsn_config), shown) ->
    dsn_config <> [] ->
    pyodbc w = true ->
    let username := fst (credentials a) in
    let password := snd (credentials a) in
    let conn_str := conn_str_of dsn_name username password in
    let t := test_dsn_with connect b self w dsn_name username password in
    let r := test_dsn connect self w dsn_name (Some b) a in
    exists ok before,
      fst (fst t) = Returns ok /\
      fst (fst r) = Returns (Some ok) /\
      snd (fst r) = set_environment self w /\
      connections before = [] /\
      snd r =
        before ++ snd t
          ++ (match b with UnixODBC => [Print []] | IODBC => [] end)
          ++ [Print rule] /\
      connects_only b conn_str (snd r) /\
      (no_stat_fault (files w) ->
       connections (snd r) = [(b, conn_str)] /\
       ok = connected (connect b (set_environment self w) conn_str)).
Proof.
  intros self w dsn_name b a dsn_config shown Hshow Hne Hpy
    username password conn_str t r.
  assert (Ht : exists ok ev,
            t = (Returns ok, set_environment self w, ev) /\
            connects_only b conn_str ev /\
            (no_stat_fault (files w) ->
             connections ev = [(b, conn_str)] /\
             ok = connected (connect b (set_environment self w) conn_str))).
  { subst t.
    destruct (test_dsn_with_spec connect b self w dsn_name username password
                Hpy) as (ev & [(E & Hc & Ho & _) | (E & Hc & Ho & p & e & F)]);
      rewrite E; eexists _, _; (split; [reflexivity|]);
      (split; [exact Ho|]); intros Hfs;
      [now split | now apply Hfs in F]. }
  destruct Ht as (ok & ev & Et & Ho & Hr).
  set (before :=
         prints shown ++
         prints [str_of "Connection credentials:";
                 str_of "  1) Use credentials from DSN configuration";
                 str_of "  2) Enter custom credentials for this test"] ++
         prints [[nl] ++ "Testing DSN: " ++ dsn_name; rule]).
  assert (Er : r =
    (Returns (Some ok), set_environment self w,
     before ++ ev
       ++ (match b with UnixODBC => [Print []] | IODBC => [] end)
       ++ [Print rule])).
  { subst r before. unfold test_dsn. rewrite Hshow.
    destruct dsn_config as [|kv dsn_config]; [congruence|].
    subst t username password.
    destruct (credentials a) as [username password]. cbn [fst snd] in *.
    unfold test_dsn_unixodbc, test_dsn_iodbc.
    destruct b; cbn [selected]; rewrite Et; rewrite orb_false_r;
      f_equal; rewrite <- !(@app_assoc event); reflexivity. }
  assert (Hb : connections before = []).
  { unfold before. now rewrite !connections_app, !connections_prints. }
  exists ok, before. rewrite Er, Et. cbn [fst snd].
  repeat split; auto.
  - unfold connects_only in *. rewrite !Forall_app. repeat split.
    + clear - Hb. induction before as [|[l|b' s] before IH]; simpl in *;
        [constructor | constructor; auto | discriminate].
    + exact Ho.
    + destruct b; repeat constructor.
    + repeat constructor.
  - rewrite !connections_app, Hb. destruct (Hr H) as [-> _].
    destruct b; reflexivity.
  - now apply Hr.
Qed.

(** X11. When [show_dsn_details] does not find the DSN, or finds its
    section empty, [test_dsn] tests nothing: no connection is attempted,
    the environment is left alone and there is no verdict. *)
Theorem no_test_without_section :
  forall (self : ODBCManager) (w : world) (dsn_name : str)
         (manager : option backend) (a : answers) (shown : list str),
    show_dsn_details self (files w) dsn_name = (Returns None, shown) \/
    show_dsn_details self (files w) dsn_name = (Returns (Some []), shown) ->
    test_dsn connect self w dsn_name manager a =
      (Returns None, w,
       prints shown ++ [Print (str_of "DSN not found or invalid")]) /\
    connections (snd (test_dsn connect self w dsn_name manager a)) = [].
Proof.
  intros self w dsn_name manager a shown H.
  assert (E : test_dsn connect self w dsn_name manager a =
              (Returns None, w,
               prints shown ++ [Print (str_of "DSN not found or invalid")])).
  { unfold test_dsn. destruct H as [-> | ->]; reflexivity. }
  split; [exact E|]. rewrite E. cbn [snd].
  rewrite connections_app, connections_prints. reflexivity.
Qed.

(** X12. Whenever a test calls the connector, the call is for the
    manager of the test, the connection string is the one built from
    the name and the credentials, and the line
    [Debug: Attempting connection with: ...] holding that string as it
    is, the password in it included, was printed right before the call,
    after the line that shows the string with the password masked. *)
Theorem debug_line_shows_connection_string :
  forall (b : backend) (self : ODBCManager) (w : world) (dsn_name : str)
         (username password : option str) (b' : backend) (s : str),
    let r := test_dsn_with connect b self w dsn_name username password in
    In (Connect b' s) (snd r) ->
    b' = b /\ s = conn_str_of dsn_name username password /\
    exists pre post,
      snd r = pre ++ Print (attempt_line s) :: Connect b' s :: post /\
      In (Print ("Debug: " ++ label b ++ " connection string: "
                   ++ display_conn_str_of dsn_name username password)) pre.
Proof.
  intros b self w dsn_name username password b' s r Hin. subst r.
  destruct (pyodbc w) eqn:Hpy.
  - destruct (test_dsn_with_spec connect b self w dsn_name username password
                Hpy)
      as (evs & [(E & Hc & _ & pre & lines & Hev & Hd) | (E & Hc & _)]);
      rewrite E in *; cbn [snd] in *; apply in_connections in Hin;
      rewrite Hc in Hin; [|destruct Hin].
    destruct Hin as [[= <- <-]|[]]. repeat split. eauto.
  - rewrite (test_dsn_with_no_pyodbc connect b self w dsn_name username
               password Hpy) in Hin.
    destruct b; cbn [snd] in Hin;
      repeat (destruct Hin as [Hin|Hin]; [discriminate|]); destruct Hin.
Qed.

(** X23. When [pyodbc] cannot be imported and [test_dsn] is to test
    with unixODBC, that test raises an [UnboundLocalError] right after
    its first line and the exception leaves [test_dsn]: the environment
    is not touched, the connector is not called, no verdict is printed,
    and the test with iODBC is never tried, though it was to follow.
    When [test_dsn] is to test with iODBC only, the test prints that
    the library was not found and [test_dsn] ends with a failure. *)
Theorem missing_pyodbc_stops_test :
  forall (self : ODBCManager) (w : world) (dsn_name : str)
         (manager : option backend) (a : answers) (dsn_config : section)
         (shown : list str),
    show_dsn_details self (files w) dsn_name =
      (Returns (Some dsn_config), shown) ->
    dsn_config <> [] ->
    pyodbc w = false ->
    let r := test_dsn connect self w dsn_name manager a in
    snd (fst r) = w /\
    connections (snd r) = [] /\
    (selected UnixODBC manager (has_unixodbc self) = true ->
     fst (fst r) = Fails (UnboundLocalError (str_of "pyodbc")) /\
     exists before,
       connections before = [] /\
       snd r =
         before
           ++ [Print (str_of "Testing with unixODBC (standard ODBC)...")]) /\
    (selected UnixODBC manager (has_unixodbc self) = false ->
     selected IODBC manager (has_iodbc self) = true ->
     fst (fst r) = Returns (Some false) /\
     In (Print (str_of "✗ pyodbc library not found - install with: pip install pyodbc"))
        (snd r)).
Proof.
  intros self w dsn_name manager a dsn_config shown Hshow Hne Hpy r.
  set (before :=
         prints shown ++
         prints [str_of "Connection credentials:";
                 str_of "  1) Use credentials from DSN configuration";
                 str_of "  2) Enter custom credentials for this test"] ++
         prints [[nl] ++ "Testing DSN: " ++ dsn_name; rule]).
  assert (Hb : connections before = []).
  { unfold before. now rewrite !connections_app, !connections_prints. }
  assert (Er : r =
    if selected UnixODBC manager (has_unixodbc self) then
      (Fails (UnboundLocalError (str_of "pyodbc")), w,
       before ++ [Print (str_of "Testing with unixODBC (standard ODBC)...")])
    else if selected IODBC manager (has_iodbc self) then
      (Returns (Some false), w,
       before
         ++ [Print (str_of "Testing with iODBC (standard ODBC)...");
             Print (str_of "✗ pyodbc library not found - install with: pip install pyodbc")]
         ++ [Print rule])
    else (Returns (Some false), w, before ++ [Print rule])).
  { subst r before. unfold test_dsn. rewrite Hshow.
    destruct dsn_config as [|kv dsn_config]; [congruence|].
    destruct (credentials a) as [username password].
    unfold test_dsn_unixodbc, test_dsn_iodbc.
    destruct (selected UnixODBC manager (has_unixodbc self)).
    - rewrite (test_dsn_with_no_pyodbc connect UnixODBC self w dsn_name
                 username password Hpy).
      f_equal. rewrite <- !(@app_assoc event). reflexivity.
    - destruct (selected IODBC manager (has_iodbc self)).
      + rewrite (test_dsn_with_no_pyodbc connect IODBC self w dsn_name
                   username password Hpy).
        f_equal. rewrite <- !(@app_assoc event). reflexivity.
      + f_equal. rewrite <- !(@app_assoc event). reflexivity. }
  rewrite Er.
  destruct (selected UnixODBC manager (has_unixodbc self));
    [|destruct (selected IODBC manager (has_iodbc self))]; cbn [fst snd].
  - split; [reflexivity|]. split; [now rewrite connections_app, Hb|].
    split; [|discriminate]. intros _. split; [reflexivity|].
    exists before. now split.
  - split; [reflexivity|]. split; [now rewrite !connections_app, Hb|].
    split; [discriminate|]. intros _ _. split; [reflexivity|].
    rewrite !in_app_iff. right. left. right. now left.
  - split; [reflexivity|]. split; [now rewrite connections_app, Hb|].
    split; discriminate.
Qed.

End TesterMore.

Lemma chosen_manager_only_witness :
  let self :=
    mk_manager false false (Some (str_of "odbc.ini"))
      (Some (str_of "odbcinst.ini")) in
  let username := fst (credentials default_answers) in
  let password := snd (credentials default_answers) in
  let conn_str := conn_str_of (str_of "Sales") username password in
  let t := test_dsn_with second_succeeds IODBC self sales_world
             (str_of "Sales") username password in
  let r := test_dsn second_succeeds self sales_world (str_of "Sales")
             (Some IODBC) default_answers in
  exists ok before,
    fst (fst t) = Returns ok /\
    fst (fst r) = Returns (Some ok) /\
    snd (fst r) = set_environment self sales_world /\
    connections before = [] /\
    snd r =
      before ++ snd t
        ++ (match IODBC with UnixODBC => [Print []] | IODBC => [] end)
        ++ [Print rule] /\
    connects_only IODBC conn_str (snd r) /\
    (no_stat_fault (files sales_world) ->
     connections (snd r) = [(IODBC, conn_str)] /\
     ok = connected (second_succeeds IODBC
                       (set_environment self sales_world) conn_str)).
Proof.
  eapply (@chosen_manager_only second_succeeds
            (mk_manager false false (Some (str_of "odbc.ini"))
               (Some (str_of "odbcinst.ini")))
            sales_world (str_of "Sales") IODBC default_answers).
  - vm_compute. reflexivity.
  - discriminate.
  - reflexivity.
Defined.

Lemma no_test_without_section_witness :
  test_dsn second_succeeds sales_manager sales_world (str_of "Missing") None
      default_answers =
    (Returns None, sales_world,
     prints (snd (show_dsn_details sales_manager (files sales_world)
                    (str_of "Missing")))
       ++ [Print (str_of "DSN not found or invalid")]) /\
  connections (snd (test_dsn second_succeeds sales_manager sales_world
                      (str_of "Missing") None default_answers)) = [].
Proof.
  apply (@no_test_without_section second_succeeds sales_manager sales_world
           (str_of "Missing") None default_answers
           (snd (show_dsn_details sales_manager (files sales_world)
                   (str_of "Missing")))).
  left. vm_compute. reflexivity.
Defined.

Lemma debug_line_shows_connection_string_witness :
  let r := test_dsn_with second_succeeds UnixODBC sales_manager sales_world
             (str_of "Sales") (Some (str_of "dba"))
             (Some (str_of "secret")) in
  UnixODBC = UnixODBC /\
  str_of "DSN=Sales;UID=dba;PWD=secret" =
    conn_str_of (str_of "Sales") (Some (str_of "dba"))
      (Some (str_of "secret")) /\
  exists pre post,
    snd r =
      pre ++ Print (attempt_line (str_of "DSN=Sales;UID=dba;PWD=secret"))
          :: Connect UnixODBC (str_of "DSN=Sales;UID=dba;PWD=secret")
          :: post /\
    In (Print ("Debug: " ++ label UnixODBC ++ " connection string: "
                 ++ display_conn_str_of (str_of "Sales")
                      (Some (str_of "dba")) (Some (str_of "secret")))) pre.
Proof.
  apply (@debug_line_shows_connection_string second_succeeds UnixODBC
           sales_manager sales_world (str_of "Sales") (Some (str_of "dba"))
           (Some (str_of "secret")) UnixODBC
           (str_of "DSN=Sales;UID=dba;PWD=secret")).
  vm_compute. do 7 right. left. reflexivity.
Defined.

Lemma missing_pyodbc_stops_test_witness :
  let w := mk_world (sales_fs "secret") [] (str_of "/home/dba") false in
  let r := test_dsn second_succeeds sales_manager w (str_of "Sales") None
             default_answers in
  snd (fst r) = w /\
  connections (snd r) = [] /\
  (selected UnixODBC None (has_unixodbc sales_manager) = true ->
   fst (fst r) = Fails (UnboundLocalError (str_of "pyodbc")) /\
   exists before,
     connections before = [] /\
     snd r =
       before
         ++ [Print (str_of "Testing with unixODBC (standard ODBC)...")]) /\
  (selected UnixODBC None (has_unixodbc sales_manager) = false ->
   selected IODBC None (has_iodbc sales_manager) = true ->
   fst (fst r) = Returns (Some false) /\
   In (Print (str_of "✗ pyodbc library not found - install with: pip install pyodbc"))
      (snd r)).
Proof.
  eapply (@missing_pyodbc_stops_test second_succeeds sales_manager
            (mk_world (sales_fs "secret") [] (str_of "/home/dba") false)
            (str_of "Sales") None default_answers).
  - vm_compute. reflexivity.
  - discriminate.
  - reflexivity.
Defined.

(** The same DSN with [pyodbc] missing: with both managers the test
    with unixODBC raises and the one with iODBC is not tried; with
    iODBC alone the test fails with the note on the library. *)
Example missing_pyodbc_both_and_iodbc :
  let w := mk_world (sales_fs "secret") [] (str_of "/home/dba") false in
  fst (fst (test_dsn second_succeeds sales_manager w (str_of "Sales") None
              default_answers)) =
    Fails (UnboundLocalError (str_of "pyodbc")) /\
  ~ In (Print (str_of "Testing with iODBC (standard ODBC)..."))
       (snd (test_dsn second_succeeds sales_manager w (str_of "Sales") None
               default_answers)) /\
  fst (fst (test_dsn second_succeeds sales_manager w (str_of "Sales")
              (Some IODBC) default_answers)) = Returns (Some false).
Proof.
  split; [reflexivity|]. split; [|reflexivity]. vm_compute.
  intros H; repeat (destruct H as [H|H]; [discriminate|]); exact H.
Qed.

(** X13. The connection string carries a user name and a password only
    when custom credentials were chosen (answer [2]) and neither the
    stripped user name nor the password is empty; in every other case,
    a user name typed with an empty password included, it is just
    [DSN=<name>]. *)
Theorem credentials_all_or_nothing :
  forall (a : answers) (dsn_name : str),
    conn_str_of dsn_name (fst (credentials a)) (snd (credentials a)) =
    if str_eqb (strip (cred_choice_typed a)) "2"
       && negb (is_empty (strip (username_typed a)))
       && negb (is_empty (password_typed a))
    then "DSN=" ++ dsn_name ++ ";UID=" ++ strip (username_typed a)
           ++ ";PWD=" ++ password_typed a
    else "DSN=" ++ dsn_name.
Proof.
  intros a dsn_name. unfold credentials.
  destruct (strip (cred_choice_typed a)) as [|c cs] eqn:Ec.
  - reflexivity.
  - destruct (str_eqb (c :: cs) "2"); [|reflexivity].
    destruct (strip (username_typed a)) as [|u us]; [reflexivity|].
    destruct (password_typed a) as [|p ps]; reflexivity.
Qed.

(** X14. The connection string shown in the debug lines hides the
    password behind as many stars: it is as long as the real one, and
    two passwords of the same length give the same shown string. *)
Theorem display_hides_password :
  forall (dsn_name : str) (username : option str) (p1 p2 : str),
    List.length p1 = List.length p2 ->
    display_conn_str_of dsn_name username (Some p1) =
      display_conn_str_of dsn_name username (Some p2) /\
    List.length (display_conn_str_of dsn_name username (Some p1)) =
      List.length (conn_str_of dsn_name username (Some p1)).
Proof.
  intros dsn_name username p1 p2 Hlen. split.
  - unfold display_conn_str_of. cbn [py_str]. rewrite Hlen.
    destruct p1, p2; try discriminate; reflexivity.
  - unfold display_conn_str_of, conn_str_of.
    destruct (truthy username && truthy (Some p1)); [|reflexivity].
    rewrite !length_app. unfold stars. now rewrite repeat_length.
Qed.

Lemma display_hides_password_witness :
  display_conn_str_of (str_of "Sales") (Some (str_of "dba"))
      (Some (str_of "secret")) =
    display_conn_str_of (str_of "Sales") (Some (str_of "dba"))
      (Some (str_of "hunter")) /\
  List.length (display_conn_str_of (str_of "Sales") (Some (str_of "dba"))
                 (Some (str_of "secret"))) =
    List.length (conn_str_of (str_of "Sales") (Some (str_of "dba"))
                   (Some (str_of "secret"))).
Proof.
  apply (@display_hides_password (str_of "Sales") (Some (str_of "dba"))
           (str_of "secret") (str_of "hunter")).
  reflexivity.
Defined.


(** With no [odbc.ini] chosen and an [odbcinst.ini], the direct test
    never gets as far as the connector. *)
Example direct_test_without_odbcini :
  let self := mk_manager true false None (Some (str_of "odbcinst.ini")) in
  simple_dsn_test (fun _ _ => ConnOK) self sales_world (str_of "Sales") None =
    (Returns false, sales_world,
     [Printed (str_of "Connection failed: cannot access local variable 'os' where it is not associated with a value")]).
Proof. reflexivity. Qed.

(* ================================================================= *)
(** ** The menus *)

Lemma menu_key_range (n current key : Z) :
  (0 <= current < n)%Z ->
  match menu_key n current key with
  | GoOn current' => (0 <= current' < n)%Z
  | Return value => value = (-1)%Z \/ value = current
  end.
Proof.
  intros H. unfold menu_key.
  destruct (key =? KEY_UP)%Z.
  - destruct (current >? 0)%Z eqn:E; lia.
  - destruct (key =? KEY_DOWN)%Z.
    + destruct (current <? n - 1)%Z eqn:E; lia.
    + destruct ((key =? 10)%Z || (key =? KEY_ENTER)%Z || (key =? 10)%Z);
        [now right|].
      destruct ((key =? 113)%Z || (key =? 81)%Z || (key =? 27)%Z);
        [now left | exact H].
Qed.

Lemma menu_loop_range (n : Z) (keys : list Z) :
  forall current value,
    (0 <= current < n)%Z -> menu_loop n keys current = Some value ->
    value = (-1)%Z \/ (0 <= value < n)%Z.
Proof.
  induction keys as [|key keys IH]; intros current value Hc H; simpl in H;
    [discriminate|].
  pose proof (menu_key_range key Hc) as Hk.
  destruct (menu_key n current key) as [current'|v].
  - now apply IH with current'.
  - injection H as <-. destruct Hk as [->| ->]; auto.
Qed.

(** X16. The value a menu with at least one entry returns is [-1] or
    the index of one of its entries, whatever keys are pressed. *)
Theorem menu_select_in_range :
  forall (options : list str) (keys : list Z) (value : Z),
    options <> [] -> menu_select options keys = Some value ->
    value = (-1)%Z \/
    (0 <= value < Z.of_nat (List.length options))%Z.
Proof.
  intros options keys value Hne H. unfold menu_select in H.
  apply menu_loop_range in H; [exact H|].
  destruct options; [congruence | simpl; lia].
Qed.

Lemma menu_select_in_range_witness :
  (1 : Z) = (-1)%Z \/
  (0 <= 1 < Z.of_nat (List.length [str_of "unixODBC"; str_of "iODBC";
                                   str_of "Both"]))%Z.
Proof.
  apply (@menu_select_in_range
           [str_of "unixODBC"; str_of "iODBC"; str_of "Both"]
           [KEY_UP; KEY_DOWN; KEY_DOWN; 10%Z] 1%Z).
  - discriminate.
  - reflexivity.
Defined.

Lemma menu_loop_down (n : Z) (k : nat) :
  forall (rest : list Z) (current : Z),
    (0 <= current < n)%Z ->
    menu_loop n (repeat KEY_DOWN k ++ rest) current =
    menu_loop n rest ((current + Z.of_nat k) mod n)%Z.
Proof.
  induction k as [|k IH]; intros rest current Hc.
  - simpl. rewrite Z.add_0_r, Z.mod_small by lia. reflexivity.
  - cbn [repeat app menu_loop]. unfold menu_key.
    change (KEY_DOWN =? KEY_UP)%Z with false.
    change (KEY_DOWN =? KEY_DOWN)%Z with true. cbv iota.
    destruct (current <? n - 1)%Z eqn:E.
    + rewrite IH by lia. f_equal. f_equal. lia.
    + rewrite IH by lia. f_equal.
      assert (current = n - 1)%Z by lia. subst current.
      replace (n - 1 + Z.of_nat (S k))%Z with (Z.of_nat k + 1 * n)%Z by lia.
      rewrite Z.mod_add by lia. now rewrite Z.add_0_l.
Qed.

Lemma menu_loop_up (n : Z) (k : nat) :
  forall (rest : list Z) (current : Z),
    (0 <= current < n)%Z ->
    menu_loop n (repeat KEY_UP k ++ rest) current =
    menu_loop n rest ((current - Z.of_nat k) mod n)%Z.
Proof.
  induction k as [|k IH]; intros rest current Hc.
  - simpl. rewrite Z.sub_0_r, Z.mod_small by lia. reflexivity.
  - cbn [repeat app menu_loop]. unfold menu_key.
    change (KEY_UP =? KEY_UP)%Z with true. cbv iota.
    destruct (current >? 0)%Z eqn:E.
    + rewrite IH by lia. f_equal. f_equal. lia.
    + rewrite IH by lia. f_equal.
      assert (current = 0)%Z by lia. subst current.
      replace (n - 1 - Z.of_nat k)%Z with (0 - Z.of_nat (S k) + 1 * n)%Z
        by lia.
      now rewrite Z.mod_add by lia.
Qed.

(** X17. The menu goes round: from the first entry, [k] presses of the
    down arrow and Enter select the entry [k mod n], [k] presses of the
    up arrow and Enter the entry [(-k) mod n], [n] being the number of
    entries. *)
Theorem menu_select_goes_round :
  forall (options : list str) (k : nat),
    options <> [] ->
    menu_select options (repeat KEY_DOWN k ++ [10%Z]) =
      Some (Z.of_nat k mod Z.of_nat (List.length options))%Z /\
    menu_select options (repeat KEY_UP k ++ [10%Z]) =
      Some ((- Z.of_nat k) mod Z.of_nat (List.length options))%Z.
Proof.
  intros options k Hne. unfold menu_select.
  assert (Hn : (0 <= 0 < Z.of_nat (List.length options))%Z)
    by (destruct options; [congruence | simpl; lia]).
  split.
  - rewrite menu_loop_down by exact Hn. reflexivity.
  - rewrite menu_loop_up by exact Hn. reflexivity.
Qed.

Lemma menu_select_goes_round_witness :
  menu_select menu_options (repeat KEY_DOWN 13 ++ [10%Z]) =
    Some (Z.of_nat 13 mod Z.of_nat (List.length menu_options))%Z /\
  menu_select menu_options (repeat KEY_UP 13 ++ [10%Z]) =
    Some ((- Z.of_nat 13) mod Z.of_nat (List.length menu_options))%Z.
Proof.
  apply (@menu_select_goes_round menu_options 13). discriminate.
Defined.

(** X18. When at least one manager was detected, the manager
    [select_manager] returns only ever makes [test_dsn] test with
    managers that were detected, and with at least one. *)
Theorem select_manager_available :
  forall (self : ODBCManager) (keys : list Z) (manager : option backend),
    has_unixodbc self || has_iodbc self = true ->
    select_manager self keys = Some (Manager manager) ->
    (forall b, selected b manager (available self b) = true ->
               available self b = true) /\
    (exists b, selected b manager (available self b) = true).
Proof.
  intros self keys manager Hav H. unfold select_manager in H.
  unfold available.
  destruct (has_unixodbc self) eqn:Eu; destruct (has_iodbc self) eqn:Ei;
    simpl in Hav; try discriminate; cbn [andb] in H.
  - split; [now intros []|].
    destruct manager as [[]|];
      [exists UnixODBC | exists IODBC | exists UnixODBC]; reflexivity.
  - injection H as <-. split.
    + intros []; [reflexivity | discriminate].
    + exists UnixODBC. reflexivity.
  - injection H as <-. split.
    + intros []; [discriminate | reflexivity].
    + exists IODBC. reflexivity.
Qed.

Lemma select_manager_available_witness :
  (forall b, selected b None (available sales_manager b) = true ->
             available sales_manager b = true) /\
  (exists b, selected b None (available sales_manager b) = true).
Proof.
  apply (@select_manager_available sales_manager
           [KEY_DOWN; KEY_DOWN; KEY_ENTER] None); reflexivity.
Defined.

(** X19. Of the entries of the main menu, the one that ends the program
    is [Refresh]; [Exit] and the two separators do nothing, and the loop
    shows the menu again. *)
Theorem refresh_quits_exit_stays :
  forall (i : nat) (entry : str),
    nth_error menu_options i = Some entry ->
    (run_action (Z.of_nat i) = Quit <-> entry = str_of "Refresh") /\
    (entry = str_of "Exit" \/ entry = str_of "─────────────" ->
     run_action (Z.of_nat i) = Again).
Proof.
  intros i entry H.
  do 12 (destruct i as [|i];
         [injection H as <-; vm_compute; split;
          [split; intros E; try reflexivity; discriminate E
          | intros [E|E]; try reflexivity; discriminate E]|]).
  destruct i; discriminate.
Qed.

Lemma refresh_quits_exit_stays_witness :
  (run_action (Z.of_nat 11) = Quit <-> str_of "Exit" = str_of "Refresh") /\
  (str_of "Exit" = str_of "Exit" \/ str_of "Exit" = str_of "─────────────" ->
   run_action (Z.of_nat 11) = Again).
Proof.
  apply (@refresh_quits_exit_stays 11 (str_of "Exit")). reflexivity.
Defined.

Lemma nth_error_in_range (l : list str) (i : Z) :
  (0 <= i < Z.of_nat (List.length l))%Z ->
  exists name, py_index l i = Some name /\ In name l.
Proof.
  intros H. unfold py_index.
  destruct (0 <=? i)%Z eqn:E; [|lia].
  destruct (nth_error l (Z.to_nat i)) as [name|] eqn:En.
  - exists name. split; [reflexivity|]. eapply nth_error_In; eauto.
  - apply nth_error_None in En. lia.
Qed.

(** X20. Choosing a DSN or a driver in [run] never indexes the list out
    of range: what is picked is one of the names listed, or the name
    typed in, stripped and not empty. *)
Theorem pick_name_safe :
  forall (names : list str) (custom_entry : str) (keys : list Z)
         (typed : str),
    pick_name names custom_entry keys typed <> PickIndexError /\
    forall name,
      pick_name names custom_entry keys typed = Picked name ->
      In name names \/ (name = strip typed /\ name <> []).
Proof.
  intros names custom keys typed.
  assert (Ht : typed_name typed <> PickIndexError /\
               forall name, typed_name typed = Picked name ->
                 In name names \/ (name = strip typed /\ name <> [])).
  { unfold typed_name. destruct (strip typed) as [|c s];
      (split; [discriminate|]); intros name [= <-].
    right. split; [reflexivity | discriminate]. }
  unfold pick_name. destruct names as [|n0 names]; [exact Ht|].
  destruct (menu_select ((n0 :: names) ++ [custom]) keys) as [choice|] eqn:Em;
    [|split; [discriminate | intros name [=]]].
  destruct (choice =? -1)%Z eqn:E1;
    [split; [discriminate | intros name [=]]|].
  destruct (choice <? Z.of_nat (List.length (n0 :: names)))%Z eqn:E2;
    [|exact Ht].
  unfold menu_select in Em. apply menu_loop_range in Em;
    [|rewrite length_app; simpl; lia].
  destruct (@nth_error_in_range (n0 :: names) choice) as (name & -> & Hin);
    [lia|].
  split; [discriminate|]. intros name' [= <-]. now left.
Qed.

(* ================================================================= *)
(** ** The candidate files *)

Lemma dedup_seen_spec (l : list str) :
  forall seen,
    NoDup (dedup_seen seen l) /\
    forall x, In x (dedup_seen seen l) <-> In x l /\ ~ In x seen.
Proof.
  induction l as [|a l IH]; intros seen; simpl.
  - split; [constructor | tauto].
  - destruct (existsb (str_eqb a) seen) eqn:E.
    + apply existsb_exists in E. destruct E as (y & Hy & Ey).
      apply str_eqb_eq in Ey. subst y.
      destruct (IH seen) as [Hnd Hin]. split; [exact Hnd|].
      intros x. rewrite Hin. split; [tauto|].
      intros [[->|H] Hn]; tauto.
    + assert (Ha : ~ In a seen).
      { intros Hin. apply (proj2 (not_true_iff_false _) E).
        apply existsb_exists. exists a. split; [exact Hin|].
        apply str_eqb_refl. }
      destruct (IH (a :: seen)) as [Hnd Hin]. split.
      * constructor; [|exact Hnd]. rewrite Hin. simpl. tauto.
      * intros x. simpl. rewrite Hin. simpl.
        destruct (list_eq_dec ascii_dec a x) as [->|Hne]; tauto.
Qed.

Lemma dedup_seen_head (l : list str) :
  hd_error (dedup_seen [] l) = hd_error l.
Proof. destruct l; reflexivity. Qed.

(** The loop over the candidates keeps those that exist, in their
    order, and raises when a look at one of them does. *)
Lemma found_paths_spec (fs : filesystem) (paths : list str) :
  match found_paths fs paths with
  | Returns found => found = filter (is_there fs) paths
  | Fails e => exists p, In p paths /\ fs p = Unstatable e
  end.
Proof.
  induction paths as [|p paths IH]; simpl; [reflexivity|].
  unfold is_there at 1.
  destruct (path_exists fs p) as [found|e] eqn:E.
  - destruct (found_paths fs paths) as [l|e].
    + subst l. now destruct found.
    + destruct IH as (q & Hq & F). exists q. split; [now right | exact F].
  - exists p. split; [now left|]. unfold path_exists in E.
    destruct (fs p); try discriminate. now injection E as ->.
Qed.

(** X21. The candidates for [odbc.ini] and for [odbcinst.ini] are the
    places looked at with no path twice and none lost; the file the
    environment names comes first ([ODBCINST] before [ODBCINSTINI]),
    the one in the home directory when the environment names none; and
    the files found, for the one and for the other, are the candidates
    that exist, in the order of the candidates, unless a look at a
    candidate raises. *)
Theorem candidate_files :
  forall (env : dict str) (home : str) (fs : filesystem),
    NoDup (odbcini_paths env home) /\
    NoDup (odbcinst_paths env home) /\
    (forall p, In p (odbcini_paths env home) <->
               In p (odbcini_places env home)) /\
    (forall p, In p (odbcinst_paths env home) <->
               In p (odbcinst_places env home)) /\
    hd_error (odbcini_paths env home) =
      Some (match dict_get "ODBCINI" env with
            | Some (c :: s) => c :: s
            | _ => home_file home ".odbc.ini"
            end) /\
    hd_error (odbcinst_paths env home) =
      Some (match dict_get "ODBCINST" env, dict_get "ODBCINSTINI" env with
            | Some (c :: s), _ => c :: s
            | _, Some (c :: s) => c :: s
            | _, _ => home_file home ".odbcinst.ini"
            end) /\
    match found_paths fs (odbcini_paths env home) with
    | Returns found_odbcini =>
        found_odbcini = filter (is_there fs) (odbcini_paths env home)
    | Fails e => exists p, In p (odbcini_places env home) /\
                           fs p = Unstatable e
    end /\
    match found_paths fs (odbcinst_paths env home) with
    | Returns found_odbcinst =>
        found_odbcinst = filter (is_there fs) (odbcinst_paths env home)
    | Fails e => exists p, In p (odbcinst_places env home) /\
                           fs p = Unstatable e
    end.
Proof.
  intros env home fs.
  assert (Hini : forall p, In p (odbcini_paths env home) <->
                           In p (odbcini_places env home)).
  { intros p. unfold odbcini_paths.
    rewrite (proj2 (dedup_seen_spec _ [])). simpl In.
    unfold odbcini_places. tauto. }
  assert (Hinst : forall p, In p (odbcinst_paths env home) <->
                            In p (odbcinst_places env home)).
  { intros p. unfold odbcinst_paths.
    rewrite (proj2 (dedup_seen_spec _ [])). simpl In.
    unfold odbcinst_places. tauto. }
  split; [apply dedup_seen_spec|]. split; [apply dedup_seen_spec|].
  split; [exact Hini|]. split; [exact Hinst|]. split; [|split; [|split]].
  - unfold odbcini_paths. rewrite dedup_seen_head.
    now destruct (dict_get "ODBCINI" env) as [[|c s]|].
  - unfold odbcinst_paths. rewrite dedup_seen_head. unfold py_or.
    destruct (dict_get "ODBCINST" env) as [[|c s]|];
      destruct (dict_get "ODBCINSTINI" env) as [[|c' s']|]; reflexivity.
  - pose proof (found_paths_spec fs (odbcini_paths env home)) as H.
    destruct (found_paths fs (odbcini_paths env home)); [exact H|].
    destruct H as (p & Hp & F). exists p. split; [now apply Hini | exact F].
  - pose proof (found_paths_spec fs (odbcinst_paths env home)) as H.
    destruct (found_paths fs (odbcinst_paths env home)); [exact H|].
    destruct H as (p & Hp & F). exists p. split; [now apply Hinst | exact F].
Qed.

(** With the home directory [/home/dba] and with the root as home
    directory: no slash is doubled, and for the root two of the places
    for [odbcinst.ini] are one path, listed once. *)
Example candidate_files_at_home :
  odbcini_paths [] (str_of "/home/dba") =
    [str_of "/home/dba/.odbc.ini"; str_of "/home/dba/Library/ODBC/odbc.ini";
     str_of "/etc/odbc.ini"; str_of "/usr/local/etc/odbc.ini"] /\
  odbcini_paths [] (str_of "/") =
    [str_of "/.odbc.ini"; str_of "/Library/ODBC/odbc.ini";
     str_of "/etc/odbc.ini"; str_of "/usr/local/etc/odbc.ini"] /\
  odbcinst_paths [] (str_of "/") =
    [str_of "/.odbcinst.ini"; str_of "/Library/ODBC/odbcinst.ini";
     str_of "/etc/odbcinst.ini"; str_of "/usr/local/etc/odbcinst.ini"] /\
  odbcinst_paths [(str_of "ODBCINSTINI", str_of "/etc/odbcinst.ini")]
    (str_of "/home/dba") =
    [str_of "/etc/odbcinst.ini"; str_of "/home/dba/.odbcinst.ini";
     str_of "/home/dba/Library/ODBC/odbcinst.ini";
     str_of "/Library/ODBC/odbcinst.ini";
     str_of "/usr/local/etc/odbcinst.ini"].
Proof. repeat split; reflexivity. Qed.
